(** * HYDROLIB dhydamo/io/common.py: ExtendedGeoDataFrame

    A shallow embedding of [ExtendedGeoDataFrame] (a geopandas dataframe with
    a schema: required columns and a geometry type) and of its readers,
    [read_shp] and [read_gpkg_layer], with the point-to-line grouping of the
    latter.

    Python objects are modelled as follows.
    - A cell of a dataframe is a [value]: [None]/NaN, an [int], a [str] or a
      shapely geometry.  Coordinates are carried around and never computed
      with, they are pairs of integers here.
    - A dataframe is row-major: the list of column names and the list of
      rows, each with its index label and its cells, one per column.  The
      geometry column is the column named "geometry".
    - A method that mutates [self] returns the instance as it is left behind
      together with the exception that was raised, if any: an exception does
      not undo the assignments made before it.
    - What geopandas computes from coordinates ([intersects], [to_crs]) is a
      parameter of the development, and so is what Python and pyproj
      compute from tables that are not part of the program: [str.lower],
      [list.sort] on numbers with NaN among them, and whether a code is a
      coordinate reference system. *)

From Stdlib Require Import ZArith String Ascii List Sorting.Sorted.
From stdpp Require Import base decidable option list strings gmap countable pretty sorting.

Open Scope Z_scope.
Open Scope string_scope.

(** ** Values *)

Definition coord : Type := (Z * Z)%type.
Definition ring : Type := list coord.
Definition polygon : Type := (ring * list ring)%type.

Inductive Geometry : Type :=
| Point (c : coord)
| LineString (cs : list coord)
| Polygon (p : polygon)
| MultiPoint (ps : list coord)
| MultiLineString (ls : list (list coord))
| MultiPolygon (ps : list polygon).

Inductive GeoClass : Type :=
| CPoint | CLineString | CPolygon | CMultiPoint | CMultiLineString | CMultiPolygon.

Inductive value : Type :=
| VNone
| VInt (z : Z)
| VStr (s : string)
| VGeom (g : Geometry).

#[global] Instance coord_eq_dec : EqDecision coord.
Proof. solve_decision. Defined.
#[global] Instance Geometry_eq_dec : EqDecision Geometry.
Proof. solve_decision. Defined.
#[global] Instance GeoClass_eq_dec : EqDecision GeoClass.
Proof. solve_decision. Defined.
#[global] Instance value_eq_dec : EqDecision value.
Proof. solve_decision. Defined.

Definition class_of (g : Geometry) : GeoClass :=
  match g with
  | Point _ => CPoint
  | LineString _ => CLineString
  | Polygon _ => CPolygon
  | MultiPoint _ => CMultiPoint
  | MultiLineString _ => CMultiLineString
  | MultiPolygon _ => CMultiPolygon
  end.

(** [geom.geom_type] *)
Definition geom_type (g : Geometry) : string :=
  match g with
  | Point _ => "Point"
  | LineString _ => "LineString"
  | Polygon _ => "Polygon"
  | MultiPoint _ => "MultiPoint"
  | MultiLineString _ => "MultiLineString"
  | MultiPolygon _ => "MultiPolygon"
  end.

(** [isinstance(v, classes)], for a class or a tuple of classes of shapely. *)
Definition isinstance (v : value) (classes : list GeoClass) : bool :=
  match v with
  | VGeom g => bool_decide (class_of g ∈ classes)
  | _ => false
  end.

(** [isinstance(v, int)] *)
Definition is_int (v : value) : bool :=
  match v with VInt _ => true | _ => false end.

(** [v is None], [Series.isnull]: None in a column of objects, NaN in a
    column of numbers. *)
Definition isnull (v : value) : bool :=
  match v with VNone => true | _ => false end.

Definition is_str (v : value) : bool :=
  match v with VStr _ => true | _ => false end.

Definition is_geom (v : value) : bool :=
  match v with VGeom _ => true | _ => false end.

(** ** Exceptions and results *)

Inductive exn : Type :=
| KeyError (key : string)
| TypeError (why : string)
| ValueError (why : string)
| IOError (why : string)
| OSError (why : string)
| IndexError (why : string)
| AttributeError (why : string)
| ShapelyError (why : string)
| CRSError (why : string).

Inductive result (A : Type) : Type :=
| Ok (a : A)
| Raise (e : exn).
Arguments Ok {A} a.
Arguments Raise {A} e.

Definition bind {A B} (r : result A) (k : A → result B) : result B :=
  match r with
  | Ok a => k a
  | Raise e => Raise e
  end.

Notation "'let*' x := r 'in' k" := (bind r (λ x, k))
  (at level 10, x name, r at level 100, k at level 200).

Definition is_KeyError {A} (r : result A) : Prop := ∃ k, r = Raise (KeyError k).
Definition is_TypeError {A} (r : result A) : Prop := ∃ k, r = Raise (TypeError k).
Definition is_ValueError {A} (r : result A) : Prop := ∃ k, r = Raise (ValueError k).
Definition is_IOError {A} (r : result A) : Prop := ∃ k, r = Raise (IOError k).

(** A loop whose body can raise: [for x in l: body]. *)
Fixpoint for_each {A S} (body : S → A → result S) (l : list A) (s : S) : result S :=
  match l with
  | [] => Ok s
  | x :: l' => let* s' := body s x in for_each body l' s'
  end.

(** [[f(x) for x in l]] where [f] can raise. *)
Fixpoint mapM_result {A B} (f : A → result B) (l : list A) : result (list B) :=
  match l with
  | [] => Ok []
  | x :: l' =>
      let* y := f x in
      let* ys := mapM_result f l' in
      Ok (y :: ys)
  end.

(** What is printed. *)
Inductive message : Type :=
| NotProperlyAssigned (branch : value)
| SplitIntoParts (ftc : value).

(** ** Dataframes *)

Definition CRS : Type := Z.

(** ** What the interpreter and the libraries compute

    Three functions are parameters of the development, as [intersects] of
    shapely and the transformation of pyproj are further down:
    - [str.lower()], which lowers every cased letter of Unicode;
    - [list.sort()] on a list of numbers with NaN among them: every
      comparison with NaN is false, and the order that results depends on
      the sorting algorithm of the interpreter;
    - whether pyproj takes a code for a coordinate reference system. *)
Class Library : Type := {
  str_lower : string → string;
  list_sort : list value → list value;
  is_crs : CRS → bool
}.

Record Row : Type := mkRow { label : value; cells : list value }.

Record GeoDataFrame : Type := mkFrame {
  columns : list string;
  rows : list Row;
  index_name : option string;
  crs : option CRS
}.

#[global] Instance Row_eq_dec : EqDecision Row.
Proof. solve_decision. Defined.
#[global] Instance GeoDataFrame_eq_dec : EqDecision GeoDataFrame.
Proof. solve_decision. Defined.

Definition geometry_name : string := "geometry".

(** [df.empty]: an axis of length 0. *)
Definition empty (df : GeoDataFrame) : bool :=
  match rows df, columns df with
  | [], _ | _, [] => true
  | _, _ => false
  end.

(** [columns.index(c)] *)
Fixpoint index_of (c : string) (cols : list string) : option nat :=
  match cols with
  | [] => None
  | c' :: cols' => if decide (c' = c) then Some 0%nat else S <$> index_of c cols'
  end.

(** A cell by position; a row shorter than the header reads as missing. *)
Definition cell (i : nat) (r : Row) : value := default VNone (cells r !! i).

(** [df[c]]: the values of a column, [KeyError] when no column is named [c]. *)
Definition getitem (df : GeoDataFrame) (c : string) : result (list value) :=
  match index_of c (columns df) with
  | Some i => Ok (cell i <$> rows df)
  | None => Raise (KeyError c)
  end.

(** [df.geometry] *)
Definition geometry (df : GeoDataFrame) : result (list value) :=
  match index_of geometry_name (columns df) with
  | Some i => Ok (cell i <$> rows df)
  | None => Raise (AttributeError "no active geometry column")
  end.

(** [df[c] = vals] of pandas, [vals] an array.  A frame without rows takes
    its index from the array ([RangeIndex]); otherwise the lengths must
    agree.  An existing column is overwritten, a new one is appended. *)
Definition range_rows (n ncols : nat) : list Row :=
  (λ i : nat, mkRow (VInt (Z.of_nat i)) (replicate ncols VNone)) <$> seq 0 n.

Definition set_cell (ncols i : nat) (r : Row) (v : value) : Row :=
  mkRow (label r) (<[i := v]> (resize ncols VNone (cells r))).

Definition add_cell (ncols : nat) (r : Row) (v : value) : Row :=
  mkRow (label r) (resize ncols VNone (cells r) ++ [v]).

Definition setitem (df : GeoDataFrame) (c : string) (vals : list value)
  : result GeoDataFrame :=
  let ncols := length (columns df) in
  let rs := match rows df with
            | [] => range_rows (length vals) ncols
            | rs => rs
            end in
  if decide (length rs = length vals) then
    match index_of c (columns df) with
    | Some i =>
        Ok (mkFrame (columns df) (zip_with (set_cell ncols i) rs vals)
              (index_name df) (crs df))
    | None =>
        Ok (mkFrame (columns df ++ [c]) (zip_with (add_cell ncols) rs vals)
              (index_name df) (crs df))
    end
  else Raise (ValueError "Length of values does not match length of index").

(** [df.index = labels] *)
Definition set_index (df : GeoDataFrame) (labels : list value) (name : option string)
  : result GeoDataFrame :=
  if decide (length (rows df) = length labels) then
    Ok (mkFrame (columns df)
          (zip_with (λ r l, mkRow l (cells r)) (rows df) labels)
          name (crs df))
  else Raise (ValueError "Length mismatch").

Definition index (df : GeoDataFrame) : list value := label <$> rows df.

(** ** ExtendedGeoDataFrame *)

Record ExtendedGeoDataFrame : Type := mkExtended {
  frame : GeoDataFrame;
  required_columns : list string;
  geotype : list GeoClass
}.

#[global] Instance ExtendedGeoDataFrame_eq_dec : EqDecision ExtendedGeoDataFrame.
Proof. solve_decision. Defined.

Definition with_frame (self : ExtendedGeoDataFrame) (df : GeoDataFrame)
  : ExtendedGeoDataFrame :=
  mkExtended df (required_columns self) (geotype self).

(** [__init__]: the required columns are added to the column list. *)
Definition init (geotype : list GeoClass) (required_columns : list string)
    (cols : list string) : ExtendedGeoDataFrame :=
  mkExtended (mkFrame (cols ++ required_columns) [] None None)
             required_columns geotype.

(** A method of the class: it runs on [self], leaves an instance behind and
    returns or raises.  What it prints is kept with the instance. *)
Record world : Type := mkWorld {
  this : ExtendedGeoDataFrame;
  printed : list message
}.

Definition method (A : Type) : Type := world → world * result A.

Definition ret {A} (a : A) : method A := λ w, (w, Ok a).
Definition raise {A} (e : exn) : method A := λ w, (w, Raise e).
Definition lift {A} (r : result A) : method A := λ w, (w, r).
Definition get_self : method ExtendedGeoDataFrame := λ w, (w, Ok (this w)).
Definition put_frame (df : GeoDataFrame) : method unit :=
  λ w, (mkWorld (with_frame (this w) df) (printed w), Ok ()).
Definition print (ms : list message) : method unit :=
  λ w, (mkWorld (this w) (printed w ++ ms), Ok ()).
Definition then_ {A B} (m : method A) (k : A → method B) : method B :=
  λ w, match m w with
       | (w', Ok a) => k a w'
       | (w', Raise e) => (w', Raise e)
       end.

Notation "'do' x <- m ; k" := (then_ m (λ x, k))
  (at level 10, x name, m at level 100, k at level 200).
Notation "'do_' m ; k" := (then_ m (λ _, k))
  (at level 10, m at level 100, k at level 200).

Definition when (b : bool) (m : method unit) : method unit :=
  if b then m else ret ().

(** [for x in l: body] inside a method. *)
Fixpoint for_ {A} (l : list A) (body : A → method unit) : method unit :=
  match l with
  | [] => ret ()
  | x :: l' => do_ body x; for_ l' body
  end.

(** Running a method on an instance. *)
Definition run {A} (m : method A) (self : ExtendedGeoDataFrame)
  : ExtendedGeoDataFrame * result A :=
  let '(w, r) := m (mkWorld self []) in (this w, r).
Definition after {A} (m : method A) (self : ExtendedGeoDataFrame)
  : ExtendedGeoDataFrame := fst (run m self).
Definition outcome {A} (m : method A) (self : ExtendedGeoDataFrame)
  : result A := snd (run m self).
Definition output {A} (m : method A) (self : ExtendedGeoDataFrame)
  : list message := printed (fst (m (mkWorld self []))).

(** [delete_all] *)
Definition delete_all : method unit :=
  do self <- get_self;
  when (negb (empty (frame self)))
    (* first column set to NaN, then dropna: no row is left *)
    (let df := frame self in
     put_frame (mkFrame (columns df) [] (index_name df) (crs df))).

(** [_check_columns] *)
Definition _check_columns (gdf : GeoDataFrame) : method unit :=
  do self <- get_self;
  let present_columns := columns gdf in
  for_ (required_columns self) (λ column,
    if bool_decide (column ∉ present_columns) then
      if bool_decide (column ∉ present_columns) then raise (KeyError column)
      else ret ()
    else ret ()).

(** [_check_geotype] *)
Definition _check_geotype : method unit :=
  do self <- get_self;
  do geos <- lift (geometry (frame self));
  if negb (forallb (λ geo, isinstance geo (geotype self)) geos)
  then raise (TypeError "Geometrytype required")
  else ret ().

(** [self[col] = values.values]; the array of the geometry column carries the
    coordinate reference system of the frame it comes from. *)
Definition assign (col : string) (vals : list value) (crs_vals : option CRS)
  : method unit :=
  do self <- get_self;
  do df <- lift (setitem (frame self) col vals);
  put_frame
    (if decide (col = geometry_name)
     then mkFrame (columns df) (rows df) (index_name df)
            (match crs_vals with Some c => Some c | None => crs df end)
     else df).

(** [gdf.items()]: the columns by position. *)
Definition items (gdf : GeoDataFrame) : list (string * list value) :=
  imap (λ i col, (col, cell i <$> rows gdf)) (columns gdf).

(** [set_data] *)
Definition set_data (gdf : GeoDataFrame) (index_col : option string)
    (check_columns check_geotype : bool) : method unit :=
  do self <- get_self;
  do_ when (negb (empty (frame self))) delete_all;
  (* Check columns *)
  do_ when check_columns (_check_columns gdf);
  (* Copy content *)
  do_ for_ (items gdf) (λ '(col, values), assign col values (crs gdf));
  do_ match index_col with
      | None =>
          do self <- get_self;
          do df <- lift (set_index (frame self) (index gdf) (index_name gdf));
          put_frame df
      | Some index_col =>
          do labels <- lift (getitem gdf index_col);
          do self <- get_self;
          do df <- lift (set_index (frame self) labels (Some index_col));
          put_frame df
      end;
  (* Check geometry types *)
  when check_geotype _check_geotype.

(** ** Operations of geopandas that compute with coordinates *)

Section Geospatial.

(** [a.intersects(b)] of shapely, and the reprojection of a geometry from one
    coordinate reference system to another. *)
Context {library : Library}.
Variable intersects : Geometry → Geometry → bool.
Variable transform : CRS → CRS → Geometry → Geometry.

(** [df.intersects(geometry)], row by row; a missing geometry intersects
    nothing. *)
Definition intersects_value (v other : value) : bool :=
  match v, other with
  | VGeom a, VGeom b => intersects a b
  | _, _ => false
  end.

Definition frame_intersects (df : GeoDataFrame) (other : value)
  : result (list bool) :=
  let* geos := geometry df in
  Ok ((λ g, intersects_value g other) <$> geos).

(** [df.loc[mask]] with a boolean mask. *)
Definition loc_mask (df : GeoDataFrame) (mask : list bool) : GeoDataFrame :=
  mkFrame (columns df) (fst <$> filter (λ rb, snd rb = true) (zip (rows df) mask))
    (index_name df) (crs df).

(** [clip] *)
Definition clip (geometry : value) : method unit :=
  if negb (isinstance geometry [CPolygon; CMultiPolygon]) then
    raise (TypeError "Expected geometry of type Polygon or MultiPolygon")
  else
    (* Clip if needed *)
    do self <- get_self;
    do mask <- lift (frame_intersects (frame self) geometry);
    let gdf := loc_mask (frame self) mask in
    if empty gdf then
      raise (ValueError "Found no features within extent geometry.")
    else set_data gdf None true true.

(** [df.to_crs(crs_out, inplace=True)] of geopandas: the geometries must
    have a coordinate reference system, a target must be given and pyproj
    must know it; nothing is transformed when it is the system of the
    geometries. *)
Definition transform_value (src dst : CRS) (v : value) : value :=
  match v with
  | VGeom g => VGeom (transform src dst g)
  | _ => v
  end.

(** The frame with its geometries, in column [i], taken from [src] to
    [dst]. *)
Definition reprojected (src dst : CRS) (i : nat) (df : GeoDataFrame)
  : GeoDataFrame :=
  mkFrame (columns df)
    ((λ r, mkRow (label r) (alter (transform_value src dst) i (cells r)))
     <$> rows df)
    (index_name df) (Some dst).

Definition to_crs (crs_out : option CRS) : method unit :=
  do self <- get_self;
  let df := frame self in
  match index_of geometry_name (columns df) with
  | None => raise (AttributeError "no active geometry column")
  | Some i =>
      match crs df, crs_out with
      | None, _ => raise (ValueError "Cannot transform naive geometries.")
      | Some _, None => raise (ValueError "Must pass either crs or epsg.")
      | Some src, Some dst =>
          if negb (is_crs dst) then raise (CRSError "Invalid projection")
          else if decide (dst = src) then ret ()
          else put_frame (reprojected src dst i df)
      end
  end.

(** [check_projection] *)
Definition check_projection (crs_out : option CRS) : method unit :=
  do self <- get_self;
  if bool_decide (crs_out ≠ crs (frame self)) then to_crs crs_out
  else ret () (* logged: same projection *).

End Geospatial.

(** ** Column helpers *)

(** The truth value of a [str]. *)
Definition truthy (s : string) : bool := negb (bool_decide (s = "")).

(** The type of the elements of a column, as pandas keeps it: a column
    with a geometry is a geometry column, a column with a string holds
    Python objects, a column of numbers with a missing value holds floats
    (the missing values are NaN; the numbers of the development are the
    floats without a fraction), and a column of numbers only holds 64-bit
    integers. *)
Inductive dtype : Type := Int64 | Float64 | Object | GeometryDtype.

Definition dtype_of (col : list value) : dtype :=
  if existsb is_geom col then GeometryDtype
  else if existsb is_str col then Object
  else if existsb isnull col then Float64
  else Int64.

(** The sum of two 64-bit integers, as numpy computes it: it wraps around. *)
Definition wrap64 (z : Z) : Z := (z + 2 ^ 63) mod 2 ^ 64 - 2 ^ 63.

(** The float nearest to an integer, by the rule of IEEE 754: 53 bits are
    kept, a tie goes to the even neighbour. *)
Definition round53 (z : Z) : Z :=
  let a := Z.abs z in
  if (a <? 2 ^ 53)%Z then z
  else
    let e := Z.log2 a - 52 in
    let q := Z.shiftr a e in
    let r := a - Z.shiftl q e in
    let half := 2 ^ (e - 1) in
    let q' := if (half <? r)%Z || ((r =? half)%Z && Z.odd q) then q + 1 else q in
    Z.sgn z * Z.shiftl q' e.

Definition add_int64 (a b : value) : value :=
  match a, b with
  | VInt x, VInt y => VInt (wrap64 (x + y))
  | _, _ => VNone
  end.

Definition add_float64 (a b : value) : value :=
  match a, b with
  | VInt x, VInt y => VInt (round53 (round53 x + round53 y))
  | _, _ => VNone
  end.

(** [a + b] between two Python objects that are not missing; pandas leaves
    a missing value missing in a column of objects. *)
Definition add_object (a b : value) : result value :=
  match a, b with
  | VNone, _ | _, VNone => Ok VNone
  | VInt x, VInt y => Ok (VInt (x + y))
  | VStr x, VStr y => Ok (VStr (x ++ y))
  | _, _ => Raise (TypeError "unsupported operand type(s) for +")
  end.

Definition exact (o : option Z) : Prop :=
  match o with
  | Some z => - 2 ^ 52 < z < 2 ^ 52
  | None => True
  end.



(** [a + b] on two columns of a frame. *)
Definition series_add (xs ys : list value) : result (list value) :=
  match dtype_of xs, dtype_of ys with
  | GeometryDtype, _ | _, GeometryDtype =>
      Raise (TypeError "unsupported operand type(s) for +")
  | Object, _ | _, Object =>
      mapM_result (λ '(a, b), add_object a b) (zip xs ys)
  | Int64, Int64 => Ok (zip_with add_int64 xs ys)
  | _, _ => Ok (zip_with add_float64 xs ys)
  end.

(** [try: body except: raise e] *)
Definition try_except {A} (body : result A) (e : exn) : result A :=
  match body with
  | Ok a => Ok a
  | Raise _ => Raise e
  end.

(** [merge_columns] *)
Definition merge_columns (col1 col2 rename_col : string) : method unit :=
  do self <- get_self;
  let df := frame self in
  if truthy col1 || bool_decide (col2 ∈ columns df) then
    do df' <- lift (try_except
                      (let* a := getitem df col1 in
                       let* b := getitem df col2 in
                       let* s := series_add a b in
                       setitem df rename_col s)
                      (ValueError "Merge of two profile columns did not succeed."));
    put_frame df'
  else ret ().

(** [a == b] between cells, as pandas compares element by element: a missing
    value equals nothing. *)
Definition value_match (a b : value) : bool :=
  negb (isnull a) && negb (isnull b) && bool_decide (a = b).

(** The positions of the header that a predicate on names keeps, applied to
    the header and to every row. *)
Definition keep_columns (keep : string → bool) (df : GeoDataFrame) : GeoDataFrame :=
  let mask := keep <$> columns df in
  let pick {A} (l : list A) : list A :=
    fst <$> filter (λ xb, snd xb = true) (zip l mask) in
  mkFrame (pick (columns df))
    ((λ r, mkRow (label r) (pick (resize (length (columns df)) VNone (cells r))))
     <$> rows df)
    (index_name df) (crs df).

(** [gdf[(gdf[list(filter_rows)] == pd.Series(filter_rows)).all(axis=1)]] *)
Fixpoint filter_positions (cols : list string) (filter_rows : list (string * value))
  : result (list (nat * value)) :=
  match filter_rows with
  | [] => Ok []
  | (k, v) :: rest =>
      match index_of k cols with
      | None => Raise (KeyError k)
      | Some i => let* ps := filter_positions cols rest in Ok ((i, v) :: ps)
      end
  end.

Definition filter_by (filter_rows : list (string * value)) (df : GeoDataFrame)
  : result GeoDataFrame :=
  let* ps := filter_positions (columns df) filter_rows in
  Ok (mkFrame (columns df)
        (filter (λ r, forallb (λ '(i, v), value_match (cell i r) v) ps = true)
           (rows df))
        (index_name df) (crs df)).

(** [gdf.drop(gdf.index[gdf.geometry.isnull()], inplace=True)]: rows are
    dropped by label. *)
Definition drop_null_geometry (df : GeoDataFrame) : result GeoDataFrame :=
  match index_of geometry_name (columns df) with
  | None => Raise (AttributeError "no active geometry column")
  | Some i =>
      let missing := label <$> filter (λ r, isnull (cell i r) = true) (rows df) in
      Ok (mkFrame (columns df)
            (filter (λ r, label r ∉ missing) (rows df))
            (index_name df) (crs df))
  end.

(** [gdf.rename(columns=column_mapping, inplace=True)] *)
Definition rename (column_mapping : gmap string string) (df : GeoDataFrame)
  : GeoDataFrame :=
  mkFrame ((λ c, default c (column_mapping !! c)) <$> columns df)
    (rows df) (index_name df) (crs df).

(** [gdf.explode()]: a multi-part geometry gives one row per part, with the
    label and the other cells of its row. *)
Definition parts (g : Geometry) : list Geometry :=
  match g with
  | MultiPoint ps => Point <$> ps
  | MultiLineString ls => LineString <$> ls
  | MultiPolygon ps => Polygon <$> ps
  | _ => [g]
  end.

Definition explode_row (i : nat) (r : Row) : list Row :=
  match cell i r with
  | VGeom g => (λ p, mkRow (label r) (<[i := VGeom p]> (cells r))) <$> parts g
  | _ => [r]
  end.

Definition explode (df : GeoDataFrame) : result GeoDataFrame :=
  match index_of geometry_name (columns df) with
  | None => Raise (AttributeError "no active geometry column")
  | Some i =>
      Ok (mkFrame (columns df) (concat (explode_row i <$> rows df))
            (index_name df) (crs df))
  end.

(** [Series.unique()]: the values in order of first appearance. *)
Definition unique (l : list value) : list value :=
  reverse (remove_dups (reverse l)).

(** [str(v)] inside an f-string *)
Definition str (v : value) : string :=
  match v with
  | VNone => "None"
  | VInt z => pretty z
  | VStr s => s
  | VGeom g => geom_type g
  end.

(** [gdf.loc[gdf[id_col] == ftc, id_col] =
       [f"{i}_{n}" for n, i in enumerate(gdf[gdf[id_col] == ftc][id_col])]] *)
Fixpoint number_parts (k : nat) (ftc : value) (n : nat) (rs : list Row) : list Row :=
  match rs with
  | [] => []
  | r :: rs' =>
      if value_match (cell k r) ftc then
        mkRow (label r) (<[k := VStr (str (cell k r) ++ "_" ++ pretty n)]> (cells r))
        :: number_parts k ftc (S n) rs'
      else r :: number_parts k ftc n rs'
  end.

(** The loop over [gdf[id_col].unique()] after [explode]: the identifiers
    that occur more than once are numbered. *)
Fixpoint split_ids (id_col : string) (ftcs : list value) (gdf : GeoDataFrame)
  : method GeoDataFrame :=
  match ftcs with
  | [] => ret gdf
  | ftc :: ftcs' =>
      do ids <- lift (getitem gdf id_col);
      if bool_decide (1 < length (filter (λ i, value_match i ftc = true) ids))%nat then
        let k := default 0%nat (index_of id_col (columns gdf)) in
        let gdf' := mkFrame (columns gdf) (number_parts k ftc 0 (rows gdf))
                      (index_name gdf) (crs gdf) in
        do_ print [SplitIntoParts ftc];
        split_ids id_col ftcs' gdf'
      else split_ids id_col ftcs' gdf
  end.

Definition explode_and_split (id_col : string) (gdf : GeoDataFrame)
  : method GeoDataFrame :=
  do gdf <- lift (explode gdf);
  do ids <- lift (getitem gdf id_col);
  split_ids id_col (unique ids) gdf.

(** ** Reading a shapefile *)

Section Readers.

Context {library : Library}.
Variable intersects : Geometry → Geometry → bool.
Variable transform : CRS → CRS → Geometry → Geometry.

(** ["MultiLineString" in str(gdf.geometry.type)] *)
Definition multilinestring_in_types (gdf : GeoDataFrame) : bool :=
  match geometry gdf with
  | Ok geos =>
      existsb (λ v, match v with
                    | VGeom g => bool_decide (geom_type g = "MultiLineString")
                    | _ => false
                    end) geos
  | Raise _ => false
  end.

(** [read_shp].  [read_file] is what [gpd.read_file(path)] gives. *)
Definition read_shp (read_file : result GeoDataFrame)
    (index_col : option string) (column_mapping : option (gmap string string))
    (check_columns : bool) (proj_crs : option CRS) (clip_ : option value)
    (check_geotype : bool) (id_col : string) (filter_cols : bool)
    (filter_rows : option (list (string * value))) : method unit :=
  do self <- get_self;
  (* Read GeoDataFrame *)
  do gdf <- lift read_file;
  (* Only keep required columns *)
  let gdf :=
    if filter_cols
    then keep_columns (λ c, bool_decide (c ∈ required_columns self)) gdf
    else gdf in
  (* filter out rows on key/value pairs if required *)
  do gdf <- lift (match filter_rows with
                  | Some kv => filter_by kv gdf
                  | None => Ok gdf
                  end);
  (* Drop features without geometry *)
  do gdf <- lift (drop_null_geometry gdf);
  (* Rename columns *)
  let gdf := match column_mapping with
             | Some m => rename m gdf
             | None => gdf
             end in
  (* the left operand of [or] is a non-empty literal *)
  do gdf <- (if truthy "MultiPolygon" || multilinestring_in_types gdf
             then explode_and_split id_col gdf
             else ret gdf);
  (* Check number of entries *)
  if empty gdf then raise (IOError "Imported shapefile contains no rows.")
  else
    (* Add data to class GeoDataFrame *)
    do_ set_data gdf index_col check_columns check_geotype;
    (* Clip if extent is provided *)
    do_ match clip_ with
        | Some g => clip intersects g
        | None => ret ()
        end;
    match proj_crs with
    | Some c => check_projection transform (Some c)
    | None => ret ()
    end.

End Readers.

(** ** Grouping points to lines *)

#[global] Instance Geometry_countable : Countable Geometry.
Proof.
  refine (inj_countable'
    (λ g, match g with
          | Point c => inl c
          | LineString cs => inr (inl cs)
          | Polygon p => inr (inr (inl p))
          | MultiPoint ps => inr (inr (inr (inl ps)))
          | MultiLineString ls => inr (inr (inr (inr (inl ls))))
          | MultiPolygon ps => inr (inr (inr (inr (inr ps))))
          end)
    (λ x, match x with
          | inl c => Point c
          | inr (inl cs) => LineString cs
          | inr (inr (inl p)) => Polygon p
          | inr (inr (inr (inl ps))) => MultiPoint ps
          | inr (inr (inr (inr (inl ls)))) => MultiLineString ls
          | inr (inr (inr (inr (inr ps)))) => MultiPolygon ps
          end) _).
  by intros [].
Defined.

#[global] Instance value_countable : Countable value.
Proof.
  refine (inj_countable'
    (λ v, match v with
          | VNone => inl ()
          | VInt z => inr (inl z)
          | VStr s => inr (inr (inl s))
          | VGeom g => inr (inr (inr g))
          end)
    (λ x, match x with
          | inl _ => VNone
          | inr (inl z) => VInt z
          | inr (inr (inl s)) => VStr s
          | inr (inr (inr g)) => VGeom g
          end) _).
  by intros [].
Defined.

(** Sorting Python values: numbers among themselves, strings among
    themselves; comparing anything else raises. *)
Definition int_of (v : value) : option Z :=
  match v with VInt z => Some z | _ => None end.
Definition str_of (v : value) : option string :=
  match v with VStr s => Some s | _ => None end.

Definition str_le (a b : string) : Prop := String.leb a b = true.
#[global] Instance str_le_dec a b : Decision (str_le a b).
Proof. unfold str_le. apply _. Defined.

Definition is_number (v : value) : bool := is_int v || isnull v.

(** [l.sort()] of Python: a list of numbers with NaN among them is sorted
    as the interpreter does it. *)
Definition sorted `{!Library} (l : list value) : result (list value) :=
  match l with
  | [] | [_] => Ok l
  | _ =>
      match mapM int_of l, mapM str_of l with
      | Some zs, _ => Ok (VInt <$> merge_sort Z.le zs)
      | None, Some ss => Ok (VStr <$> merge_sort str_le ss)
      | None, None =>
          if forallb is_number l then Ok (list_sort l)
          else Raise (TypeError "'<' not supported between instances")
      end
  end.

(** [np.sort] inside [np.unique]: in an array of numbers the NaN come
    last. *)
Definition np_sort (l : list value) : result (list value) :=
  match l with
  | [] | [_] => Ok l
  | _ =>
      match mapM int_of l, mapM str_of l with
      | Some zs, _ => Ok (VInt <$> merge_sort Z.le zs)
      | None, Some ss => Ok (VStr <$> merge_sort str_le ss)
      | None, None =>
          if forallb is_number l && existsb is_int l
          then Ok ((VInt <$> merge_sort Z.le (omap int_of l))
                   ++ filter (λ v, isnull v = true) l)%list
          else Raise (TypeError "'<' not supported between instances")
      end
  end.

(** [np.unique(values, return_counts=True)] *)
Definition np_unique (values : list value) : result (list (value * nat)) :=
  let* s := np_sort values in
  Ok ((λ b, (b, length (filter (λ v, v = b) values))) <$> remove_dups s).

(** A slot of [lines]: the list of points of a branch, then its line. *)
Inductive entry : Type :=
| Slots (pts : list value)
| Line (g : Geometry).

#[global] Instance entry_eq_dec : EqDecision entry.
Proof. solve_decision. Defined.

(** [min(volgnr, s)]: [s] when [s < volgnr], else [volgnr].  A missing
    order number is NaN, as in a column of numbers: every comparison with
    it is false.  A string is not compared with a number. *)
Definition py_min (volgnr s : value) : result value :=
  match volgnr, s with
  | VInt z, VInt s' => Ok (VInt (if (s' <? z)%Z then s' else z))
  | VInt z, VNone => Ok (VInt z)
  | VNone, (VInt _ | VNone) => Ok VNone
  | _, _ => Raise (TypeError "'<' not supported between instances")
  end.

(** [a == b] between numbers: NaN is equal to nothing. *)
Definition py_eq (a b : value) : bool := negb (isnull a) && bool_decide (a = b).

(** Since the order does not always start at 1, find the starting number per
    group. *)
Definition startnr_step (nan_keys : bool) (startnr : gmap value value)
    (row : value * value) : result (gmap value value) :=
  let '(branch, volgnr) := row in
  (* startnr[branch] = min(volgnr, startnr[branch]); among the keys of a
     dict of numbers a NaN is not found again *)
  if nan_keys && isnull branch then Raise (KeyError "nan")
  else
    match startnr !! branch with
    | None => Raise (KeyError (str branch))
    | Some s =>
        let* m := py_min volgnr s in
        Ok (<[branch := m]> startnr)
    end.

Definition find_startnr (nrows : nat) (branches : list value)
    (pairs : list (value * value)) : result (gmap value value) :=
  let startnr : gmap value value :=
    list_to_map ((λ branch, (branch, VInt (Z.of_nat nrows + 1))) <$> branches) in
  for_each (startnr_step (existsb is_int branches)) pairs startnr.

(** Determine relative order of points in profile (required if the point
    numbering is not subsequent). *)
Definition positions_of (volgnr : value) (lst_volgnr : list value) : list nat :=
  concat (imap (λ i x, if py_eq volgnr x then [i] else []) lst_volgnr).

Definition relative_order_step `{!Library} (pairs : list (value * value))
    (order_rel : list nat) (row : value * value) : result (list nat) :=
  let '(branch, volgnr) := row in
  (* the branches are keys of [startnr] here: None among them is found
     again, and NaN has raised [KeyError] above *)
  let lst_volgnr := snd <$> filter (λ x, fst x = branch) pairs in
  let* lst_volgnr := sorted lst_volgnr in
  Ok (order_rel ++ positions_of volgnr lst_volgnr)%list.

Definition relative_order `{!Library} (pairs : list (value * value))
  : result (list nat) :=
  for_each (relative_order_step pairs) pairs [].

(** Assign points: [lines[branch][volgnr_rel] = point] *)
Definition assign_point (lines : gmap value entry)
    (row : value * value * value * nat) : result (gmap value entry) :=
  let '(point, volgnr, branch, volgnr_rel) := row in
  match lines !! branch with
  | None => Raise (KeyError (str branch))
  | Some (Line _) =>
      Raise (TypeError "object does not support item assignment")
  | Some (Slots pts) =>
      if bool_decide (volgnr_rel < length pts)%nat
      then Ok (<[branch := Slots (<[volgnr_rel := point]> pts)]> lines)
      else Raise (IndexError "list assignment index out of range")
  end.

Definition assign_points (lines : gmap value entry)
    (rows4 : list (value * value * value * nat)) : result (gmap value entry) :=
  for_each assign_point rows4 lines.

(** [LineString(pts)] of shapely, from a list of points: every element must
    be a point, and one point alone does not make a line. *)
Definition point_coord (v : value) : option coord :=
  match v with VGeom (Point c) => Some c | _ => None end.

Definition make_LineString (pts : list value) : result Geometry :=
  match mapM point_coord pts with
  | None => Raise (ShapelyError "not a sequence of points")
  | Some cs =>
      if bool_decide (length cs = 1%nat)
      then Raise (ShapelyError "LineStrings must have at least 2 coordinate tuples")
      else Ok (LineString cs)
  end.

(** Group geometries to lines *)
Fixpoint group_lines (branches : list value) (lines : gmap value entry)
  : method (gmap value entry) :=
  match branches with
  | [] => ret lines
  | branch :: branches' =>
      do pts <- lift (match lines !! branch with
                      | Some (Slots pts) => Ok pts
                      | Some (Line _) => Raise (TypeError "object is not iterable")
                      | None => Raise (KeyError (str branch))
                      end);
      do pts <- (if existsb is_int pts then
                   do_ print [NotProperlyAssigned branch];
                   ret (filter (λ pt, is_int pt = false) pts)
                 else ret pts);
      do line <- lift (make_LineString pts);
      group_lines branches' (<[branch := Line line]> lines)
  end.

(** [groupbyvalues.index(branch)]: [groupbyvalues] is a column of the layer,
    a pandas [Series]; its attribute [index] is the row index of the layer,
    which is not a function. *)
Definition call_index (groupbyvalues : list value) (branch : value) : result nat :=
  Raise (TypeError "'RangeIndex' object is not callable").

(** Set order for branches with single point to 0, so features are not
    loaded. *)
Definition zero_single_points (groupbyvalues : list value)
    (singles : list value) (order : list value) : result (list value) :=
  for_each (λ order branch,
      let* i := call_index groupbyvalues branch in
      Ok (<[i := VInt 0]> order)) singles order.

(** [layer.iloc[idx, :]] *)
Definition iloc (df : GeoDataFrame) (idx : list nat) : GeoDataFrame :=
  mkFrame (columns df) (omap (λ i, rows df !! i) idx) (index_name df) (crs df).

(** [gpd.GeoDataFrame(fields, columns=columns, geometry=geometries)] *)
Definition with_geometry (fields : GeoDataFrame) (geometries : list value)
  : result GeoDataFrame :=
  setitem fields geometry_name geometries.

(** The branch of [read_gpkg_layer] that groups the points of [layer], in
    three steps: up to the assignment of the points to their slots, the
    loop that builds the lines, and the selection of the features. *)
Record grouping : Type := mkGrouping {
  groupbyvalues : list value;
  order : list value;
  branches_counts : list (value * nat);
  startnr : gmap value value;
  lines : gmap value entry
}.

(** Filter branches with too few points: [counts < 2] *)
Definition singlepoint (bc : value * nat) : bool := bool_decide (bc.2 < 2)%nat.

Definition assign_groups `{!Library} (layer : GeoDataFrame)
    (groupby_column : string) (order_column : option string) : result grouping :=
  let columns := columns layer in
  (* Check if the group by column is found *)
  if bool_decide (groupby_column ∉ columns) then
    Raise (ValueError "Groupby column not found in feature list.")
  else
    (* Check if the geometry is as expected *)
    let* geos := geometry layer in
    let* first := match geos with
                  | [] => Raise (IndexError "single positional indexer is out-of-bounds")
                  | g :: _ => Ok g
                  end in
    if negb (isinstance first [CPoint]) then
      Raise (ValueError "Can only group Points to LineString")
    else
      (* Get the values from the column that is grouped *)
      let* groupbyvalues := getitem layer groupby_column in
      let* order := match order_column with
                    | Some c => getitem layer c
                    | None => Raise (KeyError "None")
                    end in
      (* Create empty dict for lines *)
      let* branches_counts := np_unique groupbyvalues in
      let branches := fst <$> branches_counts in
      let lines : gmap value entry :=
        list_to_map ((λ '(branch, count), (branch, Slots (replicate count (VInt 0))))
                     <$> branches_counts) in
      let* startnr := find_startnr (length (rows layer)) branches
                        (zip groupbyvalues order) in
      let* order_rel := relative_order (zip groupbyvalues order) in
      (* Assign points *)
      let* lines := assign_points lines
                      (zip (zip (zip geos order) groupbyvalues) order_rel) in
      Ok (mkGrouping groupbyvalues order branches_counts startnr lines).

Definition multipoint_branches (g : grouping) : list value :=
  fst <$> filter (λ bc, singlepoint bc = false) (branches_counts g).

Definition singlepoint_branches (g : grouping) : list value :=
  fst <$> filter (λ bc, singlepoint bc = true) (branches_counts g).

Definition select_features (layer : GeoDataFrame) (groupby_column : string)
    (g : grouping) (lines : gmap value entry) : result GeoDataFrame :=
  let columnid := default 0%nat (index_of groupby_column (columns layer)) in
  let* order := zero_single_points (groupbyvalues g) (singlepoint_branches g)
                  (order g) in
  (* Read fields at first occurence *)
  let* startnrs := mapM_result (λ branch,
                     match startnr g !! branch with
                     | Some s => Ok s
                     | None => Raise (KeyError (str branch))
                     end) (groupbyvalues g) in
  let idx := fst <$> filter (λ '(nr, (i, volgnr)), py_eq i volgnr = true)
                       (imap (λ nr x, (nr, x)) (zip order startnrs)) in
  let fields := iloc layer idx in
  (* Get geometries in correct order for features *)
  let* geometries := mapM_result (λ row,
                       match lines !! cell columnid row with
                       | Some (Line g) => Ok (VGeom g)
                       | Some (Slots _) => Raise (TypeError "not a geometry")
                       | None => Raise (KeyError (str (cell columnid row)))
                       end) (rows fields) in
  with_geometry fields geometries.

Definition group_points `{!Library} (layer : GeoDataFrame)
    (groupby_column : string) (order_column : option string)
  : method GeoDataFrame :=
  do g <- lift (assign_groups layer groupby_column order_column);
  (* Group geometries to lines *)
  do lines <- group_lines (multipoint_branches g) (lines g);
  lift (select_features layer groupby_column g lines).

(** ** Reading a layer of a GeoPackage *)

Section LayerReader.

Context {library : Library}.
Variable intersects : Geometry → Geometry → bool.

(** ["MultiPolygon" in list(gdf.geometry.type)] *)
Definition multipolygon_in_types (gdf : GeoDataFrame) : result bool :=
  let* geos := geometry gdf in
  Ok (existsb (λ v, match v with
                    | VGeom g => bool_decide (geom_type g = "MultiPolygon")
                    | _ => false
                    end) geos).

(** [layer.columns = [col.lower() for col in layer.columns]] *)
Definition lowered (layer : GeoDataFrame) : GeoDataFrame :=
  mkFrame (str_lower <$> columns layer) (rows layer) (index_name layer)
    (crs layer).

(** [read_gpkg_layer].  [path_exists] is [Path(gpkg_path).exists()] and
    [read_file] is what [gpd.read_file(gpkg_path, layer=layer_name)] gives. *)
Definition read_gpkg_layer (path_exists : bool) (read_file : result GeoDataFrame)
    (index_col groupby_column order_column : option string) (id_col : string)
    (column_mapping : option (gmap string string))
    (check_columns check_geotype : bool) (clip_ : option value) : method unit :=
  if negb path_exists then raise (OSError "File not found")
  else
    do layer <- lift read_file;
    let layer := lowered layer in
    (* Get group by columns *)
    do gdf <- match groupby_column with
              | Some groupby_column => group_points layer groupby_column order_column
              | None =>
                  do geometries <- lift (geometry layer);
                  lift (with_geometry layer geometries)
              end;
    let gdf := match column_mapping with
               | Some m => rename m gdf
               | None => gdf
               end in
    (* add a letter to 'exploded' multipolygons *)
    do multi <- lift (multipolygon_in_types gdf);
    do gdf <- (if multi then explode_and_split id_col gdf else ret gdf);
    (* Add data to class GeoDataFrame *)
    do_ set_data gdf index_col check_columns check_geotype;
    match clip_ with
    | Some g => clip intersects g
    | None => ret ()
    end.

End LayerReader.



(** ** The steps of [set_data] on the frame of the instance

    The three steps of [set_data] that change the frame, as functions on
    frames: the properties of [set_data] are proved through them. *)

(** The frame after [if not self.empty: self.delete_all()]. *)
Definition cleared (df : GeoDataFrame) : GeoDataFrame :=
  if negb (empty df) then mkFrame (columns df) [] (index_name df) (crs df)
  else df.

(** The frame after [self[col] = values.values]. *)
Definition assign_frame (crs_vals : option CRS) (df : GeoDataFrame)
    (col : string) (vals : list value) : result GeoDataFrame :=
  let* df' := setitem df col vals in
  Ok (if decide (col = geometry_name)
      then mkFrame (columns df') (rows df') (index_name df')
             (match crs_vals with Some c => Some c | None => crs df' end)
      else df').

(** The frame after the loop over [gdf.items()], and how the loop ends. *)
Fixpoint copy_loop (crs_vals : option CRS) (its : list (string * list value))
    (df : GeoDataFrame) : GeoDataFrame * result unit :=
  match its with
  | [] => (df, Ok ())
  | (col, vals) :: its' =>
      match assign_frame crs_vals df col vals with
      | Ok df' => copy_loop crs_vals its' df'
      | Raise e => (df, Raise e)
      end
  end.

(** Frames as geopandas builds them: distinct column names, a cell for every
    column in every row, and no rows without columns. *)
Definition wf_frame (df : GeoDataFrame) : Prop :=
  NoDup (columns df) ∧
  Forall (λ r, length (cells r) = length (columns df)) (rows df) ∧
  (rows df ≠ [] → columns df ≠ []).

(** The state of an instance that holds the features of a file: a frame
    with the required columns (they are added by [__init__], and checked by
    [set_data]) and with the geometry column. *)
Definition wf_self (self : ExtendedGeoDataFrame) : Prop :=
  wf_frame (frame self) ∧
  required_columns self ⊆ columns (frame self) ∧
  geometry_name ∈ columns (frame self).

(** The geometry of a row of a frame. *)
Definition row_geometry (df : GeoDataFrame) (r : Row) : value :=
  match index_of geometry_name (columns df) with
  | Some i => cell i r
  | None => VNone
  end.

(** The points of a list of slots, without the slots that were left at 0;
    whether a slot was left; the coordinates of the points. *)
Definition assigned (pts : list value) : list value :=
  filter (λ pt, is_int pt = false) pts.
Definition unfilled (pts : list value) : bool := existsb is_int pts.
Definition coords (pts : list value) : list coord := omap point_coord pts.

(** A list of slots of which shapely makes a line: what was assigned are
    points, and not one point alone. *)
Definition line_ready (pts : list value) : Prop :=
  Forall (λ pt, is_Some (point_coord pt)) (assigned pts) ∧
  length (assigned pts) ≠ 1%nat.

#[global] Instance line_ready_dec pts : Decision (line_ready pts).
Proof. unfold line_ready. apply _. Defined.

(** The world with another frame for the instance. *)
Definition set_frame (w : world) (df : GeoDataFrame) : world :=
  mkWorld (with_frame (this w) df) (printed w).

(** The first required column that is not present. *)
Fixpoint missing_column (required present : list string) : option string :=
  match required with
  | [] => None
  | column :: required' =>
      if bool_decide (column ∉ present) then Some column
      else missing_column required' present
  end.

(** The frame after the assignment of the index. *)
Definition index_step (gdf : GeoDataFrame) (index_col : option string)
    (df : GeoDataFrame) : result GeoDataFrame :=
  match index_col with
  | None => set_index df (index gdf) (index_name gdf)
  | Some index_col =>
      let* labels := getitem gdf index_col in
      set_index df labels (Some index_col)
  end.

(** How [_check_geotype] ends on a frame. *)
Definition geotype_step (classes : list GeoClass) (df : GeoDataFrame) : result unit :=
  let* geos := geometry df in
  if forallb (λ geo, isinstance geo classes) geos then Ok ()
  else Raise (TypeError "Geometrytype required").

(** [set_data] on the frame of the instance: the frame that is left behind,
    and how the call ends. *)
Definition set_data_steps (self : ExtendedGeoDataFrame) (gdf : GeoDataFrame)
    (index_col : option string) (check_columns check_geotype : bool)
  : GeoDataFrame * result unit :=
  let df1 := cleared (frame self) in
  match (if check_columns
         then missing_column (required_columns self) (columns gdf)
         else None) with
  | Some column => (df1, Raise (KeyError column))
  | None =>
      match copy_loop (crs gdf) (items gdf) df1 with
      | (df2, Raise e) => (df2, Raise e)
      | (df2, Ok _) =>
          match index_step gdf index_col df2 with
          | Raise e => (df2, Raise e)
          | Ok df3 =>
              (df3, if check_geotype then geotype_step (geotype self) df3
                    else Ok ())
          end
      end
  end.

(** ** The library on the data of the examples

    The column names of the examples are strings of ASCII characters, and
    their lists are shorter than 64: CPython sorts such a list by binary
    insertion after the run at its head, with [<] alone.  The codes are two
    of the EPSG registry, 4326 (WGS 84) and 28992 (Amersfoort / RD New),
    the others of the examples are none. *)

(** [str.lower()] on a string of ASCII characters. *)
Definition lower_ascii (a : ascii) : ascii :=
  let n := nat_of_ascii a in
  if (65 <=? n)%nat && (n <=? 90)%nat then ascii_of_nat (n + 32) else a.

Fixpoint lower (s : string) : string :=
  match s with
  | EmptyString => EmptyString
  | String a s' => String (lower_ascii a) (lower s')
  end.

(** [a < b] between numbers: false when one of them is NaN. *)
Definition py_lt (a b : value) : bool :=
  match a, b with
  | VInt x, VInt y => (x <? y)%Z
  | _, _ => false
  end.

(** [count_run]: the run at the head of the list, strictly descending or
    not descending. *)
Fixpoint run_length (descending : bool) (prev : value) (l : list value) : nat :=
  match l with
  | [] => 0%nat
  | x :: l' =>
      if bool_decide (py_lt x prev = descending)
      then S (run_length descending x l')
      else 0%nat
  end.

Definition count_run (l : list value) : nat * bool :=
  match l with
  | [] => (0%nat, false)
  | [_] => (1%nat, false)
  | a :: b :: rest =>
      let descending := py_lt b a in
      (S (S (run_length descending b rest)), descending)
  end.

(** [binarysort]: the place of [pivot] in the sorted part, between [l] and
    [r], and its insertion there. *)
Fixpoint bisect (fuel : nat) (part : list value) (pivot : value) (l r : nat)
  : nat :=
  match fuel with
  | O => l
  | S fuel' =>
      if (l <? r)%nat then
        let p := (l + (r - l) / 2)%nat in
        if py_lt pivot (default VNone (part !! p))
        then bisect fuel' part pivot l p
        else bisect fuel' part pivot (S p) r
      else l
  end.

Definition binary_insert (part : list value) (pivot : value) : list value :=
  let i := bisect (length part) part pivot 0 (length part) in
  (take i part ++ pivot :: drop i part)%list.

Definition insertion_sort (l : list value) : list value :=
  let '(n, descending) := count_run l in
  let run := take n l in
  foldl binary_insert (if descending then reverse run else run) (drop n l).

Definition example_library : Library :=
  {| str_lower := lower;
     list_sort := insertion_sort;
     is_crs := λ c, bool_decide (c ∈ [4326; 28992]) |}.

(** ** Example data *)

Definition pt (x y : Z) : value := VGeom (Point (x, y)).

(** Two point features with their codes, as read from a file. *)
Definition culverts : GeoDataFrame :=
  mkFrame ["code"; "geometry"]
    [ mkRow (VInt 0) [VStr "A"; pt 0 0];
      mkRow (VInt 1) [VStr "B"; pt 1 1] ]
    None (Some 28992).

(** Empty instances, for points and for lines. *)
Definition point_store : ExtendedGeoDataFrame := init [CPoint] ["code"] [].
Definition line_store : ExtendedGeoDataFrame := init [CLineString] ["code"] [].

(** Two numeric columns and a text column. *)
Definition profiles : ExtendedGeoDataFrame :=
  mkExtended
    (mkFrame ["code"; "width"; "depth"; "geometry"]
       [ mkRow (VInt 0) [VStr "P1"; VInt 4; VInt 2; pt 0 0];
         mkRow (VInt 1) [VStr "P2"; VInt 6; VNone; pt 1 1] ]
       None (Some 28992))
    ["code"] [CPoint].

(** The instance with the two culverts, and an instance with the same
    features without a coordinate reference system. *)
Definition culvert_store : ExtendedGeoDataFrame :=
  mkExtended culverts ["code"] [CPoint].

Definition naive_store : ExtendedGeoDataFrame :=
  mkExtended (mkFrame (columns culverts) (rows culverts) None None)
    ["code"] [CPoint].

(** A point intersects a polygon when it is in the box spanned by the first
    and the third vertex of its shell: enough for rectangles. *)
Definition box_intersects (a b : Geometry) : bool :=
  match a, b with
  | Point (x, y), Polygon ((x0, y0) :: _ :: (x1, y1) :: _, _) =>
      (x0 <=? x)%Z && (x <=? x1)%Z && (y0 <=? y)%Z && (y <=? y1)%Z
  | _, _ => false
  end.

Definition unit_square : value :=
  VGeom (Polygon ([(0, 0); (1, 0); (1, 1); (0, 1); (0, 0)], [])).
Definition west_square : value :=
  VGeom (Polygon ([(-5, 0); (-4, 0); (-4, 1); (-5, 1); (-5, 0)], [])).
Definition origin_square : value :=
  VGeom (Polygon ([(-1, -1); (0, -1); (0, 0); (-1, 0); (-1, -1)], [])).

(** A reprojection that shifts the coordinates by the difference of the
    codes. *)
Definition shift_transform (src dst : CRS) (g : Geometry) : Geometry :=
  match g with
  | Point (x, y) => Point (x + (dst - src), y + (dst - src))
  | _ => g
  end.

(** Layers of points with their branch and order number. *)
Definition point_layer (l : list (string * Z * value)) : GeoDataFrame :=
  mkFrame ["branch"; "nr"; "geometry"]
    (imap (λ i '(b, n, g), mkRow (VInt (Z.of_nat i)) [VStr b; VInt n; g]) l)
    None (Some 28992).

(** One branch, numbered 1 and 2; then 10 and 20. *)
Definition dense_layer : GeoDataFrame :=
  point_layer [("A", 1, pt 0 0); ("A", 2, pt 1 1)].
Definition sparse_layer : GeoDataFrame :=
  point_layer [("A", 10, pt 0 0); ("A", 20, pt 1 1)].

(** Two branches that are not numbered from 1, nor without gaps, nor in
    the order of the rows. *)
Definition mixed_layer : GeoDataFrame :=
  point_layer [("A", 4, pt 0 0); ("A", 2, pt 1 1); ("B", 6, pt 5 5);
               ("B", 3, pt 6 6); ("A", 3, pt 9 9)].

(** A branch of two points and a branch of one point. *)
Definition single_layer : GeoDataFrame :=
  point_layer [("A", 1, pt 0 0); ("A", 2, pt 1 1); ("B", 1, pt 3 3)].

(** A branch of two points between the two points, numbered alike, of
    another branch. *)
Definition duplicate_layer : GeoDataFrame :=
  point_layer [("A", 1, pt 0 0); ("C", 1, pt 1 1); ("C", 1, pt 3 3);
               ("A", 2, pt 4 4)].

(** Three points with one number twice. *)
Definition gap_layer : GeoDataFrame :=
  point_layer [("A", 1, pt 0 0); ("A", 1, pt 1 1); ("A", 2, pt 2 2)].

(** Three points, the second without a number. *)
Definition nan_layer : GeoDataFrame :=
  mkFrame ["branch"; "nr"; "geometry"]
    [ mkRow (VInt 0) [VStr "A"; VInt 1; pt 0 0];
      mkRow (VInt 1) [VStr "A"; VNone; pt 1 1];
      mkRow (VInt 2) [VStr "A"; VInt 2; pt 2 2] ]
    None (Some 28992).


Definition branch_store : ExtendedGeoDataFrame := init [CLineString] ["branch"] [].

(** [read_gpkg_layer] and [read_shp] with the defaults of their keyword
    arguments, the first with the columns to group by. *)
Definition read_grouped `{!Library} (intersects : Geometry → Geometry → bool)
    (layer : GeoDataFrame) : method unit :=
  read_gpkg_layer intersects true (Ok layer) None (Some "branch") (Some "nr")
    "code" None true true None.

Definition read_shp_default `{!Library}
    (intersects : Geometry → Geometry → bool)
    (transform : CRS → CRS → Geometry → Geometry) (file : GeoDataFrame)
  : method unit :=
  read_shp intersects transform (Ok file) None None true None None true "code"
    false None.

(** Two single-part features with the same code. *)
Definition twin_culverts : GeoDataFrame :=
  mkFrame ["code"; "geometry"]
    [ mkRow (VInt 0) [VStr "A"; pt 0 0];
      mkRow (VInt 1) [VStr "A"; pt 1 1] ]
    None (Some 28992).

(** A file without features that have a geometry; with a column "code" and
    without. *)
Definition no_geometry_file : GeoDataFrame :=
  mkFrame ["code"; "geometry"] [mkRow (VInt 0) [VStr "A"; VNone]] None (Some 28992).
Definition no_geometry_no_code_file : GeoDataFrame :=
  mkFrame ["name"; "geometry"] [mkRow (VInt 0) [VStr "A"; VNone]] None (Some 28992).

(** A method appends to what is printed. *)
Definition grows {A} (m : method A) : Prop :=
  ∀ w, ∃ ms : list message, printed (m w).1 = (printed w ++ ms)%list.

(** A method leaves the instance as it is. *)
Definition keeps_self {A} (m : method A) : Prop :=
  ∀ w, this (m w).1 = this w.

(** ** The points of a layer, branch by branch

    A row of a layer of points, as the grouping reads it: the branch, the
    order number and the coordinate of the point. *)
Definition point_rec : Type := (value * Z * coord)%type.

Definition rbranch (r : point_rec) : value := r.1.1.
Definition rorder (r : point_rec) : Z := r.1.2.
Definition rcoord (r : point_rec) : coord := r.2.
Definition rpoint (r : point_rec) : value := VGeom (Point (rcoord r)).

(** The records of a branch, their numbers, and their numbered points. *)
Definition recs_in (b : value) (recs : list point_rec) : list point_rec :=
  filter (λ r, rbranch r = b) recs.
Definition orders_in (b : value) (recs : list point_rec) : list Z :=
  rorder <$> recs_in b recs.
Definition points_in (b : value) (recs : list point_rec) : list (Z * coord) :=
  (λ r, (rorder r, rcoord r)) <$> recs_in b recs.

(** The vertices of the line of a branch: its points sorted by ascending
    order number. *)
Definition by_order (p q : Z * coord) : Prop := (p.1 ≤ q.1)%Z.
#[global] Instance by_order_dec p q : Decision (by_order p q).
Proof. unfold by_order. apply _. Defined.

Definition branch_line (b : value) (recs : list point_rec) : list coord :=
  snd <$> merge_sort by_order (points_in b recs).

(** The columns that the grouping reads, as lists. *)
Definition pairs_of (recs : list point_rec) : list (value * value) :=
  (λ r, (rbranch r, VInt (rorder r))) <$> recs.

(** Branch identifiers are all strings or all integers. *)
Definition homogeneous (l : list value) : Prop :=
  (∃ ss : list string, l = VStr <$> ss) ∨ (∃ zs : list Z, l = VInt <$> zs).

(** The place of a record among the sorted numbers of its branch. *)
Definition ranked (recs : list point_rec) (r : point_rec) (k : nat) : Prop :=
  merge_sort Z.le (orders_in (rbranch r) recs) !! k = Some (rorder r).

(** The numbers of every branch are pairwise distinct. *)
Definition distinct_orders (recs : list point_rec) : Prop :=
  ∀ b, NoDup (orders_in b recs).

(** The rows of the assignment loop, from the records and their relative
    order. *)
Definition rows4_of (l : list (point_rec * nat))
  : list (value * value * value * nat) :=
  (λ rk, (rpoint rk.1, VInt (rorder rk.1), rbranch rk.1, rk.2)) <$> l.

(** The record that is written last into slot [j] of branch [b]. *)
Fixpoint written (l : list (point_rec * nat)) (b : value) (j : nat)
  : option point_rec :=
  match l with
  | [] => None
  | (r, k) :: l' =>
      match written l' b j with
      | Some r' => Some r'
      | None => if decide (rbranch r = b ∧ k = j) then Some r else None
      end
  end.

(** A record is the first of its branch: no record of the branch has a
    smaller number. *)
Definition first_in_branch (recs : list point_rec) (r : point_rec) : Prop :=
  Forall (λ r', rbranch r' = rbranch r → (rorder r ≤ rorder r')%Z) recs.
#[global] Instance first_in_branch_dec recs r : Decision (first_in_branch recs r).
Proof. unfold first_in_branch. apply _. Defined.

(** The rows of a layer of points read as records: the cells of the
    columns to group by, of the order and of the geometry. *)
Definition reads_as (gi oi pi : nat) (p : Row * point_rec) : Prop :=
  cell gi p.1 = rbranch p.2 ∧
  cell oi p.1 = VInt (rorder p.2) ∧
  cell pi p.1 = rpoint p.2.

(** The starting number of a branch, as the loop finds it. *)
Definition startnr_of (nrows : nat) (recs : list point_rec) (b : value) : Z :=
  foldl Z.min (Z.of_nat nrows + 1) (orders_in b recs).

(** The records of [mixed_layer], row by row. *)
Definition mixed_recs : list point_rec :=
  [ (VStr "A", 4, (0, 0)); (VStr "A", 2, (1, 1)); (VStr "B", 6, (5, 5));
    (VStr "B", 3, (6, 6)); (VStr "A", 3, (9, 9)) ].

(** A record with the starting number of its branch: a row that
    [idx] selects. *)
Definition starts_branch (nrows : nat) (recs : list point_rec) (r : point_rec)
  : Prop :=
  rorder r = startnr_of nrows recs (rbranch r).
#[global] Instance starts_branch_dec nrows recs r
  : Decision (starts_branch nrows recs r).
Proof. unfold starts_branch. apply _. Defined.


(** The records of [sparse_layer], row by row. *)
Definition sparse_recs : list point_rec :=
  [ (VStr "A", 10, (0, 0)); (VStr "A", 20, (1, 1)) ].

(** ** ExtendedDataFrame

    The second class of the file: a pandas [DataFrame] with required
    columns.  An instance is an [ExtendedGeoDataFrame] of which the methods
    below never read the geometry type, and a frame whose coordinate
    reference system they never read. *)

Module ExtendedDataFrame.

(** [delete_all] *)
Definition delete_all : method unit :=
  do self <- get_self;
  when (negb (empty (frame self)))
    (* first column set to NaN, then dropna: no row is left *)
    (let df := frame self in
     put_frame (mkFrame (columns df) [] (index_name df) (crs df))).

(** [_check_columns]: the columns of the instance itself are checked. *)
Definition _check_columns : method unit :=
  do self <- get_self;
  let present_columns := columns (frame self) in
  for_ (required_columns self) (λ column,
    if bool_decide (column ∉ present_columns) then raise (KeyError column)
    else ret ()).

(** [set_data] *)
Definition set_data (df : GeoDataFrame) (index_col : option string)
  : method unit :=
  do self <- get_self;
  do_ when (negb (empty (frame self))) delete_all;
  (* Copy content *)
  do_ for_ (items df) (λ '(col, values), assign col values None);
  do_ match index_col with
      | None =>
          do self <- get_self;
          do df' <- lift (set_index (frame self) (index df) (index_name df));
          put_frame df'
      | Some index_col =>
          do labels <- lift (getitem df index_col);
          do self <- get_self;
          do df' <- lift (set_index (frame self) labels (Some index_col));
          put_frame df'
      end;
  (* Check columns and types *)
  _check_columns.

(** [pd.concat([current, df], ignore_index=False, sort=False)], for frames
    with distinct column names: the columns of both in order of appearance,
    the rows of the first followed by the rows of the second, a cell that a
    frame does not have left missing; the name of the index is kept when
    both have the same. *)
Definition union_columns (a b : list string) : list string :=
  a ++ filter (λ c, c ∉ a) b.

Definition reindex_columns (cols : list string) (df : GeoDataFrame) (r : Row)
  : Row :=
  mkRow (label r)
    ((λ c, match index_of c (columns df) with
           | Some i => cell i r
           | None => VNone
           end) <$> cols).

Definition pd_concat (current df : GeoDataFrame) : GeoDataFrame :=
  let cols := union_columns (columns current) (columns df) in
  mkFrame cols
    ((reindex_columns cols current <$> rows current)
     ++ (reindex_columns cols df <$> rows df))
    (if decide (index_name current = index_name df) then index_name current
     else None)
    None.

(** [add_data] *)
Definition add_data (df : GeoDataFrame) : method unit :=
  do self <- get_self;
  if negb (forallb (λ c, bool_decide (c ∈ columns (frame self))) (columns df))
  then
    raise (KeyError
      "The new df contains columns that are not present in the current df.")
  else
    (* Concatenate data *)
    let current := mkFrame (columns (frame self)) (rows (frame self))
                     (index_name (frame self)) None in
    let newdf := pd_concat current df in
    (* Empty current df *)
    do_ delete_all;
    (* Add values again *)
    do self <- get_self;
    set_data newdf (index_name (frame self)).

(** [layer.drop("geometry", axis=1, inplace=True)] *)
Definition drop_column (c : string) (df : GeoDataFrame) : result GeoDataFrame :=
  if bool_decide (c ∈ columns df)
  then Ok (keep_columns (λ c', negb (bool_decide (c' = c))) df)
  else Raise (KeyError c).

(** [read_gpkg_layer].  [path_exists] is [Path(gpkg_path).exists()] and
    [read_file] is what [gpd.read_file(gpkg_path, layer=layer_name)] gives. *)
Definition read_gpkg_layer `{!Library} (path_exists : bool)
    (read_file : result GeoDataFrame)
    (column_mapping : option (gmap string string)) (index_col : option string)
  : method unit :=
  if negb path_exists then raise (OSError "File not found")
  else
    do layer <- lift read_file;
    let layer := lowered layer in
    do layer <- lift (drop_column geometry_name layer);
    let df := match column_mapping with
              | Some m => rename m layer
              | None => layer
              end in
    (* Add data to class GeoDataFrame *)
    set_data df index_col.

End ExtendedDataFrame.

(** [ExtendedDataFrame.set_data] on the frame of the instance: the frame
    that is left behind, and how the call ends. *)
Definition data_steps (self : ExtendedGeoDataFrame) (df : GeoDataFrame)
    (index_col : option string) : GeoDataFrame * result unit :=
  let df1 := cleared (frame self) in
  match copy_loop None (items df) df1 with
  | (df2, Raise e) => (df2, Raise e)
  | (df2, Ok _) =>
      match index_step df index_col df2 with
      | Raise e => (df2, Raise e)
      | Ok df3 =>
          (df3, match missing_column (required_columns self) (columns df3) with
                | Some column => Raise (KeyError column)
                | None => Ok ()
                end)
      end
  end.

(** A table of cross sections without geometry, an instance that holds it
    and rows to add. *)
Definition sections : GeoDataFrame :=
  mkFrame ["code"; "width"]
    [ mkRow (VInt 0) [VStr "P1"; VInt 4];
      mkRow (VInt 1) [VStr "P2"; VInt 6] ]
    None None.

Definition section_store : ExtendedGeoDataFrame :=
  mkExtended sections ["code"] [].

Definition more_sections : GeoDataFrame :=
  mkFrame ["width"; "code"]
    [ mkRow (VInt 0) [VInt 8; VStr "P3"] ]
    None None.
(** * Properties *)

Open Scope list_scope.

Ltac by_computation := apply (bool_decide_unpack _); vm_compute; exact I.

Ltac inv_bind H :=
  match type of H with
  | bind ?r _ = Ok _ =>
      let E := fresh "E" in
      destruct r eqn:E; simpl in H; [|discriminate H]
  end.

Section Properties.

Context {library : Library}.


(** ** Columns and cells *)

Lemma index_of_Some cols c i :
  index_of c cols = Some i → cols !! i = Some c.
Proof.
  revert i. induction cols as [|c' cols IH]; intros i; simpl; [done|].
  destruct (decide (c' = c)) as [->|Hne].
  - intros [= <-]. done.
  - destruct (index_of c cols) as [j|] eqn:Hj; simpl; [|done].
    intros [= <-]. simpl. by apply IH.
Qed.

Lemma index_of_lt cols c i :
  index_of c cols = Some i → (i < length cols)%nat.
Proof. intros H. eapply lookup_lt_Some, index_of_Some, H. Qed.

Lemma index_of_None cols c :
  index_of c cols = None ↔ c ∉ cols.
Proof.
  induction cols as [|c' cols IH]; simpl.
  - split; [intros _; apply not_elem_of_nil | done].
  - destruct (decide (c' = c)) as [->|Hne].
    + split; [done | intros H; exfalso; apply H; left].
    + rewrite not_elem_of_cons. destruct (index_of c cols); simpl.
      * split; [done | intros [_ H]; by apply IH in H].
      * split; [intros _; split; [done | by apply IH] | done].
Qed.

Lemma index_of_is_Some cols c :
  c ∈ cols → ∃ i, index_of c cols = Some i.
Proof.
  intros Hin. destruct (index_of c cols) as [i|] eqn:Hi; [by exists i|].
  by apply index_of_None in Hi.
Qed.

Lemma index_of_app_new cols c :
  c ∉ cols → index_of c (cols ++ [c]) = Some (length cols).
Proof.
  induction cols as [|c' cols IH]; simpl; intros Hnin.
  - by rewrite decide_True.
  - apply not_elem_of_cons in Hnin as [Hne Hnin].
    rewrite decide_False by done. by rewrite IH.
Qed.

Lemma cell_set_cell ncols i r v :
  (i < ncols)%nat → cell i (set_cell ncols i r v) = v.
Proof.
  intros Hi. unfold cell, set_cell; simpl.
  rewrite list_lookup_insert_eq; [done|]. by rewrite length_resize.
Qed.

Lemma cell_add_cell ncols r v : cell ncols (add_cell ncols r v) = v.
Proof.
  unfold cell, add_cell; simpl.
  rewrite lookup_app_r by (rewrite length_resize; lia).
  rewrite length_resize, Nat.sub_diag. done.
Qed.

Lemma fmap_zip_with_const {A B C} (f : A → B → C) (g : C → B) (l : list A) (k : list B) :
  length l = length k → (∀ a b, g (f a b) = b) → g <$> zip_with f l k = k.
Proof.
  intros Hlen Hg. revert k Hlen.
  induction l as [|a l IH]; intros [|b k]; simpl; intros Hlen; try done.
  f_equal; [apply Hg | apply IH; lia].
Qed.

Lemma getitem_setitem df c vals df' :
  setitem df c vals = Ok df' → getitem df' c = Ok vals.
Proof.
  unfold setitem. case_decide as Hlen; [|done].
  destruct (index_of c (columns df)) as [i|] eqn:Hi; intros [= <-];
    unfold getitem; simpl.
  - rewrite Hi. f_equal. apply fmap_zip_with_const; [done|].
    intros r v. apply cell_set_cell. by eapply index_of_lt.
  - rewrite index_of_app_new by (by apply index_of_None).
    f_equal. apply fmap_zip_with_const; [done|].
    intros r v. apply cell_add_cell.
Qed.


Lemma getitem_length df c vals :
  getitem df c = Ok vals → length vals = length (rows df).
Proof.
  unfold getitem. destruct (index_of c (columns df)); [|done].
  intros [= <-]. by rewrite length_fmap.
Qed.

Lemma getitem_is_Ok df c :
  c ∈ columns df → ∃ vals, getitem df c = Ok vals.
Proof.
  intros Hin. apply index_of_is_Some in Hin as [i Hi].
  unfold getitem. rewrite Hi. eauto.
Qed.

Lemma getitem_KeyError df c :
  c ∉ columns df → getitem df c = Raise (KeyError c).
Proof. intros Hnin. unfold getitem. by apply index_of_None in Hnin as ->. Qed.

Lemma with_frame_same self : with_frame self (frame self) = self.
Proof. by destruct self. Qed.

(** ** Adding columns *)


Lemma mapM_result_length {A B} (f : A → result B) (l : list A) (k : list B) :
  mapM_result f l = Ok k → length k = length l.
Proof.
  revert k. induction l as [|x l IH]; intros k; simpl.
  - by intros [= <-].
  - destruct (f x) as [y|]; simpl; [|done].
    destruct (mapM_result f l) as [ys|]; simpl; [|done].
    intros [= <-]. simpl. f_equal. by apply IH.
Qed.

Lemma series_add_length xs ys s :
  length xs = length ys → series_add xs ys = Ok s → length s = length xs.
Proof.
  intros Hlen. unfold series_add.
  destruct (dtype_of xs), (dtype_of ys); try done;
    try (intros [= <-]; rewrite length_zip_with; lia);
    intros Hs; apply mapM_result_length in Hs; rewrite Hs, length_zip; lia.
Qed.













(** ** The steps of [set_data] *)

Lemma set_frame_same w : set_frame w (frame (this w)) = w.
Proof. destruct w as [[] ?]. done. Qed.

Lemma set_frame_twice w df df' : set_frame (set_frame w df) df' = set_frame w df'.
Proof. done. Qed.

Lemma clear_step w :
  (when (negb (empty (frame (this w)))) delete_all) w
  = (set_frame w (cleared (frame (this w))), Ok ()).
Proof.
  unfold delete_all, cleared, then_, get_self.
  destruct (empty (frame (this w))) eqn:He; simpl.
  - unfold ret. by rewrite set_frame_same.
  - rewrite He. done.
Qed.

Lemma cleared_empty df : rows (cleared df) = [] ∨ columns (cleared df) = [].
Proof.
  unfold cleared, empty. destruct (rows df) eqn:Hr; simpl; [by left|].
  destruct (columns df) eqn:Hc; simpl; [by right | by left].
Qed.

Lemma cleared_columns df : columns (cleared df) = columns df.
Proof. unfold cleared. by destruct (negb _). Qed.

Lemma cleared_rows df : columns df ≠ [] → rows (cleared df) = [].
Proof.
  intros Hc. destruct (cleared_empty df) as [|H]; [done|].
  by rewrite cleared_columns in H.
Qed.

Lemma assign_step col vals crs_vals w :
  assign col vals crs_vals w =
  match assign_frame crs_vals (frame (this w)) col vals with
  | Ok df => (set_frame w df, Ok ())
  | Raise e => (w, Raise e)
  end.
Proof.
  unfold assign, assign_frame, then_, get_self, lift, put_frame; simpl.
  destruct (setitem _ _ _); simpl; done.
Qed.

Lemma copy_step crs_vals its w :
  for_ its (λ '(col, values), assign col values crs_vals) w
  = (set_frame w (copy_loop crs_vals its (frame (this w))).1,
     (copy_loop crs_vals its (frame (this w))).2).
Proof.
  revert w. induction its as [|[col vals] its IH]; intros w; simpl.
  - by rewrite set_frame_same.
  - unfold then_. rewrite assign_step.
    destruct (assign_frame _ _ _ _) as [df|e]; simpl.
    + rewrite IH. done.
    + by rewrite set_frame_same.
Qed.

Lemma check_geotype_step w :
  _check_geotype w =
  (w, match geometry (frame (this w)) with
      | Ok geos =>
          if forallb (λ geo, isinstance geo (geotype (this w))) geos
          then Ok ()
          else Raise (TypeError "Geometrytype required")
      | Raise e => Raise e
      end).
Proof.
  unfold _check_geotype, then_, get_self, lift.
  destruct (geometry _) as [geos|e]; simpl; [|done].
  by destruct (forallb _ _).
Qed.

(** ** The copy of the columns *)

Lemma setitem_rows_length df c vals df' :
  setitem df c vals = Ok df' → length (rows df') = length vals.
Proof.
  unfold setitem. case_decide as Hlen; [|done].
  destruct (index_of c (columns df)); intros [= <-]; simpl;
    rewrite length_zip_with; lia.
Qed.

Lemma setitem_ValueError df c vals e :
  setitem df c vals = Raise e →
  is_ValueError (Raise (A:=unit) e) ∧ rows df ≠ [] ∧ length (rows df) ≠ length vals.
Proof.
  unfold setitem. case_decide as Hlen.
  - by destruct (index_of c (columns df)).
  - intros [= <-]. split; [by eexists|].
    destruct (rows df) eqn:Hr; [|done].
    exfalso. apply Hlen. unfold range_rows. by rewrite length_fmap, length_seq.
Qed.

Lemma lookup_resize_default (l : list value) n j :
  (j < n)%nat → default VNone (resize n VNone l !! j) = default VNone (l !! j).
Proof.
  intros Hj. destruct (decide (j < length l)%nat) as [Hl|Hl].
  - by rewrite lookup_resize.
  - rewrite lookup_resize_new by lia. by rewrite lookup_ge_None_2 by lia.
Qed.

Lemma cell_set_cell_ne ncols i j r v :
  i ≠ j → (j < ncols)%nat → cell j (set_cell ncols i r v) = cell j r.
Proof.
  intros Hne Hj. unfold cell, set_cell; simpl.
  rewrite list_lookup_insert_ne by done. by apply lookup_resize_default.
Qed.

Lemma cell_add_cell_ne ncols j r v :
  (j < ncols)%nat → cell j (add_cell ncols r v) = cell j r.
Proof.
  intros Hj. unfold cell, add_cell; simpl.
  rewrite lookup_app_l by (by rewrite length_resize).
  by apply lookup_resize_default.
Qed.

Lemma fmap_zip_with_fst {A B C D} (f : A → B → C) (g : C → D) (h : A → D)
    (l : list A) (k : list B) :
  length l = length k → (∀ a b, g (f a b) = h a) → g <$> zip_with f l k = h <$> l.
Proof.
  intros Hlen Hg. revert k Hlen.
  induction l as [|a l IH]; intros [|b k]; simpl; intros Hlen; try done.
  f_equal; [apply Hg | apply IH; lia].
Qed.

Lemma index_of_app_old cols c c' :
  c' ≠ c → index_of c' (cols ++ [c]) = index_of c' cols.
Proof.
  intros Hne. induction cols as [|c0 cols IH]; simpl.
  - by rewrite decide_False.
  - destruct (decide (c0 = c')); [done|]. by rewrite IH.
Qed.

Lemma setitem_rows_present df c vals :
  length (rows df) = length vals →
  setitem df c vals =
  let ncols := length (columns df) in
  match index_of c (columns df) with
  | Some i =>
      Ok (mkFrame (columns df) (zip_with (set_cell ncols i) (rows df) vals)
            (index_name df) (crs df))
  | None =>
      Ok (mkFrame (columns df ++ [c]) (zip_with (add_cell ncols) (rows df) vals)
            (index_name df) (crs df))
  end.
Proof.
  intros Hrows. unfold setitem. destruct (rows df) as [|r rs] eqn:Hr.
  - destruct vals; [|done]. simpl. by destruct (index_of c (columns df)).
  - by rewrite decide_True.
Qed.

(** A column assignment leaves the other columns as they are, in a frame
    that has its rows already. *)
Lemma getitem_setitem_ne df c vals df' c' :
  c' ≠ c → length (rows df) = length vals →
  setitem df c vals = Ok df' → getitem df' c' = getitem df c'.
Proof.
  intros Hne Hrows. rewrite setitem_rows_present by done. simpl.
  destruct (index_of c (columns df)) as [i|] eqn:Hi; intros [= <-];
    unfold getitem; simpl.
  - destruct (index_of c' (columns df)) as [j|] eqn:Hj; [|done].
    f_equal. apply fmap_zip_with_fst; [done|]. intros r v.
    apply cell_set_cell_ne; [|by eapply index_of_lt].
    intros ->. apply index_of_Some in Hi, Hj. congruence.
  - rewrite index_of_app_old by done.
    destruct (index_of c' (columns df)) as [j|] eqn:Hj; [|done].
    f_equal. apply fmap_zip_with_fst; [done|]. intros r v.
    apply cell_add_cell_ne. by eapply index_of_lt.
Qed.

Lemma assign_frame_getitem crs_vals df c vals df' c' :
  assign_frame crs_vals df c vals = Ok df' →
  getitem df' c' =
  (let* df1 := setitem df c vals in getitem df1 c').
Proof.
  unfold assign_frame. destruct (setitem df c vals) as [df1|]; simpl; [|done].
  intros [= <-]. by case_decide.
Qed.

Lemma assign_frame_rows crs_vals df c vals df' :
  assign_frame crs_vals df c vals = Ok df' → length (rows df') = length vals.
Proof.
  unfold assign_frame. destruct (setitem df c vals) as [df1|] eqn:H1; simpl; [|done].
  intros [= <-]. apply setitem_rows_length in H1. by case_decide.
Qed.

Lemma assign_frame_ValueError crs_vals df c vals e :
  assign_frame crs_vals df c vals = Raise e →
  is_ValueError (Raise (A:=unit) e) ∧ rows df ≠ [] ∧ length (rows df) ≠ length vals.
Proof.
  unfold assign_frame. destruct (setitem df c vals) as [df1|e'] eqn:H1; simpl; [done|].
  intros [= <-]. by eapply setitem_ValueError.
Qed.

(** The loop raises nothing on a frame that has as many rows as the columns
    it is given, and then every column is stored; the columns it does not
    assign are as before. *)
Lemma copy_loop_stored crs_vals m its df :
  NoDup its.*1 → Forall (λ cv, length cv.2 = m) its →
  length (rows df) = m →
  ∃ df', copy_loop crs_vals its df = (df', Ok ()) ∧
         length (rows df') = m ∧
         (∀ c v, (c, v) ∈ its → getitem df' c = Ok v) ∧
         (∀ c, c ∉ its.*1 → getitem df' c = getitem df c).
Proof.
  revert df. induction its as [|[c v] its IH]; intros df Hnd Hlen Hrows; simpl.
  - exists df. split; [done|]. split; [done|]. split; [|done].
    intros c v Hin. by apply elem_of_nil in Hin.
  - simpl in Hnd. apply NoDup_cons in Hnd as [Hc Hnd].
    apply Forall_cons in Hlen as [Hv Hlen]. simpl in Hv.
    destruct (assign_frame crs_vals df c v) as [df1|e] eqn:H1.
    2:{ apply assign_frame_ValueError in H1 as (_ & _ & Hne). lia. }
    destruct (IH df1 Hnd Hlen) as (df' & Hloop & Hrows' & Hin' & Hout').
    { apply assign_frame_rows in H1. lia. }
    exists df'. split; [done|]. split; [done|].
    assert (Hget : ∀ c', getitem df1 c' =
                         (let* df2 := setitem df c v in getitem df2 c')).
    { intros c'. by eapply assign_frame_getitem. }
    unfold assign_frame in H1.
    destruct (setitem df c v) as [df2|] eqn:H2; simpl in *; [|done].
    split.
    + intros c' v' Hin. apply elem_of_cons in Hin as [[= -> ->]|Hin].
      * rewrite Hout' by done. rewrite Hget. by eapply getitem_setitem.
      * by apply Hin'.
    + intros c' Hnin. apply not_elem_of_cons in Hnin as [Hne Hnin].
      rewrite Hout' by done. rewrite Hget.
      eapply getitem_setitem_ne; [done| |done]. lia.
Qed.

(** ** [set_data] step by step *)

Lemma missing_column_None required present :
  missing_column required present = None ↔ required ⊆ present.
Proof.
  induction required as [|c required IH]; simpl.
  - split; [intros _; apply list_subseteq_nil | done].
  - unfold subseteq, list_subseteq in *. case_bool_decide as Hc.
    + split; [done|]. intros Hsub. exfalso. apply Hc, Hsub. left.
    + rewrite IH. split.
      * intros Hsub x Hx. apply elem_of_cons in Hx as [Heq|Hx]; [|by apply Hsub].
        by subst x.
      * intros Hsub x Hx. apply Hsub. by right.
Qed.

Lemma missing_column_Some required present c :
  missing_column required present = Some c → c ∈ required ∧ c ∉ present.
Proof.
  induction required as [|c' required IH]; simpl; [done|].
  case_bool_decide as Hc.
  - intros [= <-]. split; [left | done].
  - intros H. destruct (IH H). split; [by right | done].
Qed.

Lemma check_columns_step gdf w :
  _check_columns gdf w =
  (w, match missing_column (required_columns (this w)) (columns gdf) with
      | Some c => Raise (KeyError c)
      | None => Ok ()
      end).
Proof.
  unfold _check_columns, then_, get_self.
  generalize (required_columns (this w)) as required.
  induction required as [|c required IH]; simpl; [done|].
  unfold then_. case_bool_decide as Hc; [done|].
  unfold ret at 1. apply IH.
Qed.

Lemma index_step_method gdf index_col w :
  match index_col with
  | None =>
      do self <- get_self;
      do df <- lift (set_index (frame self) (index gdf) (index_name gdf));
      put_frame df
  | Some index_col =>
      do labels <- lift (getitem gdf index_col);
      do self <- get_self;
      do df <- lift (set_index (frame self) labels (Some index_col));
      put_frame df
  end w =
  match index_step gdf index_col (frame (this w)) with
  | Ok df => (set_frame w df, Ok ())
  | Raise e => (w, Raise e)
  end.
Proof.
  unfold index_step, then_, get_self, lift, put_frame.
  destruct index_col as [c|]; simpl.
  - destruct (getitem gdf c); simpl; [|done]. by destruct (set_index _ _ _).
  - by destruct (set_index _ _ _).
Qed.

Lemma set_data_run gdf index_col check_columns check_geotype w :
  set_data gdf index_col check_columns check_geotype w =
  (set_frame w (set_data_steps (this w) gdf index_col check_columns check_geotype).1,
   (set_data_steps (this w) gdf index_col check_columns check_geotype).2).
Proof.
  unfold set_data, set_data_steps.
  unfold then_ at 1. unfold get_self at 1.
  unfold then_ at 1. rewrite clear_step.
  unfold then_ at 1.
  assert (Hcheck : when check_columns (_check_columns gdf)
            (set_frame w (cleared (frame (this w)))) =
          (set_frame w (cleared (frame (this w))),
           match (if check_columns
                  then missing_column (required_columns (this w)) (columns gdf)
                  else None) with
           | Some c => Raise (KeyError c)
           | None => Ok ()
           end)).
  { destruct check_columns; simpl; [|done]. by rewrite check_columns_step. }
  rewrite Hcheck. clear Hcheck.
  destruct (if check_columns then _ else _) as [c|]; simpl; [done|].
  unfold then_ at 1. rewrite copy_step. simpl.
  destruct (copy_loop _ _ _) as [df2 [[]|e]]; simpl; [|done].
  unfold then_ at 1. rewrite index_step_method. simpl.
  destruct (index_step _ _ _) as [df3|e]; simpl; [|done].
  destruct check_geotype; simpl; [|done].
  rewrite check_geotype_step. simpl. unfold geotype_step.
  destruct (geometry df3); simpl; [|done]. by destruct (forallb _ _).
Qed.

Lemma set_data_after gdf index_col cc cg self :
  after (set_data gdf index_col cc cg) self
  = with_frame self (set_data_steps self gdf index_col cc cg).1.
Proof. unfold after, run. by rewrite set_data_run. Qed.

Lemma set_data_outcome gdf index_col cc cg self :
  outcome (set_data gdf index_col cc cg) self
  = (set_data_steps self gdf index_col cc cg).2.
Proof. unfold outcome, run. by rewrite set_data_run. Qed.

Lemma copy_loop_raises crs_vals its df df' e :
  copy_loop crs_vals its df = (df', Raise e) → is_ValueError (Raise (A:=unit) e).
Proof.
  revert df. induction its as [|[c v] its IH]; intros df; simpl; [done|].
  destruct (assign_frame crs_vals df c v) as [df1|e1] eqn:H1.
  - apply IH.
  - intros [= <- <-]. by apply assign_frame_ValueError in H1 as [? _].
Qed.

Lemma set_index_raises df labels name e :
  set_index df labels name = Raise e → is_ValueError (Raise (A:=unit) e).
Proof. unfold set_index. case_decide; [done|]. intros [= <-]. by eexists. Qed.

Lemma set_index_Ok df labels name :
  length (rows df) = length labels →
  ∃ df', set_index df labels name = Ok df' ∧ index df' = labels ∧
         columns df' = columns df ∧ crs df' = crs df ∧ index_name df' = name ∧
         cells <$> rows df' = cells <$> rows df.
Proof.
  intros Hlen. unfold set_index. rewrite decide_True by done.
  eexists. split; [done|]. unfold index; simpl.
  split; [by apply fmap_zip_with_const|].
  repeat split. by apply fmap_zip_with_fst.
Qed.

Lemma getitem_cells df df' c :
  columns df' = columns df → cells <$> rows df' = cells <$> rows df →
  getitem df' c = getitem df c.
Proof.
  intros Hc Hr. unfold getitem. rewrite Hc.
  destruct (index_of c (columns df)) as [i|]; [|done]. f_equal.
  change (cell i) with ((λ cs : list value, default VNone (cs !! i)) ∘ cells).
  by rewrite !list_fmap_compose, Hr.
Qed.

Lemma geotype_step_raises classes df e :
  geotype_step classes df = Raise e →
  (∃ why, e = TypeError why) ∨ (∃ why, e = AttributeError why).
Proof.
  unfold geotype_step, geometry.
  destruct (index_of geometry_name (columns df)); simpl.
  - destruct (forallb _ _); [done|]. intros [= <-]. left. by eexists.
  - intros [= <-]. right. by eexists.
Qed.

(** The columns of a frame, as [items] lists them. *)
Lemma imap_fst {A B} (f : nat → A → A * B) (l : list A) :
  (∀ i x, (f i x).1 = x) → (imap f l).*1 = l.
Proof.
  revert f. induction l as [|x l IH]; intros f Hf; simpl; [done|].
  f_equal; [apply Hf | apply IH; intros; apply Hf].
Qed.

Lemma items_columns gdf : (items gdf).*1 = columns gdf.
Proof. unfold items. by apply imap_fst. Qed.

Lemma items_length gdf :
  Forall (λ cv, length cv.2 = length (rows gdf)) (items gdf).
Proof.
  apply Forall_forall. intros [c v] Hin.
  apply elem_of_lookup_imap in Hin as (i & col & [= -> ->] & _).
  simpl. by rewrite length_fmap.
Qed.

Lemma index_of_NoDup cols i c :
  NoDup cols → cols !! i = Some c → index_of c cols = Some i.
Proof.
  intros Hnd Hi.
  destruct (index_of_is_Some cols c) as [j Hj].
  { by eapply list_elem_of_lookup_2. }
  rewrite Hj. f_equal. apply index_of_Some in Hj.
  eapply NoDup_lookup; done.
Qed.

Lemma items_getitem gdf c v :
  NoDup (columns gdf) → (c, v) ∈ items gdf → getitem gdf c = Ok v.
Proof.
  intros Hnd Hin.
  apply elem_of_lookup_imap in Hin as (i & col & [= -> ->] & Hi).
  unfold getitem. by rewrite (index_of_NoDup _ _ _ Hnd Hi).
Qed.

Lemma items_elem_of gdf c :
  c ∈ columns gdf → ∃ v, (c, v) ∈ items gdf.
Proof.
  intros Hin. apply list_elem_of_lookup in Hin as [i Hi].
  exists (cell i <$> rows gdf). apply elem_of_lookup_imap. by exists i, c.
Qed.

Lemma copy_loop_fresh crs_vals m its df :
  rows df = [] → its ≠ [] → NoDup its.*1 → Forall (λ cv, length cv.2 = m) its →
  ∃ df', copy_loop crs_vals its df = (df', Ok ()) ∧
         length (rows df') = m ∧
         (∀ c v, (c, v) ∈ its → getitem df' c = Ok v).
Proof.
  intros Hrows Hne Hnd Hlen. destruct its as [|[c v] its]; [done|].
  simpl in *. apply NoDup_cons in Hnd as [Hc Hnd].
  apply Forall_cons in Hlen as [Hv Hlen]. simpl in Hv.
  destruct (assign_frame crs_vals df c v) as [df1|e] eqn:H1.
  2:{ by apply assign_frame_ValueError in H1 as (_ & ? & _). }
  destruct (copy_loop_stored crs_vals m its df1 Hnd Hlen)
    as (df' & Hloop & Hrows' & Hin' & Hout').
  { apply assign_frame_rows in H1. lia. }
  exists df'. split; [done|]. split; [done|].
  intros c' v' Hin. apply elem_of_cons in Hin as [[= -> ->]|Hin]; [|by apply Hin'].
  rewrite Hout' by done.
  rewrite (assign_frame_getitem _ _ _ _ _ c H1).
  unfold assign_frame in H1.
  destruct (setitem df c v) as [df2|] eqn:H2; simpl in *; [|done].
  by eapply getitem_setitem.
Qed.

(** C3, as amended.  [set_data] with [check_columns=True], when [index_col]
    is [None] or a column of the input: [KeyError] is raised if and only if
    a required column is absent from the input; and when all the required
    columns are present, the instance holds every column of the input and
    the index, for an input and an instance that are well formed. *)
Theorem set_data_KeyError_iff_required_column_absent
    (self : ExtendedGeoDataFrame) (gdf : GeoDataFrame)
    (index_col : option string) (check_geotype : bool) :
  (∀ c, index_col = Some c → c ∈ columns gdf) →
  let m := set_data gdf index_col true check_geotype in
  (is_KeyError (outcome m self) ↔
   ∃ c, c ∈ required_columns self ∧ c ∉ columns gdf) ∧
  (required_columns self ⊆ columns gdf →
   wf_frame gdf → wf_frame (frame self) →
   (∀ c, c ∈ columns gdf → getitem (frame (after m self)) c = getitem gdf c) ∧
   Ok (index (frame (after m self))) =
     match index_col with
     | None => Ok (index gdf)
     | Some c => getitem gdf c
     end).
Proof.
  intros Hindex m. subst m.
  rewrite set_data_outcome, set_data_after. unfold set_data_steps.
  destruct (missing_column (required_columns self) (columns gdf)) as [c|] eqn:Hmiss.
  { split.
    - split; [|intros _; by eexists].
      intros _. exists c. by apply missing_column_Some.
    - intros Hsub. apply missing_column_None in Hsub. congruence. }
  apply missing_column_None in Hmiss.
  split.
  - split.
    2:{ intros (c & Hin & Hnin). exfalso. by apply Hnin, Hmiss. }
    intros [k Hk]. exfalso. revert Hk.
    destruct (copy_loop _ _ _) as [df2 [[]|e]] eqn:Hloop; simpl.
    2:{ intros [= ->]. apply copy_loop_raises in Hloop as [? [=]]. }
    destruct (index_step gdf index_col df2) as [df3|e] eqn:Hidx; simpl.
    2:{ intros [= ->]. unfold index_step in Hidx. destruct index_col as [c|].
        - destruct (getitem_is_Ok gdf c) as [labels Hl]; [by apply Hindex|].
          rewrite Hl in Hidx. simpl in Hidx.
          apply set_index_raises in Hidx as [? [=]].
        - apply set_index_raises in Hidx as [? [=]]. }
    destruct check_geotype; [|done].
    intros Hk. apply geotype_step_raises in Hk as [[? [=]]|[? [=]]].
  - intros _ (Hnd & _ & Hcols) (_ & _ & Hself). simpl.
    assert (Hrows1 : rows (cleared (frame self)) = []).
    { destruct (cleared_empty (frame self)) as [|Hc]; [done|].
      rewrite cleared_columns in Hc. unfold cleared, empty.
      destruct (rows (frame self)) eqn:Hr; simpl; [by rewrite Hr|].
      exfalso. by apply Hself. }
    destruct (decide (columns gdf = [])) as [Hnil|Hnil].
    + (* an input without columns has no rows either *)
      assert (Hr : rows gdf = []).
      { destruct (rows gdf) eqn:Hr; [done|]. exfalso. by apply Hcols. }
      assert (Hits : items gdf = []).
      { unfold items. by rewrite Hnil. }
      rewrite Hits. simpl.
      assert (Hc : index_col = None).
      { destruct index_col as [c|]; [|done].
        specialize (Hindex c eq_refl). rewrite Hnil in Hindex.
        by apply elem_of_nil in Hindex. }
      subst index_col. simpl.
      destruct (set_index_Ok (cleared (frame self)) (index gdf) (index_name gdf))
        as (df3 & -> & Hi & _).
      { rewrite Hrows1. unfold index. by rewrite Hr. }
      simpl. split; [|by rewrite Hi].
      intros c Hc. rewrite Hnil in Hc. by apply elem_of_nil in Hc.
    + destruct (copy_loop_fresh (crs gdf) (length (rows gdf)) (items gdf)
                  (cleared (frame self))) as (df2 & -> & Hlen2 & Hstored).
      { done. }
      { intros Hits. apply Hnil. by rewrite <- items_columns, Hits. }
      { by rewrite items_columns. }
      { apply items_length. }
      assert (Hlabels : ∃ labels,
                match index_col with
                | None => Ok (index gdf)
                | Some c => getitem gdf c
                end = Ok labels ∧ length labels = length (rows gdf) ∧
                index_step gdf index_col df2 =
                set_index df2 labels
                  (match index_col with None => index_name gdf | Some c => Some c end)).
      { destruct index_col as [c|]; simpl.
        - destruct (getitem_is_Ok gdf c) as [labels Hl]; [by apply Hindex|].
          exists labels. rewrite Hl. split; [done|].
          split; [by eapply getitem_length | done].
        - exists (index gdf). split; [done|]. unfold index.
          by rewrite length_fmap. }
      destruct Hlabels as (labels & Hl & Hlen & ->).
      destruct (set_index_Ok df2 labels
                  (match index_col with None => index_name gdf | Some c => Some c end))
        as (df3 & -> & Hi & Hc3 & _ & _ & Hr3); [lia|].
      simpl. split; [|by rewrite Hi, Hl].
      intros c Hc. destruct (items_elem_of gdf c Hc) as [v Hv].
      rewrite (getitem_cells df2 df3) by done.
      rewrite (Hstored c v Hv). symmetry. by apply items_getitem.
Qed.

(** ** The geometry type *)

Lemma geometry_no_features df geos :
  rows df = [] ∨ columns df = [] → geometry df = Ok geos → geos = [].
Proof.
  unfold geometry. intros [Hr|Hc].
  - destruct (index_of _ _); [|done]. intros [= <-]. by rewrite Hr.
  - by rewrite Hc.
Qed.

Lemma copy_loop_rows_kept crs_vals m its df :
  Forall (λ cv, length cv.2 = m) its → length (rows df) = m →
  length (rows (copy_loop crs_vals its df).1) = m ∧
  (copy_loop crs_vals its df).2 = Ok ().
Proof.
  revert df. induction its as [|[c v] its IH]; intros df Hlen Hrows; simpl; [done|].
  apply Forall_cons in Hlen as [Hv Hlen]. simpl in Hv.
  destruct (assign_frame crs_vals df c v) as [df1|e] eqn:H1.
  - apply IH; [done|]. apply assign_frame_rows in H1. lia.
  - apply assign_frame_ValueError in H1 as (_ & _ & Hne). lia.
Qed.

Lemma copy_loop_first crs_vals m its df :
  Forall (λ cv, length cv.2 = m) its → its ≠ [] →
  (copy_loop crs_vals its df = (df, (copy_loop crs_vals its df).2) ∧
   is_ValueError (copy_loop crs_vals its df).2) ∨
  (length (rows (copy_loop crs_vals its df).1) = m ∧
   (copy_loop crs_vals its df).2 = Ok ()).
Proof.
  intros Hlen Hne. destruct its as [|[c v] its]; [done|]. simpl.
  apply Forall_cons in Hlen as [Hv Hlen]. simpl in Hv.
  destruct (assign_frame crs_vals df c v) as [df1|e] eqn:H1.
  - right. apply copy_loop_rows_kept; [done|].
    apply assign_frame_rows in H1. lia.
  - left. split; [done|]. by apply assign_frame_ValueError in H1 as [? _].
Qed.

(** C4, as amended.  [set_data] with [check_geotype=True], when [index_col]
    is [None] or a column of the input: [TypeError] is raised if and only if
    a geometry that the instance holds after the call is not an instance of
    its [geotype]. *)
Theorem set_data_TypeError_iff_geometry_not_geotype
    (self : ExtendedGeoDataFrame) (gdf : GeoDataFrame)
    (index_col : option string) (check_columns : bool) :
  (∀ c, index_col = Some c → c ∈ columns gdf) →
  let m := set_data gdf index_col check_columns true in
  is_TypeError (outcome m self) ↔
  ∃ geos geo, geometry (frame (after m self)) = Ok geos ∧ geo ∈ geos ∧
              isinstance geo (geotype self) = false.
Proof.
  intros Hindex m. subst m.
  rewrite set_data_outcome, set_data_after. unfold set_data_steps.
  assert (Hnone : ∀ df, rows df = [] ∨ columns df = [] →
            ¬ ∃ geos geo, geometry df = Ok geos ∧ geo ∈ geos ∧
                          isinstance geo (geotype self) = false).
  { intros df Hdf (geos & geo & Hg & Hin & _).
    apply (geometry_no_features _ _ Hdf) in Hg. subst geos.
    by apply elem_of_nil in Hin. }
  destruct (if check_columns then _ else _) as [c|]; simpl.
  { split; [by intros [? [=]]|]. intros H. exfalso.
    by apply (Hnone _ (cleared_empty (frame self))). }
  destruct (decide (items gdf = [])) as [Hits|Hits].
  - (* an input without columns: nothing is copied *)
    rewrite Hits. simpl.
    assert (Hc : index_col = None).
    { destruct index_col as [c|]; [|done].
      specialize (Hindex c eq_refl). rewrite <- items_columns, Hits in Hindex.
      by apply elem_of_nil in Hindex. }
    subst index_col. simpl. unfold set_index.
    case_decide as Hlen; simpl.
    + unfold geotype_step, geometry; simpl.
      rewrite cleared_columns.
      pose proof (items_columns gdf) as Hcols. rewrite Hits in Hcols. simpl in Hcols.
      destruct (cleared_empty (frame self)) as [Hr|Hc].
      * rewrite Hr. simpl.
        destruct (index_of geometry_name (columns (frame self))); simpl.
        -- split; [by intros [? [=]]|]. intros (geos & geo & [= <-] & Hin & _).
           by apply elem_of_nil in Hin.
        -- split; [by intros [? [=]]|]. by intros (geos & geo & [=] & _).
      * rewrite cleared_columns in Hc. rewrite Hc. simpl.
        split; [by intros [? [=]]|]. by intros (geos & geo & [=] & _).
    + split; [by intros [? [=]]|]. intros H. exfalso.
      by apply (Hnone _ (cleared_empty (frame self))).
  - destruct (copy_loop_first (crs gdf) (length (rows gdf)) (items gdf)
                (cleared (frame self)) (items_length gdf) Hits)
      as [[Heq [why Hwhy]]|[Hrows Hok]].
    + rewrite Heq, Hwhy. simpl.
      split; [by intros [? [=]]|]. intros H. exfalso.
      by apply (Hnone _ (cleared_empty (frame self))).
    + destruct (copy_loop _ _ _) as [df2 r2]. simpl in *. subst r2.
      assert (Hlabels : ∃ labels name, length labels = length (rows gdf) ∧
                index_step gdf index_col df2 = set_index df2 labels name).
      { destruct index_col as [c|]; simpl.
        - destruct (getitem_is_Ok gdf c) as [labels Hl]; [by apply Hindex|].
          exists labels, (Some c). rewrite Hl.
          split; [by eapply getitem_length | done].
        - exists (index gdf), (index_name gdf). unfold index.
          by rewrite length_fmap. }
      destruct Hlabels as (labels & name & Hlen & ->).
      destruct (set_index_Ok df2 labels name) as (df3 & -> & _); [lia|].
      simpl. unfold geotype_step.
      destruct (geometry df3) as [geos|e] eqn:Hg; simpl.
      * destruct (forallb _ geos) eqn:Hall.
        -- split; [by intros [? [=]]|].
           intros (geos' & geo & [= <-] & Hin & Hgeo).
           rewrite forallb_forall in Hall.
           apply list_elem_of_In, Hall in Hin. congruence.
        -- split; [|intros _; by eexists].
           intros _. exists geos.
           assert (Hex : ∃ geo, geo ∈ geos ∧ isinstance geo (geotype self) = false).
           { clear -Hall. induction geos as [|g geos IH]; simpl in Hall; [done|].
             apply andb_false_iff in Hall as [Hg|Hall].
             - exists g. split; [left | done].
             - destruct (IH Hall) as (geo & Hin & Hgeo).
               exists geo. split; [by right | done]. }
           destruct Hex as (geo & Hin & Hgeo). by exists geo.
      * unfold geometry in Hg.
        destruct (index_of geometry_name (columns df3)); [done|].
        injection Hg as <-.
        split; [by intros [? [=]]|]. by intros (geos & geo & [=] & _).
Qed.

(** ** A frame with the columns of the instance *)

Lemma Forall_zip_with_l {A B C} (P : C → Prop) (f : A → B → C) l k :
  (∀ a b, P (f a b)) → Forall P (zip_with f l k).
Proof.
  intros Hf. revert k. induction l as [|a l IH]; intros [|b k]; simpl;
    constructor; auto.
Qed.

Lemma setitem_existing df c vals df' :
  c ∈ columns df → setitem df c vals = Ok df' →
  columns df' = columns df ∧ index_name df' = index_name df ∧
  crs df' = crs df ∧
  Forall (λ r, length (cells r) = length (columns df)) (rows df').
Proof.
  intros Hin. unfold setitem. case_decide; [|done].
  destruct (index_of_is_Some _ _ Hin) as [i ->]. intros [= <-]. simpl.
  repeat split. apply Forall_zip_with_l. intros r v. simpl.
  by rewrite length_insert, length_resize.
Qed.

Lemma copy_loop_existing crs_vals its df df' :
  its.*1 ⊆ columns df → its ≠ [] →
  crs_vals = crs df →
  copy_loop crs_vals its df = (df', Ok ()) →
  columns df' = columns df ∧ index_name df' = index_name df ∧
  crs df' = crs df ∧
  Forall (λ r, length (cells r) = length (columns df)) (rows df').
Proof.
  revert df. induction its as [|[c v] its IH]; intros df Hsub Hne Hcrs; [done|].
  simpl. destruct (assign_frame crs_vals df c v) as [df1|e] eqn:H1; [|done].
  unfold assign_frame in H1.
  destruct (setitem df c v) as [df2|] eqn:H2; simpl in H1; [|done].
  destruct (setitem_existing df c v df2) as (Hc2 & Hn2 & Hcrs2 & Hr2); [|done|].
  { apply Hsub. left. }
  assert (Hdf1 : columns df1 = columns df ∧ index_name df1 = index_name df ∧
                 crs df1 = crs df ∧ rows df1 = rows df2).
  { injection H1 as <-. case_decide; simpl; [|done].
    repeat split; try done. subst crs_vals. rewrite Hcrs2.
    by destruct (crs df). }
  destruct Hdf1 as (Hc1 & Hn1 & Hcrs1 & Hr1).
  destruct its as [|cv its'].
  - simpl. intros [= <-]. rewrite Hr1. done.
  - intros Hloop. apply IH in Hloop; [| |done|congruence].
    + destruct Hloop as (? & ? & ? & ?).
      repeat split; try congruence. by rewrite <- Hc1.
    + rewrite Hc1. intros x Hx. apply Hsub. by right.
Qed.

(** Rows with the same labels and the same cells in every column are the
    same rows. *)
Lemma list_eq_cells (n : nat) (l k : list value) :
  length l = n → length k = n →
  (∀ j, (j < n)%nat → default VNone (l !! j) = default VNone (k !! j)) → l = k.
Proof.
  intros Hl Hk Hj. apply list_eq. intros j.
  destruct (decide (j < n)%nat) as [Hlt|Hge].
  - specialize (Hj j Hlt).
    destruct (lookup_lt_is_Some_2 l j) as [x Hx]; [lia|].
    destruct (lookup_lt_is_Some_2 k j) as [y Hy]; [lia|].
    rewrite Hx, Hy in *. simpl in Hj. by subst.
  - by rewrite !lookup_ge_None_2 by lia.
Qed.

Lemma rows_ext (n : nat) (rs rs' : list Row) :
  label <$> rs = label <$> rs' →
  Forall (λ r, length (cells r) = n) rs →
  Forall (λ r, length (cells r) = n) rs' →
  (∀ j, (j < n)%nat → cell j <$> rs = cell j <$> rs') →
  rs = rs'.
Proof.
  revert rs'. induction rs as [|r rs IH]; intros [|r' rs'] Hl Hn Hn' Hc;
    simpl in *; try done.
  injection Hl as Hl1 Hl.
  apply Forall_cons in Hn as [Hr Hn]. apply Forall_cons in Hn' as [Hr' Hn'].
  f_equal.
  - destruct r as [lr cr], r' as [lr' cr']. simpl in *. subst lr'. f_equal.
    apply (list_eq_cells n); [done..|].
    intros j Hj. specialize (Hc j Hj). by injection Hc.
  - apply IH; [done..|]. intros j Hj. specialize (Hc j Hj). by injection Hc.
Qed.

Lemma getitem_cell df c i :
  index_of c (columns df) = Some i → getitem df c = Ok (cell i <$> rows df).
Proof. intros Hi. unfold getitem. by rewrite Hi. Qed.

(** [set_data] with the frame of a selection of the features of the
    instance leaves the instance with that frame. *)
Lemma set_data_steps_same_columns self gdf check_geotype :
  wf_frame gdf → columns gdf ≠ [] →
  columns (frame self) = columns gdf → crs (frame self) = crs gdf →
  required_columns self ⊆ columns gdf →
  (set_data_steps self gdf None true check_geotype).1 = gdf.
Proof.
  intros (Hnd & Hwf & _) Hne Hcols Hcrs Hreq.
  unfold set_data_steps.
  apply missing_column_None in Hreq. rewrite Hreq.
  assert (Hrows1 : rows (cleared (frame self)) = []).
  { apply cleared_rows. by rewrite Hcols. }
  assert (Hits : items gdf ≠ []).
  { intros Hits. apply Hne. by rewrite <- items_columns, Hits. }
  destruct (copy_loop_fresh (crs gdf) (length (rows gdf)) (items gdf)
              (cleared (frame self))) as (df2 & Hloop & Hlen2 & Hstored);
    [done|done|by rewrite items_columns|apply items_length|].
  rewrite Hloop.
  apply copy_loop_existing in Hloop as (Hc2 & Hn2 & Hcrs2 & Hr2); [|
    by rewrite items_columns, cleared_columns, Hcols | done |
    unfold cleared; by destruct (negb _)].
  rewrite cleared_columns, Hcols in Hc2, Hr2.
  unfold index_step.
  destruct (set_index_Ok df2 (index gdf) (index_name gdf))
    as (df3 & -> & Hi & Hc3 & Hcrs3 & Hn3 & Hr3).
  { unfold index. rewrite length_fmap. lia. }
  simpl.
  assert (Hcrs' : crs df3 = crs gdf).
  { rewrite Hcrs3, Hcrs2. unfold cleared. by destruct (negb _). }
  destruct df3 as [cols3 rows3 name3 crs3], gdf as [cols rws name crs0].
  simpl in *. subst cols3 name3 crs3. rewrite Hc2, Hcrs'. f_equal.
  apply (rows_ext (length cols)).
  - done.
  - apply (Forall_fmap cells (λ cs : list value, length cs = length cols)).
    rewrite Hr3.
    by apply (Forall_fmap cells (λ cs : list value, length cs = length cols)).
  - done.
  - intros j Hj. destruct (lookup_lt_is_Some_2 cols j Hj) as [c Hc].
    pose proof (index_of_NoDup _ _ _ Hnd Hc) as Hidx.
    transitivity (cell j <$> rows df2).
    { change (cell j) with ((λ cs : list value, default VNone (cs !! j)) ∘ cells).
      by rewrite !list_fmap_compose, Hr3. }
    assert (Hget : getitem df2 c = Ok (cell j <$> rows df2)).
    { apply getitem_cell. by rewrite Hc2. }
    assert (Hin : (c, cell j <$> rws) ∈
                  items (mkFrame cols rws name crs0)).
    { apply elem_of_lookup_imap. by exists j, c. }
    apply Hstored in Hin. rewrite Hget in Hin. by injection Hin.
Qed.

(** ** Clipping *)

Section Clipping.

Variable intersects : Geometry → Geometry → bool.

Lemma filter_zip_fmap {A} (f : A → bool) (l : list A) :
  fst <$> filter (λ xb, snd xb = true) (zip l (f <$> l))
  = filter (λ x, f x = true) l.
Proof.
  induction l as [|x l IH]; [done|].
  rewrite fmap_cons.
  change (zip (x :: l) (f x :: (f <$> l))) with ((x, f x) :: zip l (f <$> l)).
  rewrite !filter_cons. simpl.
  destruct (decide (f x = true)); simpl; [f_equal|]; exact IH.
Qed.

Lemma loc_mask_intersects df other i :
  index_of geometry_name (columns df) = Some i →
  ∃ mask, frame_intersects intersects df other = Ok mask ∧
    rows (loc_mask df mask)
    = filter (λ r, intersects_value intersects (row_geometry df r) other = true)
        (rows df).
Proof.
  intros Hi. unfold frame_intersects, geometry, row_geometry. rewrite Hi. simpl.
  eexists. split; [done|]. simpl.
  rewrite <- list_fmap_compose.
  apply (filter_zip_fmap (λ r, intersects_value intersects (cell i r) other)).
Qed.

Lemma clip_polygon w geometry i :
  isinstance geometry [CPolygon; CMultiPolygon] = true →
  index_of geometry_name (columns (frame (this w))) = Some i →
  ∃ mask,
    rows (loc_mask (frame (this w)) mask)
    = filter (λ r, intersects_value intersects
                     (row_geometry (frame (this w)) r) geometry = true)
        (rows (frame (this w))) ∧
    clip intersects geometry w =
    if empty (loc_mask (frame (this w)) mask)
    then (w, Raise (ValueError "Found no features within extent geometry."))
    else set_data (loc_mask (frame (this w)) mask) None true true w.
Proof.
  intros Hinst Hi.
  destruct (loc_mask_intersects (frame (this w)) geometry i Hi)
    as (mask & Hmask & Hrows).
  exists mask. split; [done|].
  unfold clip. rewrite Hinst. simpl.
  unfold then_, get_self, lift. rewrite Hmask.
  by destruct (empty _).
Qed.

(** C5, as amended.  [clip], on an instance that holds features (its frame
    is well formed and has the geometry column and the required columns):
    [TypeError] for an argument that is not a Polygon or a MultiPolygon;
    otherwise the instance is left with exactly the features whose geometry
    intersects the argument, and [ValueError] is raised, the instance being
    as it was, when there is none. *)
Theorem clip_retains_intersecting_features
    (self : ExtendedGeoDataFrame) (geometry : value) :
  wf_self self →
  let m := clip intersects geometry in
  let kept :=
    filter (λ r, intersects_value intersects (row_geometry (frame self) r)
                   geometry = true) (rows (frame self)) in
  (isinstance geometry [CPolygon; CMultiPolygon] = false →
   is_TypeError (outcome m self) ∧ after m self = self) ∧
  (isinstance geometry [CPolygon; CMultiPolygon] = true →
   (kept = [] → is_ValueError (outcome m self) ∧ after m self = self) ∧
   (kept ≠ [] →
    frame (after m self)
    = mkFrame (columns (frame self)) kept (index_name (frame self))
        (crs (frame self)))).
Proof.
  intros ((Hnd & Hwf & _) & Hreq & Hgeo) m kept. subst m.
  unfold outcome, after, run.
  split; intros Hinst.
  { unfold clip. rewrite Hinst. simpl. split; [by eexists | done]. }
  destruct (index_of_is_Some _ _ Hgeo) as [i Hi].
  destruct (clip_polygon (mkWorld self []) geometry i Hinst Hi)
    as (mask & Hrows & ->).
  simpl in *. fold kept in Hrows.
  assert (Hcols : columns (frame self) ≠ []).
  { intros Hnil. rewrite Hnil in Hgeo. by apply elem_of_nil in Hgeo. }
  assert (Hempty : empty (loc_mask (frame self) mask)
                   = bool_decide (kept = [])).
  { unfold empty. simpl. rewrite Hrows.
    destruct kept; [done|]. by destruct (columns (frame self)). }
  rewrite Hempty. split; intros Hkept.
  - rewrite bool_decide_true by done. simpl. split; [by eexists | done].
  - rewrite bool_decide_false by done. rewrite set_data_run. simpl.
    rewrite set_data_steps_same_columns; simpl; try done.
    + unfold loc_mask in *. simpl in *. by rewrite Hrows.
    + split; [done|]. split; [|done]. simpl.
      apply Forall_fmap. apply Forall_forall. intros [r b] Hin. simpl.
      apply list_elem_of_filter in Hin as [_ Hin].
      apply elem_of_zip_l in Hin. rewrite Forall_forall in Hwf. by apply Hwf.
Qed.

End Clipping.

(** ** Reprojection *)

Section Reprojection.

Variable transform : CRS → CRS → Geometry → Geometry.

(** The reprojected frame has the geometry of every row transformed and the
    other cells as they were. *)
Lemma reprojected_cell src dst i df j :
  cell j <$> rows (reprojected transform src dst i df)
  = (λ r, if decide (i = j) then transform_value transform src dst (cell j r)
          else cell j r) <$> rows df.
Proof.
  unfold reprojected; simpl. rewrite <- list_fmap_compose.
  apply list_fmap_ext. intros k r _. unfold cell, compose; simpl.
  case_decide as Hij.
  - subst j. rewrite list_lookup_alter_eq. by destruct (cells r !! i).
  - by rewrite list_lookup_alter_ne.
Qed.

Lemma index_of_inj cols c c' i :
  index_of c cols = Some i → index_of c' cols = Some i → c = c'.
Proof.
  intros H H'. apply index_of_Some in H, H'. congruence.
Qed.

Lemma to_crs_run (self : ExtendedGeoDataFrame) src dst i ms :
  crs (frame self) = Some src → dst ≠ src →
  index_of geometry_name (columns (frame self)) = Some i →
  to_crs transform (Some dst) (mkWorld self ms)
  = if is_crs dst
    then (mkWorld (with_frame self (reprojected transform src dst i (frame self))) ms,
          Ok ())
    else (mkWorld self ms, Raise (CRSError "Invalid projection")).
Proof.
  intros Hsrc Hne Hi. unfold to_crs, then_, get_self, put_frame, raise. simpl.
  rewrite Hi, Hsrc. destruct (is_crs dst); simpl; [|done].
  by rewrite decide_False.
Qed.

(** C6, as amended.  [check_projection] leaves the instance as it is when
    its coordinate reference system is the target.  On an instance that has
    a coordinate reference system, for a target that differs from it: when
    the target is a coordinate reference system, every geometry is replaced
    by its transformation to the target, which becomes the system of the
    instance, and the columns, the index and the cells of the other columns
    stay as they are; when it is none, the error of pyproj is raised and
    the instance is as it was.  On an instance without a coordinate
    reference system a target raises [ValueError] and nothing is
    reprojected. *)
Theorem check_projection_reprojects_when_crs_differs
    (self : ExtendedGeoDataFrame) (crs_out : option CRS) :
  let m := check_projection transform crs_out in
  (crs_out = crs (frame self) → outcome m self = Ok () ∧ after m self = self) ∧
  (∀ src dst geos,
     crs (frame self) = Some src → crs_out = Some dst → dst ≠ src →
     geometry (frame self) = Ok geos →
     (is_crs dst = true →
      outcome m self = Ok () ∧
      crs (frame (after m self)) = Some dst ∧
      (∃ geos', geometry (frame (after m self)) = Ok geos' ∧
         Forall2 (λ old new, match old with
                             | VGeom g => new = VGeom (transform src dst g)
                             | _ => new = old
                             end) geos geos') ∧
      columns (frame (after m self)) = columns (frame self) ∧
      index (frame (after m self)) = index (frame self) ∧
      (∀ c, c ≠ geometry_name →
         getitem (frame (after m self)) c = getitem (frame self) c)) ∧
     (is_crs dst = false →
      outcome m self = Raise (CRSError "Invalid projection") ∧
      after m self = self)) ∧
  (crs (frame self) = None → crs_out ≠ None →
   geometry_name ∈ columns (frame self) →
   is_ValueError (outcome m self) ∧ after m self = self).
Proof.
  intros m. subst m.
  split; [|split].
  - intros ->. unfold outcome, after, run, check_projection, then_, get_self.
    simpl. rewrite bool_decide_false by (by intros H; apply H). done.
  - intros src dst geos Hsrc -> Hne Hgeos.
    unfold geometry in Hgeos.
    destruct (index_of geometry_name (columns (frame self))) as [i|] eqn:Hi;
      [|done].
    injection Hgeos as <-.
    assert (Hrun : check_projection transform (Some dst) (mkWorld self [])
                   = to_crs transform (Some dst) (mkWorld self [])).
    { unfold check_projection, then_, get_self. simpl.
      rewrite bool_decide_true by (rewrite Hsrc; congruence). done. }
    unfold outcome, after, run. rewrite Hrun, (to_crs_run self src dst i) by done.
    split; intros ->; cbn [fst snd this with_frame frame]; [|done].
    split; [done|]. split; [done|]. split; [|split; [done|split]].
    + exists (cell i <$> rows (reprojected transform src dst i (frame self))).
      unfold geometry. cbn [columns reprojected]. rewrite Hi. split; [done|].
      rewrite reprojected_cell. apply Forall2_fmap, Forall_Forall2_diag.
      apply Forall_forall. intros r _. rewrite decide_True by done.
      by destruct (cell i r).
    + unfold index, reprojected; simpl. rewrite <- list_fmap_compose.
      by apply list_fmap_ext.
    + intros c Hc. unfold getitem. cbn [columns reprojected].
      destruct (index_of c (columns (frame self))) as [j|] eqn:Hj; [|done].
      f_equal. rewrite reprojected_cell. apply list_fmap_ext. intros k r _.
      rewrite decide_False; [done|]. intros <-.
      apply Hc. symmetry. by eapply index_of_inj.
  - intros Hnone Hout Hgeo.
    unfold outcome, after, run, check_projection, then_, get_self. simpl.
    rewrite bool_decide_true by (rewrite Hnone; congruence).
    destruct (index_of_is_Some _ _ Hgeo) as [i Hi].
    unfold to_crs, then_, get_self, raise. simpl. rewrite Hi, Hnone.
    split; [by eexists | done].
Qed.

End Reprojection.

(** ** What is printed only grows *)

Lemma grows_ret {A} (a : A) : grows (ret a).
Proof. intros w. exists []. by rewrite app_nil_r. Qed.

Lemma grows_raise {A} e : grows (raise (A:=A) e).
Proof. intros w. exists []. by rewrite app_nil_r. Qed.

Lemma grows_lift {A} (r : result A) : grows (lift r).
Proof. intros w. exists []. by rewrite app_nil_r. Qed.

Lemma grows_get_self : grows get_self.
Proof. intros w. exists []. by rewrite app_nil_r. Qed.

Lemma grows_put_frame df : grows (put_frame df).
Proof. intros w. exists []. simpl. by rewrite app_nil_r. Qed.

Lemma grows_print ms : grows (print ms).
Proof. intros w. by exists ms. Qed.

Lemma grows_then {A B} (m : method A) (k : A → method B) :
  grows m → (∀ a, grows (k a)) → grows (then_ m k).
Proof.
  intros Hm Hk w. unfold then_. destruct (Hm w) as [ms Hms].
  destruct (m w) as [w' [a|e]]; simpl in *.
  - destruct (Hk a w') as [ms' Hms']. exists (ms ++ ms').
    by rewrite Hms', Hms, app_assoc.
  - by exists ms.
Qed.

Lemma grows_set_data gdf index_col cc cg : grows (set_data gdf index_col cc cg).
Proof. intros w. rewrite set_data_run. exists []. simpl. by rewrite app_nil_r. Qed.

Lemma grows_clip intersects g : grows (clip intersects g).
Proof.
  unfold clip. destruct (negb _); [apply grows_raise|].
  apply grows_then; [apply grows_get_self|]. intros self.
  apply grows_then; [apply grows_lift|]. intros mask.
  destruct (empty _); [apply grows_raise | apply grows_set_data].
Qed.

Lemma grows_split_ids id_col ftcs gdf : grows (split_ids id_col ftcs gdf).
Proof.
  revert gdf. induction ftcs as [|ftc ftcs IH]; intros gdf; simpl.
  - apply grows_ret.
  - apply grows_then; [apply grows_lift|]. intros ids.
    case_bool_decide; [|apply IH].
    apply grows_then; [apply grows_print|]. intros _. apply IH.
Qed.

Lemma grows_explode_and_split id_col gdf : grows (explode_and_split id_col gdf).
Proof.
  unfold explode_and_split.
  apply grows_then; [apply grows_lift|]. intros gdf'.
  apply grows_then; [apply grows_lift|]. intros ids.
  apply grows_split_ids.
Qed.

(** ** Building the lines *)

Lemma mapM_point_coord pts :
  Forall (λ pt, is_Some (point_coord pt)) pts →
  mapM point_coord pts = Some (coords pts).
Proof.
  unfold coords. induction 1 as [|pt pts [c Hc] _ IH]; [done|].
  simpl. rewrite Hc. simpl. by rewrite IH.
Qed.

Lemma coords_length pts :
  Forall (λ pt, is_Some (point_coord pt)) pts → length (coords pts) = length pts.
Proof.
  unfold coords. induction 1 as [|pt pts [c Hc] _ IH]; [done|].
  simpl. rewrite Hc. simpl. f_equal. exact IH.
Qed.

Lemma make_LineString_points pts :
  Forall (λ pt, is_Some (point_coord pt)) pts → length pts ≠ 1%nat →
  make_LineString pts = Ok (LineString (coords pts)).
Proof.
  intros Hpts Hlen. unfold make_LineString.
  rewrite mapM_point_coord by done.
  rewrite bool_decide_false; [done|]. by rewrite coords_length.
Qed.

Lemma make_LineString_one_point pt :
  ∃ e, make_LineString [pt] = Raise e.
Proof.
  unfold make_LineString. simpl.
  destruct (point_coord pt); simpl; eauto.
Qed.

Lemma assigned_all pts : existsb is_int pts = false → assigned pts = pts.
Proof.
  unfold assigned. induction pts as [|pt pts IH]; simpl; [done|].
  intros [Hpt Hpts]%orb_false_iff.
  rewrite filter_cons, decide_True by done. by rewrite IH.
Qed.

(** The loop over the branches with two points or more, when of every one
    of them shapely makes a line: it ends well, every branch has the line
    through its assigned points, and the branches with a slot left at 0,
    and only these, are reported. *)
Lemma group_lines_ready (bs : list value) (lines : gmap value entry) w :
  NoDup bs →
  (∀ b, b ∈ bs → ∃ pts, lines !! b = Some (Slots pts) ∧ line_ready pts) →
  ∃ lines' ms,
    group_lines bs lines w = (mkWorld (this w) (printed w ++ ms), Ok lines') ∧
    (∀ b pts, b ∈ bs → lines !! b = Some (Slots pts) →
       lines' !! b = Some (Line (LineString (coords (assigned pts)))) ∧
       (unfilled pts = true → NotProperlyAssigned b ∈ ms)) ∧
    (∀ b, b ∉ bs → lines' !! b = lines !! b) ∧
    (∀ b, NotProperlyAssigned b ∈ ms →
       b ∈ bs ∧ ∃ pts, lines !! b = Some (Slots pts) ∧ unfilled pts = true).
Proof.
  revert lines w. induction bs as [|b bs IH]; intros lines w Hnd Hready.
  - exists lines, []. simpl. rewrite app_nil_r. unfold ret.
    split; [by destruct w|]. split; [|split].
    + intros b pts Hin. by apply elem_of_nil in Hin.
    + done.
    + intros b Hin. by apply elem_of_nil in Hin.
  - apply NoDup_cons in Hnd as [Hb Hnd].
    destruct (Hready b) as (pts & Hpts & Hpoints & Hlen); [left|].
    set (line := LineString (coords (assigned pts))).
    set (ms0 := if unfilled pts then [NotProperlyAssigned b] else []).
    assert (Hstep : group_lines (b :: bs) lines w =
              group_lines bs (<[b := Line line]> lines)
                (mkWorld (this w) (printed w ++ ms0))).
    { simpl. unfold then_ at 1. unfold lift at 1. rewrite Hpts.
      unfold then_ at 1. subst ms0. unfold unfilled.
      destruct (existsb is_int pts) eqn:Hint.
      - unfold then_ at 1. unfold print at 1. unfold ret at 1.
        unfold then_ at 1. unfold lift at 1.
        fold (assigned pts). by rewrite make_LineString_points.
      - unfold ret at 1. unfold then_ at 1. unfold lift at 1.
        rewrite assigned_all in Hpoints, Hlen by done.
        rewrite make_LineString_points by done.
        subst line. rewrite assigned_all by done.
        rewrite app_nil_r. by destruct w. }
    destruct (IH (<[b := Line line]> lines) (mkWorld (this w) (printed w ++ ms0)))
      as (lines' & ms & Hrun & Hin' & Hout' & Hmsg'); [done| |].
    { intros b' Hb'. rewrite lookup_insert_ne by (intros ->; done).
      apply Hready. by right. }
    exists lines', (ms0 ++ ms). rewrite Hstep, Hrun. simpl.
    split; [by rewrite app_assoc|]. split; [|split].
    + intros b' pts' Hb' Hpts'. apply elem_of_cons in Hb' as [->|Hb'].
      * rewrite Hpts in Hpts'. injection Hpts' as <-.
        split.
        -- rewrite Hout' by done. by rewrite lookup_insert_eq.
        -- intros Hun. apply elem_of_app. left. subst ms0. rewrite Hun. left.
      * destruct (Hin' b' pts' Hb') as [Hl Hw].
        { rewrite lookup_insert_ne by (intros ->; done). done. }
        split; [done|]. intros Hun. apply elem_of_app. right. by apply Hw.
    + intros b' Hb'. apply not_elem_of_cons in Hb' as [Hne Hb'].
      rewrite Hout' by done. by rewrite lookup_insert_ne.
    + intros b' Hb'. apply elem_of_app in Hb' as [Hb'|Hb'].
      * subst ms0. destruct (unfilled pts) eqn:Hun.
        -- apply list_elem_of_singleton in Hb'. injection Hb' as ->.
           split; [left | by exists pts].
        -- by apply elem_of_nil in Hb'.
      * destruct (Hmsg' b' Hb') as (Hbs & pts' & Hpts' & Hun).
        split; [by right|]. exists pts'. split; [|done].
        rewrite lookup_insert_ne in Hpts' by (intros ->; done). done.
Qed.

(** One assigned point alone stops the loop. *)
Lemma group_lines_one_point (bs : list value) (lines : gmap value entry) b pts w :
  lines !! b = Some (Slots pts) → length (assigned pts) = 1%nat →
  unfilled pts = true →
  ∃ e, group_lines (b :: bs) lines w
       = (mkWorld (this w) (printed w ++ [NotProperlyAssigned b]), Raise e).
Proof.
  intros Hpts Hlen Hun. simpl.
  unfold then_ at 1. unfold lift at 1. rewrite Hpts.
  unfold then_ at 1. unfold unfilled in Hun. rewrite Hun.
  unfold then_ at 1. unfold print at 1. unfold ret at 1.
  unfold then_ at 1. unfold lift at 1. fold (assigned pts).
  destruct (assigned pts) as [|pt [|]]; try done.
  destruct (make_LineString_one_point pt) as [e ->]. by exists e.
Qed.

(** A step of the loop, on a branch of which shapely makes a line and on a
    branch of which it makes none. *)
Lemma group_lines_cons_ready b bs (lines : gmap value entry) pts w :
  lines !! b = Some (Slots pts) → line_ready pts →
  group_lines (b :: bs) lines w
  = group_lines bs (<[b := Line (LineString (coords (assigned pts)))]> lines)
      (mkWorld (this w)
         (printed w ++ if unfilled pts then [NotProperlyAssigned b] else [])).
Proof.
  intros Hpts [Hpoints Hlen]. simpl.
  unfold then_ at 1. unfold lift at 1. rewrite Hpts.
  unfold then_ at 1. unfold unfilled.
  destruct (existsb is_int pts) eqn:Hint.
  - unfold then_ at 1. unfold print at 1. unfold ret at 1.
    unfold then_ at 1. unfold lift at 1.
    fold (assigned pts). by rewrite make_LineString_points.
  - unfold ret at 1. unfold then_ at 1. unfold lift at 1.
    rewrite assigned_all in Hpoints, Hlen |- * by done.
    rewrite make_LineString_points by done.
    rewrite app_nil_r. by destruct w.
Qed.

Lemma mapM_point_coord_Some pts cs :
  mapM point_coord pts = Some cs →
  Forall (λ pt, is_Some (point_coord pt)) pts ∧ length cs = length pts.
Proof.
  intros H%mapM_Some. induction H as [|pt c pts cs Hc _ [IH1 IH2]]; [done|].
  split; [constructor; [by eexists | done] | simpl; by f_equal].
Qed.

Lemma make_LineString_not_ready pts :
  ¬ line_ready pts → ∃ e, make_LineString (assigned pts) = Raise e.
Proof.
  intros Hnot. unfold make_LineString.
  destruct (mapM point_coord (assigned pts)) as [cs|] eqn:Hcs; [|by eexists].
  apply mapM_point_coord_Some in Hcs as [Hpoints Hlen].
  case_bool_decide as Hone; [by eexists|].
  destruct Hnot. split; [done | congruence].
Qed.

Lemma group_lines_cons_not_ready b bs (lines : gmap value entry) pts w :
  lines !! b = Some (Slots pts) → ¬ line_ready pts →
  ∃ e, group_lines (b :: bs) lines w
       = (mkWorld (this w)
            (printed w ++ if unfilled pts then [NotProperlyAssigned b] else []),
          Raise e).
Proof.
  intros Hpts Hnot. destruct (make_LineString_not_ready pts Hnot) as [e He].
  exists e. simpl.
  unfold then_ at 1. unfold lift at 1. rewrite Hpts.
  unfold then_ at 1. unfold unfilled.
  destruct (existsb is_int pts) eqn:Hint.
  - unfold then_ at 1. unfold print at 1. unfold ret at 1.
    unfold then_ at 1. unfold lift at 1.
    fold (assigned pts). by rewrite He.
  - unfold ret at 1. unfold then_ at 1. unfold lift at 1.
    rewrite assigned_all in He by done. rewrite He.
    rewrite app_nil_r. by destruct w.
Qed.

Lemma grows_group_lines bs (lines : gmap value entry) : grows (group_lines bs lines).
Proof.
  revert lines. induction bs as [|b bs IH]; intros lines; simpl.
  - apply grows_ret.
  - apply grows_then; [apply grows_lift|]. intros pts.
    apply grows_then.
    { destruct (existsb is_int pts); [|apply grows_ret].
      apply grows_then; [apply grows_print|]. intros _. apply grows_ret. }
    intros pts'. apply grows_then; [apply grows_lift|]. intros line. apply IH.
Qed.

(** A branch with a slot left at 0 is reported when the loop comes to it:
    when shapely makes a line of every branch before it. *)
Lemma group_lines_warns before b after (lines : gmap value entry) pts w :
  NoDup (before ++ b :: after) →
  (∀ b', b' ∈ before → ∃ pts', lines !! b' = Some (Slots pts') ∧ line_ready pts') →
  lines !! b = Some (Slots pts) → unfilled pts = true →
  NotProperlyAssigned b ∈ printed (group_lines (before ++ b :: after) lines w).1.
Proof.
  revert lines w. induction before as [|b0 before IH]; intros lines w Hnd Hready Hpts Hun.
  - simpl app. destruct (decide (line_ready pts)) as [Hr|Hr].
    + rewrite (group_lines_cons_ready b after lines pts w) by done.
      destruct (grows_group_lines after
                  (<[b := Line (LineString (coords (assigned pts)))]> lines)
                  (mkWorld (this w)
                     (printed w ++ if unfilled pts then [NotProperlyAssigned b] else [])))
        as [ms ->].
      simpl. rewrite Hun. apply elem_of_app. left. apply elem_of_app. right. left.
    + destruct (group_lines_cons_not_ready b after lines pts w Hpts Hr) as [e ->].
      simpl. rewrite Hun. apply elem_of_app. right. left.
  - rewrite <- app_comm_cons in Hnd |- *.
    apply NoDup_cons in Hnd as [Hb0 Hnd].
    destruct (Hready b0) as (pts0 & Hpts0 & Hr0); [left|].
    rewrite (group_lines_cons_ready b0 _ lines pts0 w) by done.
    apply IH; [done| | |done].
    + intros b' Hb'. rewrite lookup_insert_ne.
      * apply Hready. by right.
      * intros ->. apply Hb0, elem_of_app. by left.
    + rewrite lookup_insert_ne; [done|].
      intros ->. apply Hb0, elem_of_app. right. left.
Qed.

(** A branch of which shapely makes no line stops the loop: at this branch
    or at one before it. *)
Lemma group_lines_not_ready bs (lines : gmap value entry) w :
  (∀ b, b ∈ bs → ∃ pts, lines !! b = Some (Slots pts)) → NoDup bs →
  (∃ b pts, b ∈ bs ∧ lines !! b = Some (Slots pts) ∧ ¬ line_ready pts) →
  ∃ e w', group_lines bs lines w = (w', Raise e) ∧ this w' = this w.
Proof.
  revert lines w. induction bs as [|b0 bs IH]; intros lines w Hslots Hnd Hbad.
  - destruct Hbad as (b & pts & Hb & _). by apply elem_of_nil in Hb.
  - apply NoDup_cons in Hnd as [Hb0 Hnd].
    destruct (Hslots b0) as [pts0 Hpts0]; [left|].
    destruct (decide (line_ready pts0)) as [Hr|Hr].
    + rewrite (group_lines_cons_ready b0 bs lines pts0 w) by done.
      destruct (IH (<[b0 := Line (LineString (coords (assigned pts0)))]> lines)
                  (mkWorld (this w)
                     (printed w ++ if unfilled pts0
                                   then [NotProperlyAssigned b0] else [])))
        as (e & w' & Hrun & Hthis); [|done| |].
      * intros b Hb. rewrite lookup_insert_ne by (intros ->; done).
        apply Hslots. by right.
      * destruct Hbad as (b & pts & Hb & Hpts & Hnot).
        apply elem_of_cons in Hb as [->|Hb].
        -- rewrite Hpts0 in Hpts. injection Hpts as <-. done.
        -- exists b, pts. split; [done|]. split; [|done].
           by rewrite lookup_insert_ne by (intros ->; done).
      * by exists e, w'.
    + destruct (group_lines_cons_not_ready b0 bs lines pts0 w Hpts0 Hr) as [e ->].
      by eexists _, _.
Qed.

(** ** The assignment of the points *)


Lemma assign_groups_inv layer groupby_column order_column g :
  assign_groups layer groupby_column order_column = Ok g →
  groupby_column ∈ columns layer ∧
  ∃ geos order_rel,
    geometry layer = Ok geos ∧
    getitem layer groupby_column = Ok (groupbyvalues g) ∧
    np_unique (groupbyvalues g) = Ok (branches_counts g) ∧
    find_startnr (length (rows layer)) (fst <$> branches_counts g)
      (zip (groupbyvalues g) (order g)) = Ok (startnr g) ∧
    relative_order (zip (groupbyvalues g) (order g)) = Ok order_rel ∧
    assign_points
      (list_to_map ((λ '(branch, count), (branch, Slots (replicate count (VInt 0))))
                    <$> branches_counts g))
      (zip (zip (zip geos (order g)) (groupbyvalues g)) order_rel)
    = Ok (lines g).
Proof.
  unfold assign_groups. case_bool_decide as Hgb; [done|].
  intros H. inv_bind H. inv_bind H.
  destruct (negb _); [done|].
  inv_bind H. inv_bind H. inv_bind H. inv_bind H. inv_bind H. inv_bind H.
  injection H as <-. simpl.
  split; [first [done | by apply dec_stable]|].
  eexists _, _. repeat split; eassumption || reflexivity.
Qed.

Lemma fmap_fst_pair {A B} (f : A → B) (l : list A) :
  ((λ b, (b, f b)) <$> l).*1 = l.
Proof. induction l as [|x l IH]; simpl; [done|]. f_equal. exact IH. Qed.

Lemma np_unique_NoDup values bc :
  np_unique values = Ok bc → NoDup bc.*1.
Proof.
  unfold np_unique. intros H. inv_bind H. injection H as <-.
  rewrite fmap_fst_pair. apply NoDup_remove_dups.
Qed.

Lemma initial_slots (bc : list (value * nat)) b :
  b ∈ bc.*1 →
  ∃ pts, (list_to_map ((λ '(branch, count),
                          (branch, Slots (replicate count (VInt 0)))) <$> bc)
          : gmap value entry) !! b = Some (Slots pts).
Proof.
  induction bc as [|[b0 c0] bc IH]; simpl; intros Hin.
  - by apply elem_of_nil in Hin.
  - destruct (decide (b = b0)) as [->|Hne].
    + rewrite lookup_insert_eq. eauto.
    + rewrite lookup_insert_ne by done. apply IH.
      by apply elem_of_cons in Hin as [?|?].
Qed.

Lemma assign_points_slots (lines lines' : gmap value entry) rows4 b :
  assign_points lines rows4 = Ok lines' →
  (∃ pts, lines !! b = Some (Slots pts)) →
  ∃ pts, lines' !! b = Some (Slots pts).
Proof.
  unfold assign_points. revert lines.
  induction rows4 as [|[[[point volgnr] branch] rel] rows4 IH]; intros lines; simpl.
  - by intros [= <-].
  - intros H Hb. inv_bind H. apply (IH _ H).
    destruct (lines !! branch) as [[pts'|]|] eqn:Hbr; try done.
    case_bool_decide; [|done]. injection E as <-.
    destruct (decide (b = branch)) as [->|Hne].
    + rewrite lookup_insert_eq. eauto.
    + by rewrite lookup_insert_ne.
Qed.

Lemma assign_points_slots_any (lines lines' : gmap value entry) rows4 b :
  assign_points lines rows4 = Ok lines' →
  is_Some (lines !! b) → is_Some (lines' !! b).
Proof.
  unfold assign_points. revert lines.
  induction rows4 as [|[[[point volgnr] branch] rel] rows4 IH]; intros lines; simpl.
  - by intros [= <-].
  - intros H Hb. inv_bind H. apply (IH _ H).
    destruct (lines !! branch) as [[pts'|]|] eqn:Hbr; try done.
    case_bool_decide; [|done]. injection E as <-.
    destruct (decide (b = branch)) as [->|Hne].
    + rewrite lookup_insert_eq. eauto.
    + by rewrite lookup_insert_ne.
Qed.

Lemma assign_groups_slots layer groupby_column order_column g b :
  assign_groups layer groupby_column order_column = Ok g →
  b ∈ (branches_counts g).*1 → ∃ pts, lines g !! b = Some (Slots pts).
Proof.
  intros Hg Hb.
  apply assign_groups_inv in Hg as (_ & geos & order_rel & _ & _ & _ & _ & _ & Hl).
  eapply assign_points_slots; [done|]. by apply initial_slots.
Qed.

Lemma multipoint_branches_NoDup layer groupby_column order_column g :
  assign_groups layer groupby_column order_column = Ok g →
  NoDup (multipoint_branches g).
Proof.
  intros Hg.
  apply assign_groups_inv in Hg as (_ & geos & order_rel & _ & _ & Hu & _).
  apply np_unique_NoDup in Hu. unfold multipoint_branches.
  eapply sublist_NoDup; [done|]. apply fmap_sublist, sublist_filter.
Qed.

Lemma multipoint_branches_elem g b :
  b ∈ multipoint_branches g → b ∈ (branches_counts g).*1.
Proof.
  unfold multipoint_branches. intros Hin.
  apply list_elem_of_fmap in Hin as (bc & -> & Hin).
  apply list_elem_of_filter in Hin as [_ Hin].
  apply list_elem_of_fmap. by exists bc.
Qed.

(** ** The grouping inside [read_gpkg_layer] *)

Section Grouping.

Variable intersects : Geometry → Geometry → bool.

(** What follows the grouping in [read_gpkg_layer]. *)
Lemma grows_after_grouping index_col id_col
    (column_mapping : option (gmap string string))
    check_columns check_geotype (clip_ : option value) gdf :
  grows
    (let gdf := match column_mapping with
                | Some m => rename m gdf
                | None => gdf
                end in
     do multi <- lift (multipolygon_in_types gdf);
     do gdf <- (if multi then explode_and_split id_col gdf else ret gdf);
     do_ set_data gdf index_col check_columns check_geotype;
     match clip_ with
     | Some g => clip intersects g
     | None => ret ()
     end).
Proof.
  simpl. apply grows_then; [apply grows_lift|]. intros multi.
  apply grows_then.
  { destruct multi; [apply grows_explode_and_split | apply grows_ret]. }
  intros gdf'. apply grows_then; [apply grows_set_data|]. intros _.
  destruct clip_; [apply grows_clip | apply grows_ret].
Qed.

Lemma read_gpkg_layer_assign_raises layer index_col groupby_column order_column
    id_col column_mapping check_columns check_geotype clip_ e w :
  assign_groups (lowered layer) groupby_column order_column = Raise e →
  read_gpkg_layer intersects true (Ok layer) index_col (Some groupby_column)
    order_column id_col column_mapping check_columns check_geotype clip_ w
  = (w, Raise e).
Proof.
  intros Hg. unfold read_gpkg_layer. simpl.
  unfold then_ at 1. unfold lift at 1.
  unfold then_ at 1. unfold group_points.
  unfold then_ at 1. unfold lift at 1. by rewrite Hg.
Qed.

Lemma read_gpkg_layer_printed layer index_col groupby_column order_column
    id_col column_mapping check_columns check_geotype clip_ g w :
  assign_groups (lowered layer) groupby_column order_column = Ok g →
  ∃ ms,
    printed (read_gpkg_layer intersects true (Ok layer) index_col
               (Some groupby_column) order_column id_col column_mapping
               check_columns check_geotype clip_ w).1
    = printed (group_lines (multipoint_branches g) (lines g) w).1 ++ ms.
Proof.
  intros Hg. unfold read_gpkg_layer. simpl.
  unfold then_ at 1. unfold lift at 1.
  unfold then_ at 1. unfold group_points.
  unfold then_ at 1. unfold lift at 1. rewrite Hg.
  unfold then_ at 1.
  destruct (group_lines _ _ w) as [w1 [lines'|e]]; simpl.
  2:{ exists []. by rewrite app_nil_r. }
  unfold lift at 1.
  destruct (select_features _ _ _ _) as [gdf|e]; simpl.
  2:{ exists []. by rewrite app_nil_r. }
  apply (grows_after_grouping index_col id_col column_mapping check_columns
           check_geotype clip_ gdf w1).
Qed.

Lemma read_gpkg_layer_group_raises layer index_col groupby_column order_column
    id_col column_mapping check_columns check_geotype clip_ g e w w' :
  assign_groups (lowered layer) groupby_column order_column = Ok g →
  group_lines (multipoint_branches g) (lines g) w = (w', Raise e) →
  read_gpkg_layer intersects true (Ok layer) index_col (Some groupby_column)
    order_column id_col column_mapping check_columns check_geotype clip_ w
  = (w', Raise e).
Proof.
  intros Hg Hl. unfold read_gpkg_layer. simpl.
  unfold then_ at 1. unfold lift at 1.
  unfold then_ at 1. unfold group_points.
  unfold then_ at 1. unfold lift at 1. rewrite Hg.
  unfold then_ at 1. by rewrite Hl.
Qed.

(** C2, as amended.  In [read_gpkg_layer] with a column to group by, once
    the points are assigned to the slots of their branches: a branch with
    two points or more and a slot left unfilled is reported, when of every
    branch before it in the loop shapely makes a line (its assigned slots
    hold points, and not one point alone); when shapely makes a line of
    every branch with two points or more, the loop ends well and the line
    of every branch goes through its assigned points only; a branch of
    which shapely makes no line stops the reader with an exception and
    nothing is stored.  [ValueError] is raised when the column to group by
    is not a column of the layer, and when the first geometry of the layer
    is not a point. *)
Theorem read_gpkg_layer_flags_unfilled_branches
    (layer : GeoDataFrame) (index_col : option string)
    (groupby_column : string) (order_column : option string) (id_col : string)
    (column_mapping : option (gmap string string))
    (check_columns check_geotype : bool) (clip_ : option value)
    (self : ExtendedGeoDataFrame) :
  let m := read_gpkg_layer intersects true (Ok layer) index_col
             (Some groupby_column) order_column id_col column_mapping
             check_columns check_geotype clip_ in
  (∀ g, assign_groups (lowered layer) groupby_column order_column = Ok g →
        (∀ before b after pts,
           multipoint_branches g = before ++ b :: after →
           (∀ b' pts', b' ∈ before → lines g !! b' = Some (Slots pts') →
                       line_ready pts') →
           lines g !! b = Some (Slots pts) → unfilled pts = true →
           NotProperlyAssigned b ∈ output m self) ∧
        ((∀ b pts, b ∈ multipoint_branches g →
                   lines g !! b = Some (Slots pts) → line_ready pts) →
         ∃ lines',
           (group_lines (multipoint_branches g) (lines g) (mkWorld self [])).2
           = Ok lines' ∧
           ∀ b pts, b ∈ multipoint_branches g →
                    lines g !! b = Some (Slots pts) →
                    lines' !! b = Some (Line (LineString (coords (assigned pts)))) ∧
                    (unfilled pts = true → NotProperlyAssigned b ∈ output m self)) ∧
        (∀ b pts, b ∈ multipoint_branches g →
                  lines g !! b = Some (Slots pts) → ¬ line_ready pts →
                  ∃ e, outcome m self = Raise e ∧ after m self = self)) ∧
  (groupby_column ∉ columns (lowered layer) → is_ValueError (outcome m self)) ∧
  (∀ first rest, geometry (lowered layer) = Ok (first :: rest) →
                 isinstance first [CPoint] = false →
                 is_ValueError (outcome m self)).
Proof.
  intros m. subst m. split; [|split].
  - intros g Hg.
    pose proof (multipoint_branches_NoDup _ _ _ g Hg) as Hnd.
    assert (Hslots : ∀ b, b ∈ multipoint_branches g →
                          ∃ pts, lines g !! b = Some (Slots pts)).
    { intros b Hb. apply (assign_groups_slots _ _ _ g b Hg).
      by apply multipoint_branches_elem. }
    destruct (read_gpkg_layer_printed layer index_col groupby_column order_column
                id_col column_mapping check_columns check_geotype clip_ g
                (mkWorld self []) Hg) as [ms' Hprinted].
    split; [|split].
    + intros before b after pts Hbs Hready Hpts Hun.
      unfold output. rewrite Hprinted. apply elem_of_app. left.
      rewrite Hbs in Hnd |- *. apply (group_lines_warns _ _ _ _ pts); try done.
      intros b' Hb'. destruct (Hslots b') as [pts' Hpts'].
      { rewrite Hbs. apply elem_of_app. by left. }
      exists pts'. split; [done|]. by eapply Hready.
    + intros Hready.
      destruct (group_lines_ready (multipoint_branches g) (lines g)
                  (mkWorld self [])) as (lines' & ms & Hrun & Hin & _ & _);
        [done| |].
      { intros b Hb. destruct (Hslots b Hb) as [pts Hpts].
        exists pts. split; [done|]. by eapply Hready. }
      exists lines'. rewrite Hrun. split; [done|].
      intros b pts Hb Hpts. destruct (Hin b pts Hb Hpts) as [Hline Hmsg].
      split; [done|]. intros Hun. unfold output.
      rewrite Hprinted, Hrun. simpl. apply elem_of_app. left. by apply Hmsg.
    + intros b pts Hb Hpts Hnot.
      destruct (group_lines_not_ready (multipoint_branches g) (lines g)
                  (mkWorld self []) Hslots Hnd) as (e & w' & Hrun & Hthis).
      { by exists b, pts. }
      exists e. unfold outcome, after, run.
      rewrite (read_gpkg_layer_group_raises _ _ _ _ _ _ _ _ _ g e _ w' Hg Hrun).
      by simpl in *.
  - intros Hgb. unfold outcome, run.
    erewrite read_gpkg_layer_assign_raises; [by eexists|].
    unfold assign_groups. by rewrite bool_decide_true.
  - intros first rest Hgeo Hfirst. unfold outcome, run.
    destruct (decide (groupby_column ∈ columns (lowered layer))) as [Hgb|Hgb].
    + erewrite read_gpkg_layer_assign_raises; [by eexists|].
      unfold assign_groups. rewrite bool_decide_false by (by intros H; apply H).
      rewrite Hgeo. simpl. by rewrite Hfirst.
    + erewrite read_gpkg_layer_assign_raises; [by eexists|].
      unfold assign_groups. by rewrite bool_decide_true.
Qed.

End Grouping.

(** ** The starting number of a branch *)

(** The starting number that is found for a branch whose points all have
    a number is never above the number of rows plus 1, whatever the
    numbers. *)
Lemma find_startnr_at_most nrows branches pairs (startnr : gmap value value)
    (b : value) (s : value) :
  Forall (λ p, is_int p.2 = true) pairs →
  find_startnr nrows branches pairs = Ok startnr →
  startnr !! b = Some s → ∃ z, s = VInt z ∧ (z ≤ Z.of_nat nrows + 1)%Z.
Proof.
  unfold find_startnr.
  set (nan_keys := existsb is_int branches).
  set (start0 := list_to_map _ : gmap value value).
  assert (H0 : ∀ (b : value) (s : value),
            start0 !! b = Some s → ∃ z, s = VInt z ∧ (z ≤ Z.of_nat nrows + 1)%Z).
  { subst start0. clear. intros b s.
    induction branches as [|b0 branches IH]; simpl; [done|].
    destruct (decide (b = b0)) as [->|Hne].
    - rewrite lookup_insert_eq. intros [= <-]. eexists. split; [done|lia].
    - by rewrite lookup_insert_ne. }
  clearbody start0 nan_keys. intros Hints. revert start0 H0 b s.
  induction Hints as [|[branch volgnr] pairs Hint _ IH]; intros start0 H0 b s; simpl.
  - intros [= <-]. apply H0.
  - intros H. inv_bind H. apply (IH a); [|done].
    intros b' s'.
    destruct (nan_keys && isnull branch); [done|].
    destruct (start0 !! branch) as [s0|] eqn:Hs0; [|done].
    destruct (H0 _ _ Hs0) as (z0 & -> & Hz0).
    inv_bind E. injection E as <-.
    destruct volgnr as [|z| |]; try done.
    simpl in E0. injection E0 as <-.
    destruct (decide (b' = branch)) as [->|Hne].
    + rewrite lookup_insert_eq. intros [= <-]. eexists. split; [done|].
      destruct (z0 <? z)%Z eqn:Hlt; lia.
    + rewrite lookup_insert_ne by done. apply H0.
Qed.

(** X5.  The search for the starting number of a branch begins at the
    number of rows plus 1 and takes minima: when every point has a number,
    no starting number is above the number of rows plus 1, whatever the
    numbers of the points. *)
Theorem assign_groups_startnr_at_most layer groupby_column order_column g
    (b : value) (s : value) :
  assign_groups layer groupby_column order_column = Ok g →
  Forall (λ v, is_int v = true) (order g) →
  startnr g !! b = Some s →
  ∃ z, s = VInt z ∧ (z ≤ Z.of_nat (length (rows layer)) + 1)%Z.
Proof.
  intros Hg Hints.
  apply assign_groups_inv in Hg as (_ & ? & ? & _ & _ & _ & Hs & _).
  eapply find_startnr_at_most; [|done].
  clear -Hints. revert Hints. generalize (groupbyvalues g).
  induction (order g) as [|v vs IH]; intros [|b bs] Hints; simpl; try done.
  apply Forall_cons in Hints as [Hv Hvs]. constructor; [done | by apply IH].
Qed.

(** ** A branch of one point *)

Lemma keeps_self_ret {A} (a : A) : keeps_self (ret a).
Proof. done. Qed.

Lemma keeps_self_lift {A} (r : result A) : keeps_self (lift r).
Proof. done. Qed.

Lemma keeps_self_print ms : keeps_self (print ms).
Proof. done. Qed.

Lemma keeps_self_then {A B} (m : method A) (k : A → method B) :
  keeps_self m → (∀ a, keeps_self (k a)) → keeps_self (then_ m k).
Proof.
  intros Hm Hk w. unfold then_. specialize (Hm w).
  destruct (m w) as [w' [a|e]]; simpl in *; [|done].
  by rewrite Hk.
Qed.

Lemma group_lines_this (bs : list value) (lines : gmap value entry) :
  keeps_self (group_lines bs lines).
Proof.
  revert lines. induction bs as [|b bs IH]; intros lines; simpl.
  - apply keeps_self_ret.
  - apply keeps_self_then; [apply keeps_self_lift|]. intros pts.
    apply keeps_self_then.
    { destruct (existsb is_int pts); [|apply keeps_self_ret].
      apply keeps_self_then; [apply keeps_self_print|].
      intros _. apply keeps_self_ret. }
    intros pts'. apply keeps_self_then; [apply keeps_self_lift|].
    intros line. apply IH.
Qed.

Lemma zero_single_points_raises groupbyvalues b singles order :
  ∃ e, zero_single_points groupbyvalues (b :: singles) order = Raise e.
Proof. by eexists. Qed.

Section SinglePoint.

Variable intersects : Geometry → Geometry → bool.

Lemma read_gpkg_layer_single_point_run layer index_col groupby_column
    order_column id_col column_mapping check_columns check_geotype clip_ g w :
  assign_groups (lowered layer) groupby_column order_column = Ok g →
  singlepoint_branches g ≠ [] →
  ∃ w' e,
    read_gpkg_layer intersects true (Ok layer) index_col (Some groupby_column)
      order_column id_col column_mapping check_columns check_geotype clip_ w
    = (w', Raise e) ∧ this w' = this w.
Proof.
  intros Hg Hsingle. unfold read_gpkg_layer.
  simpl. unfold then_ at 1. unfold lift at 1.
  unfold then_ at 1. unfold group_points.
  unfold then_ at 1. unfold lift at 1. rewrite Hg.
  unfold then_ at 1.
  pose proof (group_lines_this (multipoint_branches g) (lines g) w) as Hthis.
  destruct (group_lines _ _ _) as [w1 [lines'|e]]; simpl in *.
  2:{ by exists w1, e. }
  unfold lift at 1. unfold select_features.
  destruct (singlepoint_branches g) as [|b singles]; [done|].
  destruct (zero_single_points_raises (groupbyvalues g) b singles (order g))
    as [e ->].
  simpl. by exists w1, e.
Qed.

(** X4.  Whenever a branch of the layer has one point alone,
    [read_gpkg_layer] with that column to group by raises, and the instance
    is as it was. *)
Theorem read_gpkg_layer_single_point_raises layer index_col groupby_column
    order_column id_col column_mapping check_columns check_geotype clip_ g self :
  assign_groups (lowered layer) groupby_column order_column = Ok g →
  singlepoint_branches g ≠ [] →
  let m := read_gpkg_layer intersects true (Ok layer) index_col
             (Some groupby_column) order_column id_col column_mapping
             check_columns check_geotype clip_ in
  (∃ e, outcome m self = Raise e) ∧ after m self = self.
Proof.
  intros Hg Hsingle m. subst m. unfold outcome, after, run.
  destruct (read_gpkg_layer_single_point_run layer index_col groupby_column
              order_column id_col column_mapping check_columns check_geotype
              clip_ g (mkWorld self []) Hg Hsingle) as (w' & e & -> & Hthis).
  simpl. split; [by eexists | done].
Qed.

End SinglePoint.

(** ** The column of identifiers in [read_shp] *)

Section Identifiers.

Variable intersects : Geometry → Geometry → bool.
Variable transform : CRS → CRS → Geometry → Geometry.

Lemma read_shp_without_id_col file index_col check_columns proj_crs
    clip_ check_geotype id_col w :
  geometry_name ∈ columns file → id_col ∉ columns file →
  read_shp intersects transform (Ok file) index_col None check_columns
    proj_crs clip_ check_geotype id_col false None w
  = (w, Raise (KeyError id_col)).
Proof.
  intros Hgeo Hid. unfold read_shp.
  destruct (index_of_is_Some _ _ Hgeo) as [i Hi].
  unfold then_ at 1. unfold get_self at 1.
  unfold then_ at 1. unfold lift at 1.
  unfold then_ at 1. unfold lift at 1.
  unfold then_ at 1. unfold lift at 1.
  unfold drop_null_geometry. rewrite Hi. simpl.
  unfold then_ at 1. unfold explode_and_split.
  unfold then_ at 1. unfold lift at 1. unfold explode. simpl. rewrite Hi.
  unfold then_ at 1. unfold lift at 1. simpl.
  rewrite getitem_KeyError by done. done.
Qed.

(** X16.  Whatever the geometries of a file, [read_shp] looks up the column
    of identifiers: for a file without that column, [KeyError] is raised and
    the instance is as it was. *)
Theorem read_shp_KeyError_without_id_col file index_col check_columns proj_crs
    clip_ check_geotype id_col self :
  geometry_name ∈ columns file → id_col ∉ columns file →
  let m := read_shp intersects transform (Ok file) index_col None check_columns
             proj_crs clip_ check_geotype id_col false None in
  outcome m self = Raise (KeyError id_col) ∧ after m self = self.
Proof.
  intros Hgeo Hid m. subst m. unfold outcome, after, run.
  by rewrite read_shp_without_id_col.
Qed.

End Identifiers.

(** ** The state of the instance

    [wf_self] holds of an instance after [set_data] has stored a frame with
    a geometry column into it, from [__init__] on. *)

Lemma init_frame geotype required cols :
  NoDup (cols ++ required) →
  wf_frame (frame (init geotype required cols)) ∧
  required_columns (init geotype required cols)
  ⊆ columns (frame (init geotype required cols)).
Proof.
  intros Hnd. simpl. split.
  - split; [done|]. split; [constructor | done].
  - intros c Hc. apply elem_of_app. by right.
Qed.

Lemma setitem_frame df c vals df' :
  NoDup (columns df) → setitem df c vals = Ok df' →
  NoDup (columns df') ∧ columns df ⊆ columns df' ∧ c ∈ columns df' ∧
  Forall (λ r, length (cells r) = length (columns df')) (rows df').
Proof.
  intros Hnd. unfold setitem. case_decide; [|done].
  destruct (index_of c (columns df)) as [i|] eqn:Hi; intros [= <-]; simpl.
  - split; [done|]. split; [done|].
    split; [by eapply list_elem_of_lookup_2, index_of_Some|].
    apply Forall_zip_with_l. intros r v. simpl.
    by rewrite length_insert, length_resize.
  - apply index_of_None in Hi.
    split.
    { apply NoDup_app. split; [done|]. split; [|apply NoDup_singleton].
      intros x Hx Hx'. apply list_elem_of_singleton in Hx'. by subst. }
    split; [intros x Hx; apply elem_of_app; by left|].
    split; [apply elem_of_app; right; left|].
    apply Forall_zip_with_l. intros r v. simpl.
    rewrite !length_app, length_resize. done.
Qed.

Lemma copy_loop_frame crs_vals its df :
  NoDup (columns df) →
  Forall (λ r, length (cells r) = length (columns df)) (rows df) →
  let df' := (copy_loop crs_vals its df).1 in
  NoDup (columns df') ∧ columns df ⊆ columns df' ∧
  Forall (λ r, length (cells r) = length (columns df')) (rows df') ∧
  ((copy_loop crs_vals its df).2 = Ok () → its.*1 ⊆ columns df').
Proof.
  revert df. induction its as [|[c v] its IH]; intros df Hnd Hwf; simpl.
  - split; [done|]. split; [done|]. split; [done|].
    intros _ x Hx. by apply elem_of_nil in Hx.
  - destruct (assign_frame crs_vals df c v) as [df1|e] eqn:H1; simpl.
    2:{ split; [done|]. split; [done|]. split; [done|]. done. }
    unfold assign_frame in H1.
    destruct (setitem df c v) as [df2|] eqn:H2; simpl in H1; [|done].
    destruct (setitem_frame df c v df2 Hnd H2) as (Hnd2 & Hsub2 & Hc2 & Hwf2).
    assert (Hdf1 : columns df1 = columns df2 ∧ rows df1 = rows df2).
    { injection H1 as <-. by case_decide. }
    destruct Hdf1 as [Hc1 Hr1].
    destruct (IH df1) as (Hnd' & Hsub' & Hwf' & Hits').
    { by rewrite Hc1. }
    { by rewrite Hc1, Hr1. }
    split; [done|]. split.
    { intros x Hx. apply Hsub'. rewrite Hc1. by apply Hsub2. }
    split; [done|].
    intros Hok x Hx. apply elem_of_cons in Hx as [->|Hx].
    + apply Hsub'. by rewrite Hc1.
    + by apply Hits'.
Qed.

Lemma copy_loop_from_empty crs_vals m its df :
  rows df = [] → Forall (λ cv, length cv.2 = m) its →
  (copy_loop crs_vals its df).2 = Ok () ∧
  (its ≠ [] → length (rows (copy_loop crs_vals its df).1) = m).
Proof.
  intros Hrows Hlen. destruct its as [|[c v] its]; [done|]. simpl.
  apply Forall_cons in Hlen as [Hv Hlen]. simpl in Hv.
  destruct (assign_frame crs_vals df c v) as [df1|e] eqn:H1.
  - destruct (copy_loop_rows_kept crs_vals m its df1) as [Hk Hok]; [done| |done].
    apply assign_frame_rows in H1. lia.
  - by apply assign_frame_ValueError in H1 as (_ & ? & _).
Qed.

(** X8.  [set_data] leaves a well-formed instance behind, however it ends:
    on an instance whose frame is well formed and has the required columns,
    with an input that has a geometry column, the index column if one is
    given and, if they are checked, the required columns, the frame of the
    instance has distinct column names, a cell for every column in every
    row, the required columns and the geometry column. *)
Theorem set_data_establishes_wf_self self gdf index_col check_columns check_geotype :
  wf_frame (frame self) → required_columns self ⊆ columns (frame self) →
  geometry_name ∈ columns gdf →
  (∀ c, index_col = Some c → c ∈ columns gdf) →
  (check_columns = true → required_columns self ⊆ columns gdf) →
  wf_self (after (set_data gdf index_col check_columns check_geotype) self).
Proof.
  intros (Hnd & Hwf & Hne) Hreq Hgeo Hindex Hcheck.
  rewrite set_data_after. unfold set_data_steps.
  assert (Hmiss : (if check_columns
                   then missing_column (required_columns self) (columns gdf)
                   else None) = None).
  { destruct check_columns; [|done]. by apply missing_column_None, Hcheck. }
  rewrite Hmiss.
  assert (Hrows1 : rows (cleared (frame self)) = []).
  { destruct (cleared_empty (frame self)) as [|Hc]; [done|].
    rewrite cleared_columns in Hc. unfold cleared, empty.
    destruct (rows (frame self)) eqn:Hr; simpl; [by rewrite Hr|].
    exfalso. by apply Hne. }
  assert (Hits : items gdf ≠ []).
  { intros Hits. rewrite <- items_columns, Hits in Hgeo.
    by apply elem_of_nil in Hgeo. }
  destruct (copy_loop_frame (crs gdf) (items gdf) (cleared (frame self)))
    as (Hnd2 & Hsub2 & Hwf2 & Hits2).
  { by rewrite cleared_columns. }
  { rewrite Hrows1. constructor. }
  destruct (copy_loop_from_empty (crs gdf) (length (rows gdf)) (items gdf)
              (cleared (frame self)) Hrows1 (items_length gdf)) as [Hok Hlen].
  specialize (Hlen Hits).
  specialize (Hits2 Hok). rewrite items_columns, cleared_columns in *.
  destruct (copy_loop _ _ _) as [df2 r2]. simpl in *. subst r2.
  assert (Hlabels : ∃ labels name, length labels = length (rows gdf) ∧
            index_step gdf index_col df2 = set_index df2 labels name).
  { destruct index_col as [c|]; simpl.
    - destruct (getitem_is_Ok gdf c) as [labels Hl]; [by apply Hindex|].
      exists labels, (Some c). rewrite Hl.
      split; [by eapply getitem_length | done].
    - exists (index gdf), (index_name gdf). unfold index.
      by rewrite length_fmap. }
  destruct Hlabels as (labels & name & Hlen' & ->).
  destruct (set_index_Ok df2 labels name) as (df3 & -> & _ & Hc3 & _ & _ & Hr3);
    [lia|].
  simpl. split; [|split]; simpl.
  - split; [by rewrite Hc3|]. split.
    + rewrite Hc3.
      apply (Forall_fmap cells (λ cs : list value, length cs = length (columns df2))).
      rewrite Hr3.
      by apply (Forall_fmap cells (λ cs : list value, length cs = length (columns df2))).
    + intros _ Hnil. rewrite Hc3 in Hnil. specialize (Hits2 _ Hgeo).
      rewrite Hnil in Hits2. by apply elem_of_nil in Hits2.
  - intros c Hc. rewrite Hc3. by apply Hsub2, Hreq.
  - rewrite Hc3. by apply Hits2.
Qed.

End Properties.

(** * The examples *)

(** ** The readers on example files *)

Section Examples.

#[local] Existing Instance example_library.

Variable intersects : Geometry → Geometry → bool.
Variable transform : CRS → CRS → Geometry → Geometry.

(** Points numbered 1, 2 give the line of their branch. *)
Example read_grouped_dense :
  run (read_grouped intersects dense_layer) branch_store
  = (mkExtended
       (mkFrame ["branch"; "nr"; "geometry"]
          [mkRow (VInt 0) [VStr "A"; VInt 1; VGeom (LineString [(0, 0); (1, 1)])]]
          None (Some 28992))
       ["branch"] [CLineString],
     Ok ()).
Proof. reflexivity. Qed.

(** Numbers with gaps, not from 1 and not in the order of the rows, as long
    as the first number of a branch is not above the number of rows plus 1. *)
Example read_grouped_mixed :
  run (read_grouped intersects mixed_layer) branch_store
  = (mkExtended
       (mkFrame ["branch"; "nr"; "geometry"]
          [mkRow (VInt 1)
             [VStr "A"; VInt 2; VGeom (LineString [(1, 1); (9, 9); (0, 0)])];
           mkRow (VInt 3)
             [VStr "B"; VInt 3; VGeom (LineString [(6, 6); (5, 5)])]]
          None (Some 28992))
       ["branch"] [CLineString],
     Ok ()).
Proof. reflexivity. Qed.

(** C1.  A branch of two points numbered 10 and 20, in a layer of two rows:
    [read_gpkg_layer] returns and the instance has no feature, where the
    claim has the line from (0, 0) to (1, 1). *)
Theorem read_gpkg_layer_no_line_for_numbers_above_row_count :
  outcome (read_grouped intersects sparse_layer) branch_store = Ok () ∧
  rows (frame (after (read_grouped intersects sparse_layer) branch_store)) = [] ∧
  (∃ g, assign_groups sparse_layer "branch" (Some "nr") = Ok g ∧
        startnr g !! VStr "A" = Some (VInt 3)).
Proof.
  split; [reflexivity|]. split; [reflexivity|].
  eexists. split; [reflexivity|]. by_computation.
Qed.

(** C10.  A branch of one point beside a branch of two: [read_gpkg_layer]
    raises [TypeError] where the order of the single point is to be set to
    0, and the instance is as it was: no feature of any branch is loaded. *)
Theorem read_gpkg_layer_TypeError_for_single_point_branch :
  outcome (read_grouped intersects single_layer) branch_store
  = Raise (TypeError "'RangeIndex' object is not callable") ∧
  after (read_grouped intersects single_layer) branch_store = branch_store.
Proof. split; reflexivity. Qed.

(** C7.  Two single-part features with the same code, read with the
    defaults: their codes are stored as A_0 and A_1. *)
Theorem read_shp_renames_codes_of_single_parts :
  outcome (read_shp_default intersects transform twin_culverts) point_store = Ok () ∧
  getitem (frame (after (read_shp_default intersects transform twin_culverts)
                    point_store)) "code"
  = Ok [VStr "A_0"; VStr "A_1"] ∧
  getitem twin_culverts "code" = Ok [VStr "A"; VStr "A"] ∧
  output (read_shp_default intersects transform twin_culverts) point_store
  = [SplitIntoParts (VStr "A")].
Proof. repeat split; reflexivity. Qed.

(** With distinct codes the features are stored as they are read. *)
Example read_shp_distinct_codes :
  frame (after (read_shp_default intersects transform culverts) point_store)
  = culverts.
Proof. reflexivity. Qed.

(** C9.  A file without a column "code" whose features have no geometry,
    read with the defaults: [KeyError] for the column of identifiers, before
    the number of rows is looked at. *)
Theorem read_shp_KeyError_before_empty_check :
  outcome (read_shp_default intersects transform no_geometry_no_code_file)
    point_store
  = Raise (KeyError "code") ∧
  after (read_shp_default intersects transform no_geometry_no_code_file)
    point_store = point_store.
Proof. split; reflexivity. Qed.

(** With the column of identifiers the empty file is reported. *)
Example read_shp_IOError_when_empty :
  outcome (read_shp_default intersects transform no_geometry_file) point_store
  = Raise (IOError "Imported shapefile contains no rows.") ∧
  after (read_shp_default intersects transform no_geometry_file) point_store
  = point_store.
Proof. split; reflexivity. Qed.

End Examples.

Section Witnesses.

#[local] Existing Instance example_library.



(** [KeyError] for an index column that the input does not have, with every
    required column present. *)
Lemma set_data_KeyError_for_index_col :
  ¬ (is_KeyError (outcome (set_data culverts (Some "id") true true) point_store) ↔
     ∃ c, c ∈ required_columns point_store ∧ c ∉ columns culverts).
Proof.
  intros [H _]. destruct H as (c & Hin & Hnin).
  - exists "id". reflexivity.
  - apply Hnin. simpl in Hin. apply list_elem_of_singleton in Hin as ->.
    by_computation.
Qed.

(** ** Instances *)

Lemma set_data_KeyError_iff_required_column_absent_witness :
  (∀ c, Some "code" = Some c → c ∈ columns culverts) ∧
  required_columns point_store ⊆ columns culverts ∧
  wf_frame culverts ∧ wf_frame (frame point_store) ∧
  (is_KeyError (outcome (set_data culverts (Some "code") true true) point_store) ↔
   ∃ c, c ∈ required_columns point_store ∧ c ∉ columns culverts) ∧
  (∀ c, c ∈ columns culverts →
     getitem (frame (after (set_data culverts (Some "code") true true) point_store)) c
     = getitem culverts c) ∧
  Ok (index (frame (after (set_data culverts (Some "code") true true) point_store)))
  = getitem culverts "code".
Proof.
  assert (H0 : ∀ c, Some "code" = Some c → c ∈ columns culverts).
  { intros c [= <-]. by_computation. }
  assert (H1 : required_columns point_store ⊆ columns culverts) by by_computation.
  assert (H2 : wf_frame culverts).
  { split; [by_computation|]. split; [by_computation | discriminate]. }
  assert (H3 : wf_frame (frame point_store)).
  { split; [by_computation|]. split; [by_computation | discriminate]. }
  pose proof (set_data_KeyError_iff_required_column_absent
                point_store culverts (Some "code") true H0) as [Hiff Hstored].
  specialize (Hstored H1 H2 H3).
  split; [exact H0|]. split; [exact H1|]. split; [exact H2|]. split; [exact H3|].
  split; [exact Hiff | exact Hstored].
Defined.

(** [KeyError], not [TypeError], for an index column that the input does not
    have, although the instance is left with points and requires lines. *)
Lemma set_data_no_TypeError_for_index_col :
  ¬ (is_TypeError (outcome (set_data culverts (Some "id") true true) line_store) ↔
     ∃ geos geo,
       geometry (frame (after (set_data culverts (Some "id") true true) line_store))
       = Ok geos ∧ geo ∈ geos ∧ isinstance geo (geotype line_store) = false).
Proof.
  intros [_ H]. destruct H as [why Hwhy].
  - exists [pt 0 0; pt 1 1], (pt 0 0).
    split; [reflexivity|]. split; [left | reflexivity].
  - discriminate Hwhy.
Qed.

Lemma set_data_TypeError_iff_geometry_not_geotype_witness :
  (∀ c, Some "code" = Some c → c ∈ columns culverts) ∧
  (is_TypeError (outcome (set_data culverts (Some "code") true true) line_store) ↔
   ∃ geos geo,
     geometry (frame (after (set_data culverts (Some "code") true true) line_store))
     = Ok geos ∧ geo ∈ geos ∧ isinstance geo (geotype line_store) = false).
Proof.
  assert (H0 : ∀ c, Some "code" = Some c → c ∈ columns culverts).
  { intros c [= <-]. by_computation. }
  split; [exact H0|].
  exact (set_data_TypeError_iff_geometry_not_geotype
           line_store culverts (Some "code") true H0).
Defined.

Lemma clip_retains_intersecting_features_witness :
  wf_self culvert_store ∧
  isinstance origin_square [CPolygon; CMultiPolygon] = true ∧
  frame (after (clip box_intersects origin_square) culvert_store)
  = mkFrame ["code"; "geometry"] [mkRow (VInt 0) [VStr "A"; pt 0 0]]
      None (Some 28992).
Proof.
  assert (Hwf : wf_self culvert_store).
  { split; [|split; by_computation].
    split; [by_computation|]. split; [by_computation | discriminate]. }
  split; [exact Hwf|]. split; [reflexivity|].
  apply (proj2 (clip_retains_intersecting_features box_intersects
                  culvert_store origin_square Hwf) eq_refl).
  discriminate.
Defined.

(** An instance as it is built, before any file is read: it has no
    geometry column.  No feature intersects the polygon and [clip] raises
    [AttributeError], not [ValueError]. *)
Lemma clip_AttributeError_on_new_instance :
  isinstance unit_square [CPolygon; CMultiPolygon] = true ∧
  filter (λ r, intersects_value box_intersects
                 (row_geometry (frame point_store) r) unit_square = true)
    (rows (frame point_store)) = [] ∧
  outcome (clip box_intersects unit_square) point_store
  = Raise (AttributeError "no active geometry column") ∧
  ¬ is_ValueError (outcome (clip box_intersects unit_square) point_store).
Proof.
  split; [reflexivity|]. split; [reflexivity|]. split; [reflexivity|].
  intros [why Hwhy]. discriminate Hwhy.
Qed.

(** A target given for an instance whose geometries have no coordinate
    reference system: nothing is reprojected, [ValueError] is raised. *)
Lemma check_projection_naive_not_reprojected :
  Some 28992 ≠ crs (frame naive_store) ∧
  is_ValueError (outcome (check_projection shift_transform (Some 28992)) naive_store) ∧
  after (check_projection shift_transform (Some 28992)) naive_store = naive_store ∧
  crs (frame (after (check_projection shift_transform (Some 28992)) naive_store))
  ≠ Some 28992.
Proof.
  split; [discriminate|]. split; [by eexists|]. split; [reflexivity | discriminate].
Qed.

Lemma check_projection_reprojects_when_crs_differs_witness :
  (crs (frame culvert_store) = Some 28992 ∧ 4326 ≠ 28992 ∧
   geometry (frame culvert_store) = Ok [pt 0 0; pt 1 1] ∧
   is_crs 4326 = true ∧
   outcome (check_projection shift_transform (Some 4326)) culvert_store = Ok () ∧
   frame (after (check_projection shift_transform (Some 4326)) culvert_store)
   = mkFrame ["code"; "geometry"]
       [ mkRow (VInt 0) [VStr "A"; pt (-24666) (-24666)];
         mkRow (VInt 1) [VStr "B"; pt (-24665) (-24665)] ]
       None (Some 4326) ∧
   ∃ geos',
     geometry (frame (after (check_projection shift_transform (Some 4326))
                        culvert_store)) = Ok geos' ∧
     Forall2 (λ old new, match old with
                         | VGeom g => new = VGeom (shift_transform 28992 4326 g)
                         | _ => new = old
                         end) [pt 0 0; pt 1 1] geos') ∧
  (28993 ≠ 28992 ∧ is_crs 28993 = false ∧
   outcome (check_projection shift_transform (Some 28993)) culvert_store
   = Raise (CRSError "Invalid projection") ∧
   after (check_projection shift_transform (Some 28993)) culvert_store
   = culvert_store).
Proof.
  assert (Hne : 4326 ≠ 28992) by discriminate.
  assert (Hne' : 28993 ≠ 28992) by discriminate.
  assert (Hcrs : is_crs 4326 = true) by reflexivity.
  assert (Hcrs' : is_crs 28993 = false) by reflexivity.
  split.
  - split; [reflexivity|]. split; [exact Hne|]. split; [reflexivity|].
    split; [reflexivity|].
    destruct (proj1 (proj1 (proj2 (check_projection_reprojects_when_crs_differs
                                     shift_transform culvert_store (Some 4326)))
                       28992 4326 [pt 0 0; pt 1 1] eq_refl eq_refl Hne eq_refl)
                Hcrs) as (Hok & _ & Hgeos & _).
    split; [exact Hok|]. split; [reflexivity | exact Hgeos].
  - split; [exact Hne'|]. split; [exact Hcrs'|].
    exact (proj2 (proj1 (proj2 (check_projection_reprojects_when_crs_differs
                                  shift_transform culvert_store (Some 28993)))
                    28992 28993 [pt 0 0; pt 1 1] eq_refl eq_refl Hne' eq_refl)
             Hcrs').
Defined.

(** A branch of two points that keeps one assigned point, because two
    points of another branch have the same number: it is reported, and no
    line is built; the reader stops with the error of shapely. *)
Lemma grouping_single_assigned_point_no_line :
  ∃ g, assign_groups (lowered duplicate_layer) "branch" (Some "nr") = Ok g ∧
       VStr "A" ∈ multipoint_branches g ∧
       lines g !! VStr "A" = Some (Slots [pt 4 4; VInt 0]) ∧
       unfilled [pt 4 4; VInt 0] = true ∧
       (∀ lines',
          (group_lines (multipoint_branches g) (lines g)
             (mkWorld branch_store [])).2 ≠ Ok lines') ∧
       output (read_grouped box_intersects duplicate_layer) branch_store
       = [NotProperlyAssigned (VStr "A")] ∧
       outcome (read_grouped box_intersects duplicate_layer) branch_store
       = Raise (ShapelyError "LineStrings must have at least 2 coordinate tuples").
Proof.
  assert (H : match assign_groups (lowered duplicate_layer) "branch" (Some "nr") with
              | Ok g =>
                  multipoint_branches g = [VStr "A"; VStr "C"] ∧
                  lines g !! VStr "A" = Some (Slots [pt 4 4; VInt 0]) ∧
                  (group_lines (multipoint_branches g) (lines g)
                     (mkWorld branch_store [])).2
                  = Raise (ShapelyError
                             "LineStrings must have at least 2 coordinate tuples")
              | Raise _ => False
              end) by (vm_compute; repeat split).
  destruct (assign_groups (lowered duplicate_layer) "branch" (Some "nr"))
    as [g|e]; [|done].
  destruct H as (Hbs & Hpts & Hraise).
  exists g. split; [reflexivity|]. split; [rewrite Hbs; left|].
  split; [exact Hpts|]. split; [reflexivity|].
  split; [|split; vm_compute; reflexivity].
  intros lines'. rewrite Hraise. discriminate.
Qed.

Lemma read_gpkg_layer_flags_unfilled_branches_witness :
  ∃ g, assign_groups (lowered nan_layer) "branch" (Some "nr") = Ok g ∧
       multipoint_branches g = [] ++ VStr "A" :: [] ∧
       lines g !! VStr "A" = Some (Slots [pt 0 0; VInt 0; pt 1 1]) ∧
       unfilled [pt 0 0; VInt 0; pt 1 1] = true ∧
       line_ready [pt 0 0; VInt 0; pt 1 1] ∧
       NotProperlyAssigned (VStr "A")
       ∈ output (read_grouped box_intersects nan_layer) branch_store ∧
       ∃ lines',
         (group_lines (multipoint_branches g) (lines g)
            (mkWorld branch_store [])).2 = Ok lines' ∧
         lines' !! VStr "A" = Some (Line (LineString [(0, 0); (1, 1)])).
Proof.
  assert (H : match assign_groups (lowered nan_layer) "branch" (Some "nr") with
              | Ok g =>
                  multipoint_branches g = [VStr "A"] ∧
                  lines g !! VStr "A" = Some (Slots [pt 0 0; VInt 0; pt 1 1])
              | Raise _ => False
              end) by (vm_compute; repeat split).
  destruct (assign_groups (lowered nan_layer) "branch" (Some "nr"))
    as [g|e] eqn:Hg; [|done].
  destruct H as (Hbs & Hpts).
  assert (Hline : line_ready [pt 0 0; VInt 0; pt 1 1]).
  { split; [|discriminate]. repeat constructor; by eexists. }
  assert (Hready : ∀ b pts, b ∈ multipoint_branches g →
                     lines g !! b = Some (Slots pts) → line_ready pts).
  { intros b pts Hb Hb'. rewrite Hbs in Hb.
    apply list_elem_of_singleton in Hb. subst b.
    rewrite Hpts in Hb'. by injection Hb' as <-. }
  destruct (read_gpkg_layer_flags_unfilled_branches box_intersects
              nan_layer None "branch" (Some "nr") "code" None true true
              None branch_store) as (Hgroups & _).
  destruct (Hgroups g Hg) as (Hwarn & Hlines & _).
  exists g. split; [reflexivity|]. split; [exact Hbs|]. split; [exact Hpts|].
  split; [reflexivity|]. split; [exact Hline|]. split.
  - apply (Hwarn [] (VStr "A") [] [pt 0 0; VInt 0; pt 1 1] Hbs);
      [|exact Hpts|reflexivity].
    intros b' pts' Hb'. by apply elem_of_nil in Hb'.
  - destruct (Hlines Hready) as (lines' & Hrun & Hall).
    exists lines'. split; [exact Hrun|].
    refine (proj1 (Hall (VStr "A") [pt 0 0; VInt 0; pt 1 1] _ Hpts)).
    rewrite Hbs. left.
Defined.

End Witnesses.

(** ** The grouping of points, in general *)

Section Core.

Context {library : Library}.


Lemma merge_sort_nil {A} (R : relation A) `{∀ x y, Decision (R x y)} :
  merge_sort R [] = [].
Proof. reflexivity. Qed.

Lemma merge_sort_singleton {A} (R : relation A) `{∀ x y, Decision (R x y)} x :
  merge_sort R [x] = [x].
Proof. reflexivity. Qed.

Lemma mapM_int_of_ints zs : mapM int_of (VInt <$> zs) = Some zs.
Proof.
  apply mapM_Some, Forall2_fmap_l, Forall_Forall2_diag, Forall_true. done.
Qed.

Lemma mapM_str_of_strs ss : mapM str_of (VStr <$> ss) = Some ss.
Proof.
  apply mapM_Some, Forall2_fmap_l, Forall_Forall2_diag, Forall_true. done.
Qed.

Lemma mapM_int_of_strs s ss : mapM int_of (VStr <$> (s :: ss)) = None.
Proof. done. Qed.

Lemma sorted_ints zs : sorted (VInt <$> zs) = Ok (VInt <$> merge_sort Z.le zs).
Proof.
  destruct zs as [|z [|z' zs]]; [done..|].
  unfold sorted.
  change (VInt <$> z :: z' :: zs) with (VInt z :: VInt z' :: (VInt <$> zs)).
  cbv iota beta.
  change (VInt z :: VInt z' :: (VInt <$> zs)) with (VInt <$> z :: z' :: zs).
  by rewrite mapM_int_of_ints.
Qed.

Lemma sorted_strs ss : sorted (VStr <$> ss) = Ok (VStr <$> merge_sort str_le ss).
Proof.
  destruct ss as [|s [|s' ss]]; [done..|].
  unfold sorted.
  change (VStr <$> s :: s' :: ss) with (VStr s :: VStr s' :: (VStr <$> ss)).
  cbv iota beta.
  change (VStr s :: VStr s' :: (VStr <$> ss)) with (VStr <$> s :: s' :: ss).
  by rewrite mapM_int_of_strs, mapM_str_of_strs.
Qed.

Lemma sorted_homogeneous l :
  homogeneous l → ∃ s, sorted l = Ok s ∧ s ≡ₚ l.
Proof.
  intros [[ss ->]|[zs ->]].
  - rewrite sorted_strs. eexists. split; [done|].
    by rewrite merge_sort_Permutation.
  - rewrite sorted_ints. eexists. split; [done|].
    by rewrite merge_sort_Permutation.
Qed.

Lemma np_sort_homogeneous l :
  homogeneous l → ∃ s, np_sort l = Ok s ∧ s ≡ₚ l.
Proof.
  intros [[ss ->]|[zs ->]].
  - exists (VStr <$> merge_sort str_le ss).
    split; [|by rewrite merge_sort_Permutation].
    destruct ss as [|s [|s' ss]]; [done..|].
    unfold np_sort.
    change (VStr <$> s :: s' :: ss) with (VStr s :: VStr s' :: (VStr <$> ss)).
    cbv iota beta.
    change (VStr s :: VStr s' :: (VStr <$> ss)) with (VStr <$> s :: s' :: ss).
    by rewrite mapM_int_of_strs, mapM_str_of_strs.
  - exists (VInt <$> merge_sort Z.le zs).
    split; [|by rewrite merge_sort_Permutation].
    destruct zs as [|z [|z' zs]]; [done..|].
    unfold np_sort.
    change (VInt <$> z :: z' :: zs) with (VInt z :: VInt z' :: (VInt <$> zs)).
    cbv iota beta.
    change (VInt z :: VInt z' :: (VInt <$> zs)) with (VInt <$> z :: z' :: zs).
    by rewrite mapM_int_of_ints.
Qed.

Lemma homogeneous_not_null l v : homogeneous l → v ∈ l → isnull v = false.
Proof.
  intros [[ss ->]|[zs ->]] Hv; by apply list_elem_of_fmap in Hv as (? & -> & _).
Qed.

Lemma np_unique_homogeneous values :
  homogeneous values →
  ∃ bc, np_unique values = Ok bc ∧ NoDup bc.*1 ∧
        (∀ b, b ∈ bc.*1 ↔ b ∈ values) ∧
        (∀ b c, (b, c) ∈ bc → c = length (filter (λ v, v = b) values)).
Proof.
  intros Hh. destruct (np_sort_homogeneous values Hh) as (s & Hs & Hperm).
  unfold np_unique. rewrite Hs. simpl. eexists. split; [done|].
  rewrite fmap_fst_pair. split; [apply NoDup_remove_dups|]. split.
  - intros b. rewrite elem_of_remove_dups. by rewrite Hperm.
  - intros b c Hin. apply list_elem_of_fmap in Hin as (b' & [= -> ->] & _). done.
Qed.

(** *** The columns as lists of records *)

Lemma recs_in_cons b r recs :
  recs_in b (r :: recs)
  = if decide (rbranch r = b) then r :: recs_in b recs else recs_in b recs.
Proof. unfold recs_in. by rewrite filter_cons. Qed.

Lemma orders_in_cons b r recs :
  orders_in b (r :: recs)
  = if decide (rbranch r = b) then rorder r :: orders_in b recs
    else orders_in b recs.
Proof. unfold orders_in. rewrite recs_in_cons. by case_decide. Qed.

Lemma orders_of_pairs b recs :
  snd <$> filter (λ x, x.1 = b) (pairs_of recs) = VInt <$> orders_in b recs.
Proof.
  induction recs as [|r recs IH]; [done|].
  unfold pairs_of in *. rewrite fmap_cons, filter_cons, orders_in_cons.
  cbn [fst].
  destruct (decide (rbranch r = b)); [|exact IH].
  rewrite !fmap_cons. cbn [snd]. f_equal. exact IH.
Qed.

Lemma elem_of_orders_in b r recs :
  r ∈ recs → rbranch r = b → rorder r ∈ orders_in b recs.
Proof.
  intros Hin Hb. unfold orders_in, recs_in.
  apply list_elem_of_fmap. exists r. split; [done|].
  by apply list_elem_of_filter.
Qed.

(** *** The starting numbers *)

Lemma find_startnr_loop nan_keys recs (m0 : gmap value Z) :
  (∀ r, r ∈ recs → isnull (rbranch r) = false ∧ is_Some (m0 !! rbranch r)) →
  ∃ m : gmap value Z,
    for_each (startnr_step nan_keys) (pairs_of recs) (VInt <$> m0)
    = Ok (VInt <$> m) ∧
    ∀ b, m !! b = (λ s, foldl Z.min s (orders_in b recs)) <$> (m0 !! b).
Proof.
  revert m0. induction recs as [|r recs IH]; intros m0 Hdom.
  - exists m0. split; [done|]. intros b. simpl. by destruct (m0 !! b).
  - destruct (Hdom r) as [Hnull [s Hs]]; [left|].
    change (pairs_of (r :: recs))
      with ((rbranch r, VInt (rorder r)) :: pairs_of recs).
    simpl. rewrite Hnull, andb_false_r, lookup_fmap, Hs. simpl.
    rewrite <- (fmap_insert VInt).
    destruct (IH (<[rbranch r := if (s <? rorder r)%Z then s else rorder r]> m0))
      as (m & Hm & Hlook).
    { intros r' Hr'. split; [apply Hdom; by right|].
      destruct (decide (rbranch r = rbranch r')) as [->|Hne].
      - rewrite lookup_insert_eq. eauto.
      - rewrite lookup_insert_ne by done. apply Hdom. by right. }
    exists m. split; [exact Hm|]. intros b. rewrite Hlook, orders_in_cons.
    case_decide as Hb.
    + subst b. rewrite lookup_insert_eq, Hs. simpl. f_equal. f_equal.
      destruct (s <? rorder r)%Z eqn:Hlt; lia.
    + by rewrite lookup_insert_ne.
Qed.

Lemma startnr_initial (nrows : nat) (branches : list value) b :
  b ∈ branches →
  (list_to_map ((λ branch, (branch, Z.of_nat nrows + 1)) <$> branches)
   : gmap value Z) !! b = Some (Z.of_nat nrows + 1).
Proof.
  induction branches as [|b0 branches IH]; simpl; intros Hin.
  - by apply elem_of_nil in Hin.
  - destruct (decide (b = b0)) as [->|Hne].
    + by rewrite lookup_insert_eq.
    + rewrite lookup_insert_ne by done. apply IH.
      by apply elem_of_cons in Hin as [?|?].
Qed.

Lemma find_startnr_initial (nrows : nat) (branches : list value) pairs :
  find_startnr nrows branches pairs
  = for_each (startnr_step (existsb is_int branches)) pairs
      (VInt <$> (list_to_map ((λ branch, (branch, Z.of_nat nrows + 1)) <$> branches)
                 : gmap value Z)).
Proof.
  unfold find_startnr. f_equal.
  induction branches as [|b0 branches IH].
  - symmetry. apply (fmap_empty (M:=gmap value)).
  - rewrite !fmap_cons. cbn [list_to_map foldr]. rewrite IH. simpl.
    symmetry. apply (fmap_insert (M:=gmap value)).
Qed.

Lemma find_startnr_spec nrows branches recs :
  (∀ r, r ∈ recs → isnull (rbranch r) = false ∧ rbranch r ∈ branches) →
  ∃ m, find_startnr nrows branches (pairs_of recs) = Ok m ∧
       ∀ b, b ∈ branches →
            m !! b
            = Some (VInt (foldl Z.min (Z.of_nat nrows + 1) (orders_in b recs))).
Proof.
  intros Hbr. rewrite find_startnr_initial.
  destruct (find_startnr_loop (existsb is_int branches) recs
              (list_to_map ((λ branch, (branch, Z.of_nat nrows + 1)) <$> branches)))
    as (m & Hm & Hlook).
  { intros r Hr. destruct (Hbr r Hr) as [Hnull Hin]. split; [done|].
    rewrite startnr_initial by done. eauto. }
  exists (VInt <$> m). split; [exact Hm|]. intros b Hb.
  by rewrite lookup_fmap, Hlook, startnr_initial.
Qed.

(** *** The relative order *)

Lemma py_eq_true v x : py_eq v x = true → v = x.
Proof. unfold py_eq. by intros [_ ?%bool_decide_eq_true]%andb_true_iff. Qed.

Lemma py_eq_refl v : isnull v = false → py_eq v v = true.
Proof. unfold py_eq. intros ->. by rewrite bool_decide_true. Qed.

Lemma positions_of_from v (l : list value) (s : nat) :
  concat (imap (λ i x, if py_eq v x then [s + i]%nat else []) l)
  = (λ i, (s + i)%nat) <$> positions_of v l.
Proof.
  unfold positions_of. revert s. induction l as [|x l IH]; intros s; [done|].
  rewrite !imap_cons. simpl. rewrite fmap_app. f_equal.
  - destruct (py_eq v x); simpl; [|done]. by rewrite Nat.add_0_r.
  - rewrite (imap_ext _ (λ i x, if py_eq v x then [S s + i]%nat else [])).
    2:{ intros i x' _. simpl. destruct (py_eq v x'); [|done]. f_equal. lia. }
    rewrite IH.
    rewrite (imap_ext (_ ∘ S) (λ i x, if py_eq v x then [1 + i]%nat else [])).
    2:{ intros i x' _. done. }
    rewrite (IH 1%nat). rewrite <- list_fmap_compose.
    apply list_fmap_ext. intros i k _. simpl. lia.
Qed.

Lemma positions_of_cons v x (l : list value) :
  positions_of v (x :: l)
  = (if py_eq v x then [0%nat] else []) ++ (S <$> positions_of v l).
Proof.
  unfold positions_of at 1. rewrite imap_cons. simpl. f_equal.
  apply (positions_of_from v l 1).
Qed.

Lemma positions_of_absent v (l : list value) : v ∉ l → positions_of v l = [].
Proof.
  induction l as [|x l IH]; intros Hnin; [done|].
  apply not_elem_of_cons in Hnin as [Hne Hnin].
  rewrite positions_of_cons. destruct (py_eq v x) eqn:E.
  - by apply py_eq_true in E.
  - by rewrite IH.
Qed.

Lemma positions_of_unique v (l : list value) k :
  isnull v = false → NoDup l → l !! k = Some v → positions_of v l = [k].
Proof.
  intros Hv. revert k. induction l as [|x l IH]; intros k Hnd Hk; [done|].
  apply NoDup_cons in Hnd as [Hx Hnd]. rewrite positions_of_cons.
  destruct k as [|k]; simpl in Hk.
  - injection Hk as ->. rewrite py_eq_refl by done.
    by rewrite positions_of_absent.
  - destruct (py_eq v x) eqn:E.
    + apply py_eq_true in E as ->. destruct Hx. by eapply list_elem_of_lookup_2.
    + by rewrite (IH k).
Qed.

#[local] Instance VInt_inj : Inj (=) (=) VInt.
Proof. by intros x y [= ->]. Qed.

Lemma sorted_orders_NoDup recs b :
  distinct_orders recs → NoDup (merge_sort Z.le (orders_in b recs)).
Proof. intros Hd. rewrite merge_sort_Permutation. apply Hd. Qed.

Lemma ranked_exists recs r :
  r ∈ recs → ∃ k, ranked recs r k.
Proof.
  intros Hin. unfold ranked. apply list_elem_of_lookup.
  rewrite merge_sort_Permutation. by apply elem_of_orders_in.
Qed.

Lemma ranked_inj recs r k k' :
  distinct_orders recs → ranked recs r k → ranked recs r k' → k = k'.
Proof.
  intros Hd Hk Hk'. eapply NoDup_lookup; [|exact Hk|exact Hk'].
  by apply sorted_orders_NoDup.
Qed.

Lemma relative_order_step_ranked recs r acc k :
  distinct_orders recs → ranked recs r k →
  relative_order_step (pairs_of recs) acc (rbranch r, VInt (rorder r))
  = Ok (acc ++ [k]).
Proof.
  intros Hd Hk. unfold relative_order_step.
  rewrite orders_of_pairs, sorted_ints. simpl.
  rewrite (positions_of_unique _ _ k); [done|done| |].
  - apply NoDup_fmap_2; [apply _|]. by apply sorted_orders_NoDup.
  - rewrite list_lookup_fmap. unfold ranked in Hk. by rewrite Hk.
Qed.

Lemma relative_order_loop recs l acc :
  distinct_orders recs → (∀ r, r ∈ l → r ∈ recs) →
  ∃ rels, for_each (relative_order_step (pairs_of recs)) (pairs_of l) acc
          = Ok (acc ++ rels) ∧
          Forall2 (ranked recs) l rels.
Proof.
  intros Hd. revert acc. induction l as [|r l IH]; intros acc Hin.
  - exists []. rewrite app_nil_r. split; [done | constructor].
  - destruct (ranked_exists recs r) as [k Hk]; [apply Hin; left|].
    change (pairs_of (r :: l)) with ((rbranch r, VInt (rorder r)) :: pairs_of l).
    cbn [for_each].
    rewrite (relative_order_step_ranked recs r acc k) by done. simpl.
    destruct (IH (acc ++ [k])) as (rels & Hrun & Hall).
    { intros r' Hr'. apply Hin. by right. }
    exists (k :: rels). split.
    + rewrite Hrun. by rewrite <- app_assoc.
    + by constructor.
Qed.

Lemma relative_order_spec recs :
  distinct_orders recs →
  ∃ rels, relative_order (pairs_of recs) = Ok rels ∧
          Forall2 (ranked recs) recs rels.
Proof.
  intros Hd. destruct (relative_order_loop recs recs [] Hd) as (rels & Hrun & Hall);
    [done|].
  exists rels. split; [exact Hrun | exact Hall].
Qed.

(** *** The assignment of the points to their slots *)

Lemma zip_columns recs rels :
  zip (zip (zip (rpoint <$> recs) ((λ r, VInt (rorder r)) <$> recs))
         (rbranch <$> recs)) rels
  = rows4_of (zip recs rels).
Proof.
  revert rels. induction recs as [|r recs IH]; intros [|k rels]; try done.
  unfold rows4_of in *. simpl. f_equal. apply IH.
Qed.

Lemma written_Some l b j r :
  written l b j = Some r → (r, j) ∈ l ∧ rbranch r = b.
Proof.
  induction l as [|[r0 k0] l IH]; simpl; [done|].
  destruct (written l b j) as [r'|].
  - intros [= ->]. destruct IH as [Hin Hb]; [done|]. split; [by right | done].
  - case_decide as Hd; [|done]. intros [= ->]. destruct Hd as [Hb ->].
    split; [left | done].
Qed.

Lemma written_None l b j r :
  written l b j = None → (r, j) ∈ l → rbranch r ≠ b.
Proof.
  induction l as [|[r0 k0] l IH]; simpl; intros Hw Hin.
  - by apply elem_of_nil in Hin.
  - destruct (written l b j) as [r'|] eqn:Hw'; [done|].
    case_decide as Hd; [done|].
    apply elem_of_cons in Hin as [[= -> ->]|Hin].
    + intros Hb. apply Hd. done.
    + by apply IH.
Qed.

Lemma assign_points_loop (l : list (point_rec * nat)) (lines0 : gmap value entry) :
  (∀ r k, (r, k) ∈ l →
          ∃ pts, lines0 !! rbranch r = Some (Slots pts) ∧ (k < length pts)%nat) →
  ∃ lines',
    assign_points lines0 (rows4_of l) = Ok lines' ∧
    ∀ b pts0, lines0 !! b = Some (Slots pts0) →
      ∃ pts', lines' !! b = Some (Slots pts') ∧ length pts' = length pts0 ∧
              ∀ j v0, pts0 !! j = Some v0 →
                      pts' !! j = Some (from_option rpoint v0 (written l b j)).
Proof.
  unfold assign_points.
  revert lines0. induction l as [|[r k] l IH]; intros lines0 Hdom.
  - exists lines0. split; [done|]. intros b pts0 Hb. exists pts0.
    split; [done|]. split; [done|]. by intros j v0 ->.
  - destruct (Hdom r k) as (pts & Hpts & Hk); [left|].
    unfold rows4_of. rewrite fmap_cons. cbn [for_each fst snd].
    unfold assign_point at 1. rewrite Hpts.
    rewrite bool_decide_true by done. simpl.
    set (lines1 := <[rbranch r := Slots (<[k := rpoint r]> pts)]> lines0).
    destruct (IH lines1) as (lines' & Hrun & Hfinal).
    { intros r' k' Hin. subst lines1.
      destruct (decide (rbranch r = rbranch r')) as [Heq|Hne].
      - rewrite <- Heq, lookup_insert_eq. eexists. split; [done|].
        rewrite length_insert.
        destruct (Hdom r' k') as (pts2 & Hpts2 & Hk2); [by right|].
        rewrite <- Heq, Hpts in Hpts2. by injection Hpts2 as <-.
      - rewrite lookup_insert_ne by done. apply Hdom. by right. }
    exists lines'. split; [exact Hrun|].
    intros b pts0 Hb. simpl.
    destruct (decide (rbranch r = b)) as [Heq|Hne].
    + subst b. rewrite Hpts in Hb. injection Hb as <-.
      destruct (Hfinal (rbranch r) (<[k := rpoint r]> pts)) as (pts' & Hl & Hlen & Hj).
      { subst lines1. by rewrite lookup_insert_eq. }
      exists pts'. split; [done|]. split; [by rewrite Hlen, length_insert|].
      intros j v0 Hv0.
      destruct (decide (k = j)) as [->|Hkj].
      * rewrite (Hj j (rpoint r)).
        2:{ rewrite list_lookup_insert_eq; [done|]. by eapply lookup_lt_Some. }
        destruct (written l (rbranch r) j); [done|].
        by rewrite decide_True.
      * rewrite (Hj j v0) by (by rewrite list_lookup_insert_ne).
        destruct (written l (rbranch r) j); [done|].
        rewrite decide_False; [done|]. by intros [_ ?].
    + destruct (Hfinal b pts0) as (pts' & Hl & Hlen & Hj).
      { subst lines1. by rewrite lookup_insert_ne. }
      exists pts'. split; [done|]. split; [done|].
      intros j v0 Hv0. rewrite (Hj j v0 Hv0).
      destruct (written l b j); [done|].
      rewrite decide_False; [done|]. by intros [? _].
Qed.

Lemma Forall2_elem_of_zip {A B} (P : A → B → Prop) l k x y :
  Forall2 P l k → (x, y) ∈ zip l k → P x y.
Proof.
  intros HP. induction HP as [|a b l k Hab _ IH]; simpl; intros Hin.
  - by apply elem_of_nil in Hin.
  - apply elem_of_cons in Hin as [[= -> ->]|Hin]; [done | by apply IH].
Qed.

Lemma Forall2_elem_of_l {A B} (P : A → B → Prop) l k x :
  Forall2 P l k → x ∈ l → ∃ y, (x, y) ∈ zip l k ∧ P x y.
Proof.
  intros HP. induction HP as [|a b l k Hab _ IH]; simpl; intros Hin.
  - by apply elem_of_nil in Hin.
  - apply elem_of_cons in Hin as [->|Hin].
    + exists b. split; [left | done].
    + destruct (IH Hin) as (y & Hy & HPy). exists y. split; [by right | done].
Qed.

Lemma sorted_orders_length recs b :
  length (merge_sort Z.le (orders_in b recs)) = length (orders_in b recs).
Proof. by rewrite merge_sort_Permutation. Qed.

Lemma elem_of_orders_in_inv b o recs :
  o ∈ orders_in b recs → ∃ r, r ∈ recs ∧ rbranch r = b ∧ rorder r = o.
Proof.
  unfold orders_in, recs_in. intros Hin.
  apply list_elem_of_fmap in Hin as (r & -> & Hin).
  apply list_elem_of_filter in Hin as [Hb Hin]. by exists r.
Qed.

Lemma assign_points_ranked recs rels (lines0 : gmap value entry) :
  distinct_orders recs → Forall2 (ranked recs) recs rels →
  (∀ r, r ∈ recs →
        lines0 !! rbranch r
        = Some (Slots (replicate (length (orders_in (rbranch r) recs)) (VInt 0)))) →
  ∃ lines',
    assign_points lines0 (rows4_of (zip recs rels)) = Ok lines' ∧
    (∀ b e, lines0 !! b = Some e → is_Some (lines' !! b)) ∧
    ∀ r0, r0 ∈ recs →
      ∃ pts', lines' !! rbranch r0 = Some (Slots pts') ∧
              length pts' = length (orders_in (rbranch r0) recs) ∧
              ∀ j o, merge_sort Z.le (orders_in (rbranch r0) recs) !! j = Some o →
                     ∃ r, r ∈ recs ∧ rbranch r = rbranch r0 ∧ rorder r = o ∧
                          pts' !! j = Some (rpoint r).
Proof.
  intros Hd Hranked Hlines0.
  destruct (assign_points_loop (zip recs rels) lines0) as (lines' & Hrun & Hfinal).
  { intros r k Hin. eexists. split.
    - apply Hlines0. by eapply elem_of_zip_l.
    - rewrite length_replicate, <- sorted_orders_length.
      eapply lookup_lt_Some. by eapply (Forall2_elem_of_zip _ _ _ _ _ Hranked). }
  exists lines'. split; [exact Hrun|]. split.
  { intros b e Hb. eapply assign_points_slots_any; [exact Hrun | by eexists]. }
  intros r0 Hr0. set (b := rbranch r0).
  destruct (Hfinal b _ (Hlines0 r0 Hr0)) as (pts' & Hl & Hlen & Hj).
  exists pts'. split; [done|]. rewrite length_replicate in Hlen. split; [done|].
  intros j o Hsorted.
  assert (Hjlt : (j < length (orders_in b recs))%nat).
  { rewrite <- sorted_orders_length. by eapply lookup_lt_Some. }
  rewrite (Hj j (VInt 0)) by (by apply lookup_replicate_2).
  (* a record of the branch with this number, and its place *)
  assert (Ho : o ∈ orders_in b recs).
  { rewrite <- (merge_sort_Permutation Z.le). by eapply list_elem_of_lookup_2. }
  destruct (elem_of_orders_in_inv _ _ _ Ho) as (r1 & Hr1 & Hb1 & Ho1).
  destruct (Forall2_elem_of_l _ _ _ _ Hranked Hr1) as (k1 & Hzip1 & Hrank1).
  assert (k1 = j) as ->.
  { unfold ranked in Hrank1. rewrite Hb1, Ho1 in Hrank1.
    eapply NoDup_lookup; [by apply sorted_orders_NoDup|exact Hrank1|exact Hsorted]. }
  destruct (written (zip recs rels) b j) as [r|] eqn:Hw.
  - apply written_Some in Hw as [Hin Hb].
    exists r. split; [by eapply elem_of_zip_l|]. split; [done|]. split; [|done].
    pose proof (Forall2_elem_of_zip _ _ _ _ _ Hranked Hin) as Hrank.
    unfold ranked in Hrank. rewrite Hb in Hrank. fold b in Hsorted. congruence.
  - exfalso. by eapply written_None.
Qed.

(** *** The slots of a branch are its points in ascending order *)

#[local] Instance by_order_total : Total by_order.
Proof. intros p q. unfold by_order. lia. Qed.

Lemma merge_sort_fst (ps : list (Z * coord)) :
  fst <$> merge_sort by_order ps = merge_sort Z.le (fst <$> ps).
Proof.
  apply (Sorted_unique Z.le).
  - apply (Sorted_fmap fst by_order Z.le); [by intros p q|].
    apply (Sorted_merge_sort by_order).
  - apply (Sorted_merge_sort Z.le).
  - by rewrite !merge_sort_Permutation.
Qed.

Lemma orders_of_points b recs : fst <$> points_in b recs = orders_in b recs.
Proof.
  unfold points_in, orders_in. rewrite <- list_fmap_compose.
  by apply list_fmap_ext.
Qed.

Lemma distinct_orders_inj recs r r' :
  distinct_orders recs → r ∈ recs → r' ∈ recs →
  rbranch r = rbranch r' → rorder r = rorder r' → r = r'.
Proof.
  intros Hd Hr Hr' Hb Ho. specialize (Hd (rbranch r)). unfold orders_in in Hd.
  assert (Hin : r ∈ recs_in (rbranch r) recs) by (by apply list_elem_of_filter).
  assert (Hin' : r' ∈ recs_in (rbranch r) recs) by (by apply list_elem_of_filter).
  apply list_elem_of_lookup in Hin as [i Hi], Hin' as [i' Hi'].
  assert (i = i') as ->.
  { eapply NoDup_lookup; [exact Hd| |]; rewrite list_lookup_fmap.
    - by rewrite Hi.
    - rewrite Hi'. simpl. by rewrite Ho. }
  congruence.
Qed.

Lemma slots_branch_line recs b pts' :
  distinct_orders recs →
  length pts' = length (orders_in b recs) →
  (∀ j o, merge_sort Z.le (orders_in b recs) !! j = Some o →
          ∃ r, r ∈ recs ∧ rbranch r = b ∧ rorder r = o ∧
               pts' !! j = Some (rpoint r)) →
  pts' = (λ c, VGeom (Point c)) <$> branch_line b recs.
Proof.
  intros Hd Hlen Hj. apply list_eq. intros j.
  unfold branch_line. rewrite !list_lookup_fmap.
  destruct (merge_sort by_order (points_in b recs) !! j) as [[o c]|] eqn:HS; simpl.
  - assert (Hsorted : merge_sort Z.le (orders_in b recs) !! j = Some o).
    { rewrite <- orders_of_points, <- merge_sort_fst, list_lookup_fmap.
      by rewrite HS. }
    destruct (Hj j o Hsorted) as (r & Hr & Hb & Ho & ->).
    apply list_elem_of_lookup_2 in HS. rewrite merge_sort_Permutation in HS.
    unfold points_in in HS.
    apply list_elem_of_fmap in HS as (r1 & [= Ho1 Hc1] & Hin1).
    apply list_elem_of_filter in Hin1 as [Hb1 Hin1].
    assert (r = r1) as ->.
    { apply (distinct_orders_inj recs); try done; congruence. }
    unfold rpoint. by rewrite Hc1.
  - apply lookup_ge_None in HS. apply lookup_ge_None.
    rewrite merge_sort_Permutation in HS. unfold points_in in HS.
    rewrite length_fmap in HS. unfold orders_in in Hlen.
    rewrite length_fmap in Hlen. lia.
Qed.

Lemma branch_line_length b recs :
  length (branch_line b recs) = length (recs_in b recs).
Proof.
  unfold branch_line, points_in.
  by rewrite length_fmap, merge_sort_Permutation, length_fmap.
Qed.

Lemma points_line_ready (cs : list coord) :
  length cs ≠ 1%nat →
  line_ready ((λ c, VGeom (Point c)) <$> cs) ∧
  unfilled ((λ c, VGeom (Point c)) <$> cs) = false ∧
  coords (assigned ((λ c, VGeom (Point c)) <$> cs)) = cs.
Proof.
  intros Hlen.
  assert (Hunf : ∀ cs : list coord,
            existsb is_int ((λ c, VGeom (Point c)) <$> cs) = false).
  { clear. induction cs as [|c cs IH]; [done|]. simpl. exact IH. }
  assert (Has : assigned ((λ c, VGeom (Point c)) <$> cs)
                = (λ c, VGeom (Point c)) <$> cs).
  { apply assigned_all, Hunf. }
  split; [|split].
  - unfold line_ready. rewrite Has. split.
    + apply Forall_fmap, Forall_true. intros c. by eexists.
    + by rewrite length_fmap.
  - apply Hunf.
  - rewrite Has. unfold coords. clear.
    induction cs as [|c cs IH]; [done|]. simpl. f_equal. exact IH.
Qed.

(** *** The lines, when every slot is filled *)

Lemma existsb_is_int_points (cs : list coord) :
  existsb is_int ((λ c, VGeom (Point c)) <$> cs) = false.
Proof. induction cs as [|c cs IH]; [done|]. simpl. exact IH. Qed.

Lemma coords_points (cs : list coord) :
  coords ((λ c, VGeom (Point c)) <$> cs) = cs.
Proof.
  unfold coords. induction cs as [|c cs IH]; [done|]. simpl. f_equal. exact IH.
Qed.

Lemma make_LineString_coords (cs : list coord) :
  length cs ≠ 1%nat →
  make_LineString ((λ c, VGeom (Point c)) <$> cs) = Ok (LineString cs).
Proof.
  intros Hlen. destruct (points_line_ready cs Hlen) as ([Hpts Hl] & Hun & Hco).
  rewrite assigned_all in Hpts, Hl, Hco by apply existsb_is_int_points.
  rewrite make_LineString_points by done. by rewrite Hco.
Qed.

Lemma group_lines_filled (bs : list value) (lines : gmap value entry) w :
  NoDup bs →
  (∀ b, b ∈ bs → ∃ cs, lines !! b = Some (Slots ((λ c, VGeom (Point c)) <$> cs)) ∧
                       length cs ≠ 1%nat) →
  ∃ lines',
    group_lines bs lines w = (w, Ok lines') ∧
    (∀ b cs, b ∈ bs → lines !! b = Some (Slots ((λ c, VGeom (Point c)) <$> cs)) →
             lines' !! b = Some (Line (LineString cs))) ∧
    (∀ b, b ∉ bs → lines' !! b = lines !! b).
Proof.
  revert lines. induction bs as [|b bs IH]; intros lines Hnd Hall.
  - exists lines. split; [done|]. split; [|done].
    intros b cs Hb. by apply elem_of_nil in Hb.
  - apply NoDup_cons in Hnd as [Hb Hnd].
    destruct (Hall b) as (cs & Hcs & Hlen); [left|].
    destruct (IH (<[b := Line (LineString cs)]> lines) Hnd)
      as (lines' & Hrun & Hin & Hout).
    { intros b' Hb'. rewrite lookup_insert_ne by (intros ->; done).
      apply Hall. by right. }
    exists lines'. split; [|split].
    + simpl. unfold then_ at 1. unfold lift at 1. rewrite Hcs.
      unfold then_ at 1. rewrite existsb_is_int_points.
      unfold ret at 1. unfold then_ at 1. unfold lift at 1.
      rewrite make_LineString_coords by done. exact Hrun.
    + intros b' cs' Hb' Hcs'. apply elem_of_cons in Hb' as [->|Hb'].
      * rewrite Hout by done. rewrite lookup_insert_eq.
        rewrite Hcs in Hcs'. injection Hcs' as Heq.
        apply (f_equal coords) in Heq. rewrite !coords_points in Heq. by subst.
      * apply Hin; [done|]. rewrite lookup_insert_ne; [done|]. by intros ->.
    + intros b' Hb'. apply not_elem_of_cons in Hb' as [Hne Hb'].
      rewrite Hout by done. by rewrite lookup_insert_ne.
Qed.

(** *** The minimum found by the loop *)

Lemma foldl_min_le (s : Z) (l : list Z) :
  (foldl Z.min s l ≤ s)%Z ∧ ∀ o, o ∈ l → (foldl Z.min s l ≤ o)%Z.
Proof.
  revert s. induction l as [|x l IH]; intros s; simpl.
  - split; [lia|]. intros o Ho. by apply elem_of_nil in Ho.
  - destruct (IH (Z.min s x)) as [Hs Hl]. split; [lia|].
    intros o Ho. apply elem_of_cons in Ho as [->|Ho]; [lia | by apply Hl].
Qed.

Lemma foldl_min_elem (s : Z) (l : list Z) :
  foldl Z.min s l = s ∨ foldl Z.min s l ∈ l.
Proof.
  revert s. induction l as [|x l IH]; intros s; simpl; [by left|].
  destruct (IH (Z.min s x)) as [Heq|Hin].
  - rewrite Heq. destruct (Z.min_spec s x) as [[_ ->]|[_ ->]];
      [by left | right; left].
  - right. by right.
Qed.

(** With a number of the branch not above the number of rows plus 1, the
    starting number is the smallest number of the branch. *)
Lemma startnr_of_first nrows recs r :
  r ∈ recs →
  (∃ r', r' ∈ recs ∧ rbranch r' = rbranch r ∧ (rorder r' ≤ Z.of_nat nrows + 1)%Z) →
  rorder r = startnr_of nrows recs (rbranch r) ↔ first_in_branch recs r.
Proof.
  intros Hr (r' & Hr' & Hb' & Hlow). unfold startnr_of, first_in_branch.
  set (os := orders_in (rbranch r) recs).
  destruct (foldl_min_le (Z.of_nat nrows + 1) os) as [Hs Hl].
  assert (Hin : foldl Z.min (Z.of_nat nrows + 1) os ∈ os).
  { destruct (foldl_min_elem (Z.of_nat nrows + 1) os) as [Heq|Hin]; [|done].
    assert (Ho' : rorder r' ∈ os) by (by apply elem_of_orders_in).
    specialize (Hl _ Ho').
    assert (rorder r' = foldl Z.min (Z.of_nat nrows + 1) os) as <- by lia.
    done. }
  rewrite Forall_forall. split.
  - intros Heq r1 Hr1 Hb1. rewrite Heq. apply Hl. by apply elem_of_orders_in.
  - intros Hfirst.
    apply elem_of_orders_in_inv in Hin as (r1 & Hr1 & Hb1 & Ho1).
    specialize (Hfirst r1 Hr1 Hb1).
    assert (Ho : rorder r ∈ os) by (by apply elem_of_orders_in).
    specialize (Hl _ Ho). lia.
Qed.

(** *** A layer of points *)

Lemma zip_fmap_same {A B C} (f : A → B) (g : A → C) (l : list A) :
  zip (f <$> l) (g <$> l) = (λ x, (f x, g x)) <$> l.
Proof. induction l as [|x l IH]; [done|]. simpl. f_equal. exact IH. Qed.

Lemma count_branch b (recs : list point_rec) :
  length (filter (λ v, v = b) (rbranch <$> recs)) = length (recs_in b recs).
Proof.
  unfold recs_in. induction recs as [|r recs IH]; [done|].
  rewrite fmap_cons, !filter_cons.
  destruct (decide (rbranch r = b)); simpl; by rewrite IH.
Qed.

Lemma initial_slots_count (bc : list (value * nat)) b c :
  NoDup bc.*1 → (b, c) ∈ bc →
  (list_to_map ((λ '(branch, count),
                   (branch, Slots (replicate count (VInt 0)))) <$> bc)
   : gmap value entry) !! b = Some (Slots (replicate c (VInt 0))).
Proof.
  intros Hnd Hin. apply elem_of_list_to_map_1.
  - rewrite <- list_fmap_compose.
    erewrite list_fmap_ext; [exact Hnd|]. by intros i [b' c'] _.
  - apply list_elem_of_fmap. by exists (b, c).
Qed.

Lemma filter_none {A} (P : A → Prop) `{∀ x, Decision (P x)} (l : list A) :
  Forall (λ x, ¬ P x) l → filter P l = [].
Proof.
  induction 1 as [|x l Hx _ IH]; [done|].
  by rewrite filter_cons, decide_False.
Qed.

Lemma filter_all {A} (P : A → Prop) `{∀ x, Decision (P x)} (l : list A) :
  Forall P l → filter P l = l.
Proof.
  induction 1 as [|x l Hx _ IH]; [done|].
  rewrite filter_cons, decide_True by done. by rewrite IH.
Qed.

Lemma mapM_result_fmap {A B C} (f : B → result C) (h : A → B) (k : A → C)
    (l : list A) :
  (∀ x, x ∈ l → f (h x) = Ok (k x)) →
  mapM_result f (h <$> l) = Ok (k <$> l).
Proof.
  induction l as [|x l IH]; intros Hf; [done|].
  rewrite fmap_cons. simpl. rewrite Hf by left. simpl.
  rewrite IH; [done|]. intros y Hy. apply Hf. by right.
Qed.

(** [layer.iloc[idx, :]] with the positions that a filter keeps: the rows
    at these positions. *)
Lemma iloc_select_from {A B} (Q : B → Prop)
    `{!∀ p : nat * B, Decision (Q p.2), !∀ p : A * B, Decision (Q p.2)}
    (all : list A) (s : nat) (l : list (A * B)) :
  (∀ i, all !! (s + i)%nat = l.*1 !! i) →
  omap (λ i, all !! i)
    (fst <$> filter (λ p : nat * B, Q p.2) (imap (λ nr x, ((s + nr)%nat, x)) l.*2))
  = fst <$> filter (λ p : A * B, Q p.2) l.
Proof.
  revert s. induction l as [|[a b] l IH]; intros s Hall; [done|].
  rewrite !fmap_cons, imap_cons, !filter_cons. cbn [fst snd].
  assert (Hrest :
    omap (λ i, all !! i)
      (fst <$> filter (λ p : nat * B, Q p.2)
                 (imap ((λ nr x, ((s + nr)%nat, x)) ∘ S) l.*2))
    = fst <$> filter (λ p : A * B, Q p.2) l).
  { rewrite (imap_ext _ (λ nr x, ((S s + nr)%nat, x))).
    2:{ intros i x _. simpl. f_equal. lia. }
    apply IH. intros i.
    transitivity (all !! (s + S i)%nat); [f_equal; lia | exact (Hall (S i))]. }
  destruct (decide _) as [H1|H1]; destruct (decide _) as [H2|H2]; try done.
  rewrite !fmap_cons. cbn [fst omap]. simpl.
  rewrite (Hall 0%nat). simpl. f_equal. exact Hrest.
Qed.

Lemma iloc_select {A B} (Q : B → Prop)
    `{!∀ p : nat * B, Decision (Q p.2), !∀ p : A * B, Decision (Q p.2)}
    (l : list (A * B)) :
  omap (λ i, l.*1 !! i)
    (fst <$> filter (λ p : nat * B, Q p.2) (imap (λ nr x, (nr, x)) l.*2))
  = fst <$> filter (λ p : A * B, Q p.2) l.
Proof. apply (iloc_select_from Q l.*1 0 l). done. Qed.

Lemma filter_iff_elem {A} (P1 P2 : A → Prop)
    `{!∀ x, Decision (P1 x), !∀ x, Decision (P2 x)} (l : list A) :
  (∀ x, x ∈ l → P1 x ↔ P2 x) → filter P1 l = filter P2 l.
Proof.
  induction l as [|a l IH]; intros Hiff; [done|].
  rewrite !filter_cons.
  assert (Hl : filter P1 l = filter P2 l).
  { apply IH. intros x Hx. apply Hiff. by right. }
  destruct (decide (P1 a)) as [H1|H1], (decide (P2 a)) as [H2|H2];
    rewrite ?Hl; try done.
  - exfalso. apply H2. apply Hiff; [left | done].
  - exfalso. apply H1. apply Hiff; [left | done].
Qed.

Lemma filter_fmap {A B} (f : A → B) (P : B → Prop) `{!∀ x, Decision (P x)}
    (l : list A) :
  filter P (f <$> l) = f <$> filter (λ x, P (f x)) l.
Proof.
  induction l as [|a l IH]; [done|].
  rewrite fmap_cons, !filter_cons.
  destruct (decide (P (f a))); rewrite ?fmap_cons, IH; done.
Qed.

Lemma zip_with_fmap_same {A B C D} (f : B → C → D) (g : A → B) (h : A → C)
    (l : list A) :
  zip_with f (g <$> l) (h <$> l) = (λ x, f (g x) (h x)) <$> l.
Proof. induction l as [|x l IH]; [done|]. simpl. f_equal. exact IH. Qed.

Lemma filter_unique {A} (P : A → Prop) `{!∀ x, Decision (P x)} (l : list A) x :
  NoDup l → x ∈ l → P x → (∀ y, y ∈ l → P y → y = x) → filter P l = [x].
Proof.
  induction l as [|a l IH]; intros Hnd Hin HP Huniq.
  - by apply elem_of_nil in Hin.
  - apply NoDup_cons in Hnd as [Ha Hnd]. rewrite filter_cons.
    apply elem_of_cons in Hin as [->|Hin].
    + rewrite decide_True by done. f_equal.
      apply filter_none, Forall_forall. intros y Hy HPy.
      assert (y = a) as -> by (apply Huniq; [by right | done]). done.
    + rewrite decide_False.
      * apply IH; try done. intros y Hy. apply Huniq. by right.
      * intros HPa. assert (a = x) as -> by (apply Huniq; [left | done]). done.
Qed.

Lemma distinct_orders_NoDup (recs : list point_rec) :
  distinct_orders recs → NoDup recs.
Proof.
  induction recs as [|r recs IH]; intros Hd; [constructor|].
  apply NoDup_cons. split.
  - intros Hin. specialize (Hd (rbranch r)). rewrite orders_in_cons in Hd.
    rewrite decide_True in Hd by done. apply NoDup_cons in Hd as [Hnin _].
    apply Hnin. by apply elem_of_orders_in.
  - apply IH. intros b. specialize (Hd b). rewrite orders_in_cons in Hd.
    case_decide; [by apply NoDup_cons in Hd as [_ ?] | done].
Qed.

(** Every branch has exactly one first record, when the numbers of a branch
    are pairwise distinct. *)
Lemma minimum_exists (l : list Z) :
  l ≠ [] → ∃ o, o ∈ l ∧ ∀ o', o' ∈ l → (o ≤ o')%Z.
Proof.
  induction l as [|x l IH]; [done|]. intros _.
  destruct l as [|y l].
  - exists x. split; [left|]. intros o' Ho'.
    apply list_elem_of_singleton in Ho'. lia.
  - destruct IH as (o & Ho & Hmin); [done|].
    destruct (decide (x ≤ o)%Z).
    + exists x. split; [left|]. intros o' Ho'.
      apply elem_of_cons in Ho' as [->|Ho']; [lia|]. specialize (Hmin _ Ho'). lia.
    + exists o. split; [by right|]. intros o' Ho'.
      apply elem_of_cons in Ho' as [->|Ho']; [lia | by apply Hmin].
Qed.

Lemma first_in_branch_exists_unique (recs : list point_rec) (r : point_rec) :
  distinct_orders recs → r ∈ recs →
  ∃ r', (r' ∈ recs ∧ rbranch r' = rbranch r ∧ first_in_branch recs r') ∧
        ∀ r'', r'' ∈ recs ∧ rbranch r'' = rbranch r ∧ first_in_branch recs r'' →
               r'' = r'.
Proof.
  intros Hd Hr.
  destruct (minimum_exists (orders_in (rbranch r) recs)) as (o & Ho & Hmin).
  { intros Hnil. pose proof (elem_of_orders_in (rbranch r) r recs Hr eq_refl) as H.
    rewrite Hnil in H. by apply elem_of_nil in H. }
  apply elem_of_orders_in_inv in Ho as (r' & Hr' & Hb' & Ho').
  exists r'. split.
  - split; [done|]. split; [done|]. unfold first_in_branch.
    apply Forall_forall. intros r1 Hr1 Hb1. rewrite Ho'. apply Hmin.
    apply elem_of_orders_in; [done | congruence].
  - intros r'' (Hr'' & Hb'' & Hfirst).
    apply (distinct_orders_inj recs); try done; [congruence|].
    unfold first_in_branch in Hfirst. rewrite Forall_forall in Hfirst.
    specialize (Hfirst r' Hr'). rewrite Ho'.
    assert (rorder r'' ∈ orders_in (rbranch r) recs) as Hin
      by (by apply elem_of_orders_in).
    specialize (Hmin _ Hin). assert (rorder r'' ≤ rorder r')%Z; [|lia].
    apply Hfirst. congruence.
Qed.

Section Reconstruction.

Context (layer : GeoDataFrame) (groupby_column order_column : string).
Context (gi oi pi : nat) (rr : list (Row * point_rec)).

Let recs : list point_rec := rr.*2.

Hypothesis Hgi : index_of groupby_column (columns layer) = Some gi.
Hypothesis Hoi : index_of order_column (columns layer) = Some oi.
Hypothesis Hpi : index_of geometry_name (columns layer) = Some pi.
Hypothesis Hrows : rows layer = rr.*1.
Hypothesis Hread : Forall (reads_as gi oi pi) rr.
Hypothesis Hne : rr ≠ [].
Hypothesis Hhom : homogeneous (rbranch <$> recs).
Hypothesis Htwo : ∀ r, r ∈ recs → (2 ≤ length (recs_in (rbranch r) recs))%nat.
Hypothesis Hdist : distinct_orders recs.

Lemma column_branch : cell gi <$> rows layer = rbranch <$> recs.
Proof using Hrows Hread.
  rewrite Hrows. subst recs. rewrite <- !list_fmap_compose.
  apply Forall_fmap_ext_1. eapply Forall_impl; [exact Hread|].
  by intros p (? & _).
Qed.

Lemma column_order : cell oi <$> rows layer = (λ r, VInt (rorder r)) <$> recs.
Proof using Hrows Hread.
  rewrite Hrows. subst recs. rewrite <- !list_fmap_compose.
  apply Forall_fmap_ext_1. eapply Forall_impl; [exact Hread|].
  by intros p (_ & ? & _).
Qed.

Lemma column_geometry : cell pi <$> rows layer = rpoint <$> recs.
Proof using Hrows Hread.
  rewrite Hrows. subst recs. rewrite <- !list_fmap_compose.
  apply Forall_fmap_ext_1. eapply Forall_impl; [exact Hread|].
  by intros p (_ & _ & ?).
Qed.

Lemma recs_length : length recs = length (rows layer).
Proof using Hrows. subst recs. by rewrite Hrows, !length_fmap. Qed.

(** The grouping up to the assignment: the slots of every branch hold its
    points in ascending order. *)
Lemma assign_groups_points :
  ∃ g, assign_groups layer groupby_column (Some order_column) = Ok g ∧
       groupbyvalues g = rbranch <$> recs ∧
       order g = (λ r, VInt (rorder r)) <$> recs ∧
       NoDup (branches_counts g).*1 ∧
       (∀ b, b ∈ (branches_counts g).*1 ↔ b ∈ rbranch <$> recs) ∧
       (∀ b c, (b, c) ∈ branches_counts g → c = length (recs_in b recs)) ∧
       (∀ r, r ∈ recs →
             startnr g !! rbranch r
             = Some (VInt (startnr_of (length (rows layer)) recs (rbranch r)))) ∧
       (∀ r, r ∈ recs →
             lines g !! rbranch r
             = Some (Slots ((λ c, VGeom (Point c))
                            <$> branch_line (rbranch r) recs))).
Proof using All.
  destruct (np_unique_homogeneous _ Hhom) as (bc & Hu & Hnd & Hbs & Hcount).
  assert (Hbr : ∀ r, r ∈ recs → rbranch r ∈ bc.*1).
  { intros r Hr. apply Hbs. apply list_elem_of_fmap. by exists r. }
  destruct (find_startnr_spec (length (rows layer)) bc.*1 recs)
    as (start & Hstart & Hstartl).
  { intros r Hr. split; [|by apply Hbr].
    apply (homogeneous_not_null _ _ Hhom), list_elem_of_fmap. by exists r. }
  destruct (relative_order_spec recs Hdist) as (rels & Hrels & Hranked).
  destruct (assign_points_ranked recs rels
              (list_to_map ((λ '(branch, count),
                               (branch, Slots (replicate count (VInt 0)))) <$> bc))
              Hdist Hranked) as (lines' & Hassign & _ & Hlines).
  { intros r Hr.
    assert (Hin : rbranch r ∈ bc.*1) by (by apply Hbr).
    apply list_elem_of_fmap in Hin as ([b c] & Hb & Hin). simpl in Hb. subst b.
    rewrite (initial_slots_count bc _ c Hnd Hin).
    rewrite (Hcount _ _ Hin), count_branch. unfold orders_in.
    by rewrite length_fmap. }
  exists (mkGrouping (rbranch <$> recs) ((λ r, VInt (rorder r)) <$> recs)
            bc start lines').
  split.
  - unfold assign_groups.
    rewrite bool_decide_false.
    2:{ intros Hnin. apply index_of_None in Hnin. congruence. }
    unfold geometry. rewrite Hpi. simpl.
    rewrite column_geometry.
    assert (Hfirst : ∃ r0,
              match rpoint <$> recs with
              | [] => Raise (IndexError "single positional indexer is out-of-bounds")
              | g :: _ => Ok g
              end = Ok (rpoint r0)).
    { subst recs. destruct rr as [|[row r0] rr0]; [done|]. by exists r0. }
    destruct Hfirst as [r0 ->]. simpl.
    unfold getitem. rewrite Hgi, Hoi. simpl.
    rewrite column_branch, column_order. rewrite Hu. simpl.
    rewrite zip_fmap_same. fold (pairs_of recs). rewrite Hstart. simpl.
    rewrite Hrels. simpl.
    rewrite zip_columns, Hassign. done.
  - simpl. split; [done|]. split; [done|]. split; [done|]. split; [done|].
    split; [|split].
    + intros b c Hin. by rewrite (Hcount _ _ Hin), count_branch.
    + intros r Hr. apply Hstartl. by apply Hbr.
    + intros r Hr. destruct (Hlines r Hr) as (pts' & Hl & Hlen & Hj).
      rewrite Hl. f_equal. f_equal. by apply slots_branch_line.
Qed.


Lemma selected_rows :
  omap (λ i, rows layer !! i)
    (fst <$> filter (λ '(nr, (i, volgnr)), py_eq i volgnr = true)
               (imap (λ nr x, (nr, x))
                  (zip ((λ r, VInt (rorder r)) <$> recs)
                       ((λ r, VInt (startnr_of (length (rows layer)) recs
                                      (rbranch r)))
                        <$> recs))))
  = fst <$> filter (λ p, starts_branch (length (rows layer)) recs p.2) rr.
Proof using Hrows.
  set (n := length (rows layer)).
  rewrite zip_fmap_same.
  set (h := λ r : point_rec,
         (VInt (rorder r), VInt (startnr_of n recs (rbranch r)))).
  set (Q := λ x : value * value, py_eq x.1 x.2 = true).
  rewrite (list_filter_iff _ (λ p : nat * (value * value), Q p.2)).
  2:{ by intros [nr [i volgnr]]. }
  set (l := (λ p : Row * point_rec, (p.1, h p.2)) <$> rr).
  assert (Hl1 : l.*1 = rows layer).
  { subst l. rewrite Hrows, <- list_fmap_compose. by apply list_fmap_ext. }
  assert (Hl2 : l.*2 = h <$> recs).
  { subst l recs. rewrite <- !list_fmap_compose. by apply list_fmap_ext. }
  rewrite <- Hl2, <- Hl1. rewrite (iloc_select Q l). subst l.
  rewrite (filter_fmap _ (λ p : Row * (value * value), Q p.2)).
  rewrite <- list_fmap_compose.
  rewrite (filter_iff_elem _ (λ p : Row * point_rec, starts_branch n recs p.2)).
  - by apply list_fmap_ext.
  - intros [row r] Hin. subst Q h. unfold starts_branch. simpl.
    split; [by intros [= ->]%py_eq_true | intros ->; by apply py_eq_refl].
Qed.

Lemma group_points_selected w :
  ∃ gdf,
    group_points layer groupby_column (Some order_column) w = (w, Ok gdf) ∧
    columns gdf = columns layer ∧
    rows gdf
    = (λ p, set_cell (length (columns layer)) pi p.1
              (VGeom (LineString (branch_line (rbranch p.2) recs))))
      <$> filter (λ p, starts_branch (length (rows layer)) recs p.2) rr.
Proof using All.
  destruct assign_groups_points
    as (g & Hg & HG & HO & Hnd & Hbs & Hcount & Hstart & Hlines).
  assert (Hbranch : ∀ b, b ∈ (branches_counts g).*1 → ∃ r, r ∈ recs ∧ b = rbranch r).
  { intros b Hb. apply Hbs in Hb.
    apply list_elem_of_fmap in Hb as (r0 & Heq & Hr0). by exists r0. }
  assert (Hcounts : Forall (λ bc, singlepoint bc = false) (branches_counts g)).
  { apply Forall_forall. intros [b c] Hin. unfold singlepoint. simpl.
    rewrite bool_decide_false; [done|].
    destruct (Hbranch b) as (r & Hr & Hb).
    { apply list_elem_of_fmap. by exists (b, c). }
    rewrite (Hcount _ _ Hin), Hb. specialize (Htwo r Hr). lia. }
  assert (Hmulti : multipoint_branches g = (branches_counts g).*1).
  { unfold multipoint_branches. by rewrite filter_all. }
  assert (Hsingle : singlepoint_branches g = []).
  { unfold singlepoint_branches. rewrite filter_none; [done|].
    eapply Forall_impl; [exact Hcounts|]. intros bc Hbc. simpl in *. congruence. }
  destruct (group_lines_filled (multipoint_branches g) (lines g) w)
    as (lines' & Hrun & Hin & _).
  { by rewrite Hmulti. }
  { intros b Hb. rewrite Hmulti in Hb. destruct (Hbranch b Hb) as (r & Hr & ->).
    exists (branch_line (rbranch r) recs). split; [by apply Hlines|].
    rewrite branch_line_length. specialize (Htwo r Hr). lia. }
  assert (Hline : ∀ r, r ∈ recs →
            lines' !! rbranch r
            = Some (Line (LineString (branch_line (rbranch r) recs)))).
  { intros r Hr. apply Hin; [|by apply Hlines].
    rewrite Hmulti. apply Hbs. apply list_elem_of_fmap. by exists r. }
  set (kept := filter (λ p : Row * point_rec, starts_branch (length (rows layer)) recs p.2) rr).
  set (line_of := λ p : Row * point_rec,
         VGeom (LineString (branch_line (rbranch p.2) recs))).
  assert (Hsel : select_features layer groupby_column g lines'
                 = setitem (mkFrame (columns layer) (fst <$> kept)
                              (index_name layer) (crs layer))
                     geometry_name (line_of <$> kept)).
  { unfold select_features. rewrite Hgi. simpl.
    rewrite Hsingle. simpl. rewrite HG.
    rewrite (mapM_result_fmap _ rbranch
               (λ r, VInt (startnr_of (length (rows layer)) recs (rbranch r)))).
    2:{ intros r Hr. by rewrite Hstart. }
    simpl. rewrite HO. unfold iloc. rewrite selected_rows. fold kept. simpl.
    rewrite (mapM_result_fmap _ fst line_of).
    2:{ intros [row r] Hp. subst kept. apply list_elem_of_filter in Hp as [_ Hp].
        assert (Hr : r ∈ recs).
        { subst recs. apply list_elem_of_fmap. by exists (row, r). }
        rewrite Forall_forall in Hread. destruct (Hread _ Hp) as (Hb & _).
        simpl in *. rewrite Hb, (Hline r Hr). done. }
    done. }
  unfold group_points, then_, lift. rewrite Hg, Hrun, Hsel.
  rewrite setitem_rows_present by (simpl; by rewrite !length_fmap).
  simpl. rewrite Hpi. eexists. split; [done|]. split; [done|]. simpl.
  apply (zip_with_fmap_same (set_cell (length (columns layer)) pi) fst line_of).
Qed.

Lemma geometry_not_branch : pi ≠ gi.
Proof using All.
  intros ->.
  assert (Hp0 : ∃ p0, p0 ∈ rr).
  { destruct rr as [|p0 rr0]; [done|]. exists p0. left. }
  destruct Hp0 as [[row0 r0] Hp0].
  pose proof (proj1 (Forall_forall _ _) Hread _ Hp0) as (Hb & _ & Hp).
  simpl in *.
  assert (Hh : rbranch r0 ∈ rbranch <$> recs).
  { apply list_elem_of_fmap. exists r0. split; [done|].
    subst recs. apply list_elem_of_fmap. by exists (row0, r0). }
  rewrite <- Hb, Hp in Hh.
  destruct Hhom as [[ss Hss]|[zs Hzs]].
  - rewrite Hss in Hh. by apply list_elem_of_fmap in Hh as (? & [=] & _).
  - rewrite Hzs in Hh. by apply list_elem_of_fmap in Hh as (? & [=] & _).
Qed.

(** X3.  The starting number of a branch is searched from the number of rows
    plus 1 downwards: a branch whose numbers are all above it has no point
    with the starting number, and the frame that results has no row for
    it. *)
Theorem group_points_skips_branch_numbered_above_row_count w b :
  (∀ r, r ∈ recs → rbranch r = b →
        (Z.of_nat (length (rows layer)) + 1 < rorder r)%Z) →
  ∃ gdf,
    group_points layer groupby_column (Some order_column) w = (w, Ok gdf) ∧
    Forall (λ row, cell gi row ≠ b) (rows gdf).
Proof using All.
  intros Habove. destruct (group_points_selected w) as (gdf & Hrun & _ & Hrws).
  exists gdf. split; [exact Hrun|]. rewrite Hrws.
  apply Forall_fmap, Forall_forall. intros [row r] Hin. simpl.
  apply list_elem_of_filter in Hin as [Hstart Hin]. simpl in Hstart.
  pose proof geometry_not_branch as Hne'.
  rewrite cell_set_cell_ne; [|done|by eapply index_of_lt].
  rewrite Forall_forall in Hread. destruct (Hread _ Hin) as (Hb & _).
  simpl in Hb. rewrite Hb. intros Heq.
  assert (Hr : r ∈ recs).
  { subst recs. apply list_elem_of_fmap. by exists (row, r). }
  pose proof (Habove r Hr Heq) as Hr_above.
  unfold starts_branch, startnr_of in Hstart.
  destruct (foldl_min_le (Z.of_nat (length (rows layer)) + 1)
              (orders_in (rbranch r) recs)) as [Hs _].
  destruct (foldl_min_elem (Z.of_nat (length (rows layer)) + 1)
              (orders_in (rbranch r) recs)) as [Hf|Hf].
  - lia.
  - apply elem_of_orders_in_inv in Hf as (r' & Hr' & Hb' & Ho').
    assert (Z.of_nat (length (rows layer)) + 1 < rorder r')%Z
      by (apply Habove; [done | congruence]).
    lia.
Qed.

(** The smallest number of every branch is not above the number of rows
    plus 1: the value that the search for the starting number begins with. *)
Hypothesis Hlow :
  ∀ r, r ∈ recs →
       ∃ r', r' ∈ recs ∧ rbranch r' = rbranch r ∧
             (rorder r' ≤ Z.of_nat (length (rows layer)) + 1)%Z.

Lemma group_points_rows w :
  ∃ gdf,
    group_points layer groupby_column (Some order_column) w = (w, Ok gdf) ∧
    columns gdf = columns layer ∧
    rows gdf
    = (λ p, set_cell (length (columns layer)) pi p.1
              (VGeom (LineString (branch_line (rbranch p.2) recs))))
      <$> filter (λ p, first_in_branch recs p.2) rr.
Proof using All.
  destruct (group_points_selected w) as (gdf & Hrun & Hcols & Hrws).
  exists gdf. split; [exact Hrun|]. split; [exact Hcols|]. rewrite Hrws.
  f_equal. apply filter_iff_elem. intros [row r] Hin. simpl.
  assert (Hr : r ∈ recs).
  { subst recs. apply list_elem_of_fmap. by exists (row, r). }
  unfold starts_branch. apply startnr_of_first; [done | by apply Hlow].
Qed.

(** X1.  The grouping of a layer of points in which every branch has two points
    or more with pairwise distinct numbers, the smallest of them not above
    the number of rows plus 1: nothing is printed, and the frame that
    results has, for every branch, the row of its first point, with the
    line through the points of the branch in ascending order of their
    numbers as its geometry. *)
Theorem group_points_reconstructs w :
  ∃ gdf,
    group_points layer groupby_column (Some order_column) w = (w, Ok gdf) ∧
    columns gdf = columns layer ∧
    rows gdf
    = (λ p, set_cell (length (columns layer)) pi p.1
              (VGeom (LineString (branch_line (rbranch p.2) recs))))
      <$> filter (λ p, first_in_branch recs p.2) rr.
Proof using All. exact (group_points_rows w). Qed.

(** X2.  Under the same conditions, the frame that the grouping returns has
    exactly one row for every branch, and the geometry of that row is the
    line through the points of the branch, sorted by ascending number. *)
Theorem group_points_one_line_per_branch w r :
  r ∈ recs →
  ∃ gdf row,
    group_points layer groupby_column (Some order_column) w = (w, Ok gdf) ∧
    filter (λ row, cell gi row = rbranch r) (rows gdf) = [row] ∧
    cell pi row = VGeom (LineString (branch_line (rbranch r) recs)).
Proof using All.
  intros Hr. destruct (group_points_rows w) as (gdf & Hrun & Hcols & Hrws).
  set (ncols := length (columns layer)) in *.
  set (f := λ p : Row * point_rec,
         set_cell ncols pi p.1
           (VGeom (LineString (branch_line (rbranch p.2) recs)))) in *.
  assert (Hgi_lt : (gi < ncols)%nat) by (by eapply index_of_lt).
  assert (Hpi_lt : (pi < ncols)%nat) by (by eapply index_of_lt).
  pose proof geometry_not_branch as Hne'.
  destruct (first_in_branch_exists_unique recs r Hdist Hr)
    as (r1 & (Hr1 & Hb1 & Hf1) & Huniq).
  assert (Hp1 : ∃ row1, (row1, r1) ∈ rr).
  { subst recs. apply list_elem_of_fmap in Hr1 as ([row1 r1'] & -> & Hin).
    by exists row1. }
  destruct Hp1 as [row1 Hp1].
  exists gdf, (f (row1, r1)). split; [exact Hrun|]. split.
  - rewrite Hrws, filter_fmap, list_filter_filter.
    rewrite (filter_unique _ rr (row1, r1)); [done| |done| |].
    + apply (NoDup_fmap_1 snd). by apply distinct_orders_NoDup.
    + split; [|done]. subst f. simpl.
      rewrite cell_set_cell_ne by done.
      rewrite Forall_forall in Hread. destruct (Hread _ Hp1) as (Hb & _).
      simpl in Hb. congruence.
    + intros [row2 r2] Hin2 [Hcell Hfirst]. subst f. simpl in *.
      rewrite cell_set_cell_ne in Hcell by done.
      rewrite Forall_forall in Hread.
      destruct (Hread _ Hin2) as (Hb2 & _). simpl in Hb2.
      assert (Hr2 : r2 ∈ recs).
      { subst recs. apply list_elem_of_fmap. by exists (row2, r2). }
      assert (r2 = r1) as ->.
      { apply Huniq. split; [done|]. split; [congruence | done]. }
      assert (Hnd : NoDup rr.*2) by (by apply distinct_orders_NoDup).
      apply list_elem_of_lookup in Hin2 as [i Hi], Hp1 as [j Hj].
      assert (i = j) as ->.
      { eapply NoDup_lookup; [exact Hnd| |]; rewrite list_lookup_fmap.
        - by rewrite Hi.
        - by rewrite Hj. }
      congruence.
  - subst f. simpl. rewrite cell_set_cell by done. by rewrite Hb1.
Qed.

End Reconstruction.

End Core.


Lemma distinct_orders_Forall (recs : list point_rec) :
  Forall (λ r, NoDup (orders_in (rbranch r) recs)) recs → distinct_orders recs.
Proof.
  intros Hall b. destruct (decide (b ∈ rbranch <$> recs)) as [Hb|Hb].
  - apply list_elem_of_fmap in Hb as (r & -> & Hr).
    rewrite Forall_forall in Hall. by apply Hall.
  - assert (Hnil : orders_in b recs = []).
    { unfold orders_in, recs_in. rewrite filter_none; [done|].
      apply Forall_forall. intros r Hr Heq. apply Hb.
      apply list_elem_of_fmap. by exists r. }
    rewrite Hnil. constructor.
Qed.

Section CoreWitnesses.

#[local] Existing Instance example_library.

Lemma group_points_reconstructs_witness :
  ∃ gdf,
    group_points mixed_layer "branch" (Some "nr") (mkWorld branch_store [])
    = (mkWorld branch_store [], Ok gdf) ∧
    columns gdf = columns mixed_layer ∧
    rows gdf
    = (λ p, set_cell (length (columns mixed_layer)) 2 p.1
              (VGeom (LineString (branch_line (rbranch p.2) mixed_recs))))
      <$> filter (λ p, first_in_branch mixed_recs p.2)
            (zip (rows mixed_layer) mixed_recs).
Proof.
  apply (group_points_reconstructs mixed_layer "branch" "nr" 0 1 2
           (zip (rows mixed_layer) mixed_recs)).
  - reflexivity.
  - reflexivity.
  - reflexivity.
  - reflexivity.
  - repeat constructor.
  - discriminate.
  - left. by exists ["A"; "A"; "B"; "B"; "A"].
  - apply Forall_forall. by_computation.
  - apply distinct_orders_Forall. by_computation.
  - intros r Hr.
    assert (Hall : Forall (λ r, Exists (λ r', rbranch r' = rbranch r ∧
                     (rorder r' ≤ Z.of_nat (length (rows mixed_layer)) + 1)%Z)
                     (zip (rows mixed_layer) mixed_recs).*2)
                     (zip (rows mixed_layer) mixed_recs).*2) by by_computation.
    rewrite Forall_forall in Hall. specialize (Hall r Hr).
    apply Exists_exists in Hall as (r' & Hr' & Hb & Ho). by exists r'.
Defined.

Lemma group_points_one_line_per_branch_witness :
  ∃ gdf row,
    group_points mixed_layer "branch" (Some "nr") (mkWorld branch_store [])
    = (mkWorld branch_store [], Ok gdf) ∧
    filter (λ row, cell 0 row = VStr "A") (rows gdf) = [row] ∧
    cell 2 row = VGeom (LineString (branch_line (VStr "A") mixed_recs)).
Proof.
  apply (group_points_one_line_per_branch mixed_layer "branch" "nr" 0 1 2
           (zip (rows mixed_layer) mixed_recs)) with (r := (VStr "A", 3, (9, 9))).
  - reflexivity.
  - reflexivity.
  - reflexivity.
  - reflexivity.
  - repeat constructor.
  - discriminate.
  - left. by exists ["A"; "A"; "B"; "B"; "A"].
  - apply Forall_forall. by_computation.
  - apply distinct_orders_Forall. by_computation.
  - intros r Hr.
    assert (Hall : Forall (λ r, Exists (λ r', rbranch r' = rbranch r ∧
                     (rorder r' ≤ Z.of_nat (length (rows mixed_layer)) + 1)%Z)
                     (zip (rows mixed_layer) mixed_recs).*2)
                     (zip (rows mixed_layer) mixed_recs).*2) by by_computation.
    rewrite Forall_forall in Hall. specialize (Hall r Hr).
    apply Exists_exists in Hall as (r' & Hr' & Hb & Ho). by exists r'.
  - by_computation.
Defined.

Lemma group_points_skips_branch_numbered_above_row_count_witness :
  ∃ gdf,
    group_points sparse_layer "branch" (Some "nr") (mkWorld branch_store [])
    = (mkWorld branch_store [], Ok gdf) ∧
    Forall (λ row, cell 0 row ≠ VStr "A") (rows gdf).
Proof.
  apply (group_points_skips_branch_numbered_above_row_count sparse_layer
           "branch" "nr" 0 1 2 (zip (rows sparse_layer) sparse_recs)).
  - reflexivity.
  - reflexivity.
  - reflexivity.
  - reflexivity.
  - repeat constructor.
  - discriminate.
  - left. by exists ["A"; "A"].
  - apply Forall_forall. by_computation.
  - apply distinct_orders_Forall. by_computation.
  - apply (proj1 (Forall_forall
             (λ r : point_rec,
                rbranch r = VStr "A" →
                (Z.of_nat (length (rows sparse_layer)) + 1 < rorder r)%Z) _)).
    by_computation.
Defined.

End CoreWitnesses.
(** * Further properties of the methods *)

Section Further.

Context {library : Library}.


(** ** Lower-cased column names *)

Lemma lower_ascii_idem a : lower_ascii (lower_ascii a) = lower_ascii a.
Proof. by destruct a as [[] [] [] [] [] [] [] []]. Qed.

Lemma lower_idem s : lower (lower s) = lower s.
Proof.
  induction s as [|a s IH]; simpl; [done|]. by rewrite lower_ascii_idem, IH.
Qed.

Section Lowercase.

Variable intersects : Geometry → Geometry → bool.

Lemma read_gpkg_layer_uppercase_run layer index_col groupby_column
    order_column id_col column_mapping check_columns check_geotype clip_ w :
  Forall (λ c, str_lower (str_lower c) = str_lower c) (columns layer) →
  str_lower groupby_column ≠ groupby_column →
  read_gpkg_layer intersects true (Ok layer) index_col (Some groupby_column)
    order_column id_col column_mapping check_columns check_geotype clip_ w
  = (w, Raise (ValueError "Groupby column not found in feature list.")).
Proof.
  intros Hidem Hlow. unfold read_gpkg_layer. simpl.
  unfold then_ at 1. unfold lift at 1.
  unfold then_ at 1. unfold group_points.
  unfold then_ at 1. unfold lift at 1. unfold assign_groups.
  rewrite bool_decide_true; [done|]. simpl. intros Hin.
  apply list_elem_of_fmap in Hin as (c & Hc & Hcol). apply Hlow.
  rewrite Forall_forall in Hidem. rewrite Hc. by apply Hidem.
Qed.

(** X6.  [read_gpkg_layer] lower-cases the column names of the layer and
    looks the column to group by up as it is given: a name that its
    lower-casing changes is never found (lower-casing the column names once
    more changes nothing), [ValueError] is raised, nothing is printed and
    the instance is as it was. *)
Theorem read_gpkg_layer_ValueError_for_uppercase_groupby_column
    layer index_col groupby_column order_column id_col column_mapping
    check_columns check_geotype clip_ self :
  Forall (λ c, str_lower (str_lower c) = str_lower c) (columns layer) →
  str_lower groupby_column ≠ groupby_column →
  let m := read_gpkg_layer intersects true (Ok layer) index_col
             (Some groupby_column) order_column id_col column_mapping
             check_columns check_geotype clip_ in
  outcome m self = Raise (ValueError "Groupby column not found in feature list.") ∧
  after m self = self ∧ output m self = [].
Proof.
  intros Hidem Hlow m. subst m. unfold outcome, after, output, run.
  by rewrite read_gpkg_layer_uppercase_run.
Qed.

End Lowercase.

(** ** Emptying the instance *)


(** ** Checking the projection twice *)

Section ReprojectionTwice.

Variable transform : CRS → CRS → Geometry → Geometry.

(** X13.  [check_projection] is idempotent: a second call with the same
    target leaves the instance as the first call left it, and after a call
    that returned, the coordinate reference system of the instance is the
    target and the second call returns as well. *)
Theorem check_projection_idempotent self crs_out :
  let m := check_projection transform crs_out in
  after m (after m self) = after m self ∧
  (outcome m self = Ok () →
   crs (frame (after m self)) = crs_out ∧ outcome m (after m self) = Ok ()).
Proof.
  intros m. subst m. destruct self as [[cols rws name c] req gt].
  unfold outcome, after, run. simpl.
  assert (Hsame : ∀ self' : ExtendedGeoDataFrame,
            crs (frame self') = crs_out →
            check_projection transform crs_out (mkWorld self' [])
            = (mkWorld self' [], Ok ())).
  { intros self' Hcrs. unfold check_projection, then_, get_self. simpl.
    by rewrite bool_decide_false by (by intros H; apply H). }
  assert (Hdiff : ∀ self' : ExtendedGeoDataFrame,
            crs_out ≠ crs (frame self') →
            check_projection transform crs_out (mkWorld self' [])
            = to_crs transform crs_out (mkWorld self' [])).
  { intros self' Hcrs. unfold check_projection, then_, get_self. simpl.
    by rewrite bool_decide_true. }
  destruct (decide (crs_out = c)) as [->|Hne].
  { rewrite !(Hsame (mkExtended (mkFrame cols rws name c) req gt)) by done.
    simpl. by rewrite !(Hsame (mkExtended (mkFrame cols rws name c) req gt)). }
  rewrite (Hdiff (mkExtended (mkFrame cols rws name c) req gt)) by done.
  unfold to_crs, then_, get_self, put_frame, raise. simpl.
  destruct (index_of geometry_name cols) as [i|] eqn:Hi; simpl.
  - destruct c as [src|], crs_out as [dst|]; simpl; try done.
    + destruct (is_crs dst) eqn:Hcrs; simpl.
      * destruct (decide (dst = src)) as [->|Hsrc]; [done|]. simpl.
        rewrite Hsame by (simpl; congruence). done.
      * split; [|done]. rewrite Hdiff by (simpl; congruence).
        unfold to_crs, then_, get_self, raise. simpl. by rewrite Hi, Hcrs.
    + split; [|done]. rewrite Hdiff by (simpl; congruence).
      unfold to_crs, then_, get_self, raise. simpl. by rewrite Hi.
    + split; [|done]. rewrite Hdiff by (simpl; congruence).
      unfold to_crs, then_, get_self, raise. simpl. by rewrite Hi.
  - split; [|done]. rewrite Hdiff by (simpl; congruence).
    unfold to_crs, then_, get_self, raise. simpl. by rewrite Hi.
Qed.

End ReprojectionTwice.

(** ** Merging with a column that is missing *)

(** X14.  [merge_columns] when one of the two columns is missing: the
    instance is left as it was, and [ValueError] is raised unless [col1] is
    the empty string and [col2] is missing, in which case the call returns
    without a word: the test [col1 or col2 in columns] is true for every
    non-empty [col1]. *)
Theorem merge_columns_missing_column self col1 col2 rename_col :
  col1 ∉ columns (frame self) ∨ col2 ∉ columns (frame self) →
  let m := merge_columns col1 col2 rename_col in
  after m self = self ∧
  (is_ValueError (outcome m self) ↔ col1 ≠ "" ∨ col2 ∈ columns (frame self)) ∧
  (outcome m self = Ok () ↔ col1 = "" ∧ col2 ∉ columns (frame self)).
Proof.
  intros Hmiss m. subst m.
  unfold merge_columns, outcome, after, run, then_, get_self, lift, put_frame,
    ret, is_ValueError, truthy; simpl.
  destruct (decide (col1 = "")) as [->|Hne1].
  - rewrite bool_decide_true by done. simpl.
    case_bool_decide as H2; simpl.
    + destruct Hmiss as [H1|H2']; [|done].
      rewrite (getitem_KeyError _ _ H1). simpl.
      split; [by destruct self|]. split.
      * split; [by right | by eexists].
      * split; [done | by intros [_ ?]].
    + split; [by destruct self|]. split.
      * split; [by intros [? ?] | by intros [|]].
      * done.
  - rewrite bool_decide_false by done. simpl.
    assert (Hrun : try_except
              (let* a := getitem (frame self) col1 in
               let* b := getitem (frame self) col2 in
               let* s := series_add a b in
               setitem (frame self) rename_col s)
              (ValueError "Merge of two profile columns did not succeed.")
            = Raise (ValueError "Merge of two profile columns did not succeed.")).
    { destruct Hmiss as [H1|H2].
      - by rewrite (getitem_KeyError _ _ H1).
      - rewrite (getitem_KeyError _ _ H2).
        by destruct (getitem (frame self) col1). }
    rewrite Hrun. simpl.
    split; [by destruct self|]. split.
    + split; [by left | by eexists].
    + split; [done | by intros [? _]].
Qed.

Lemma setitem_index df c vals df' :
  length (rows df) = length vals → setitem df c vals = Ok df' →
  index df' = index df ∧ crs df' = crs df ∧ index_name df' = index_name df.
Proof.
  intros Hlen. rewrite setitem_rows_present by done. simpl.
  destruct (index_of c (columns df)); intros [= <-]; unfold index; simpl;
    (split; [by apply fmap_zip_with_fst | done]).
Qed.

(** X15.  [merge_columns] touches the column [rename_col] alone: every other
    column, the index and the coordinate reference system of the instance
    are as before, however the call ends. *)
Theorem merge_columns_keeps_other_columns self col1 col2 rename_col c :
  c ≠ rename_col →
  let m := merge_columns col1 col2 rename_col in
  getitem (frame (after m self)) c = getitem (frame self) c ∧
  index (frame (after m self)) = index (frame self) ∧
  crs (frame (after m self)) = crs (frame self) ∧
  required_columns (after m self) = required_columns self ∧
  geotype (after m self) = geotype self.
Proof.
  intros Hne m. subst m.
  unfold merge_columns, outcome, after, run, then_, get_self, lift, put_frame,
    ret; simpl.
  destruct (truthy col1 || bool_decide (col2 ∈ columns (frame self))); simpl;
    [|done].
  destruct (getitem (frame self) col1) as [a|] eqn:Ha; simpl; [|done].
  destruct (getitem (frame self) col2) as [b|] eqn:Hb; simpl; [|done].
  destruct (series_add a b) as [s|] eqn:Hs; simpl; [|done].
  destruct (setitem (frame self) rename_col s) as [df'|] eqn:Hset; simpl; [|done].
  assert (Hlen : length (rows (frame self)) = length s).
  { apply getitem_length in Ha, Hb.
    rewrite (series_add_length a b s) by (done || congruence). done. }
  destruct (setitem_index _ _ _ _ Hlen Hset) as (Hi & Hc & _).
  split; [by eapply getitem_setitem_ne|]. done.
Qed.

(** ** What [set_data] deletes *)

(** X9.  [set_data] empties the instance before it checks the columns of
    the input: when a required column is missing from the input,
    [KeyError] is raised and the features that the instance held are
    gone. *)
Theorem set_data_KeyError_deletes_features self gdf index_col check_geotype c :
  c ∈ required_columns self → c ∉ columns gdf →
  let m := set_data gdf index_col true check_geotype in
  is_KeyError (outcome m self) ∧
  columns (frame (after m self)) = columns (frame self) ∧
  (columns (frame self) ≠ [] → rows (frame (after m self)) = []).
Proof.
  intros Hreq Hmiss m. subst m.
  rewrite set_data_outcome, set_data_after. unfold set_data_steps.
  destruct (missing_column (required_columns self) (columns gdf)) as [c'|] eqn:Hm.
  - simpl. split; [by eexists|]. split; [apply cleared_columns|].
    apply cleared_rows.
  - apply missing_column_None in Hm. exfalso. by apply Hmiss, Hm.
Qed.

(** ** Clipping twice *)

Section ClippingTwice.

Variable intersects : Geometry → Geometry → bool.

Lemma clip_after self geometry :
  wf_self self →
  let kept :=
    filter (λ r, intersects_value intersects (row_geometry (frame self) r)
                   geometry = true) (rows (frame self)) in
  after (clip intersects geometry) self =
  if isinstance geometry [CPolygon; CMultiPolygon]
     && negb (bool_decide (kept = []))
  then with_frame self (mkFrame (columns (frame self)) kept
                          (index_name (frame self)) (crs (frame self)))
  else self.
Proof.
  intros ((Hnd & Hwf & _) & Hreq & Hgeo) kept.
  unfold after, run.
  destruct (isinstance geometry [CPolygon; CMultiPolygon]) eqn:Hinst; simpl.
  2:{ unfold clip. by rewrite Hinst. }
  destruct (index_of_is_Some _ _ Hgeo) as [i Hi].
  destruct (clip_polygon intersects (mkWorld self []) geometry i Hinst Hi)
    as (mask & Hrows & ->).
  simpl in *. fold kept in Hrows.
  assert (Hcols : columns (frame self) ≠ []).
  { intros Hnil. rewrite Hnil in Hgeo. by apply elem_of_nil in Hgeo. }
  assert (Hempty : empty (loc_mask (frame self) mask)
                   = bool_decide (kept = [])).
  { unfold empty. simpl. rewrite Hrows.
    destruct kept; [done|]. by destruct (columns (frame self)). }
  rewrite Hempty. case_bool_decide as Hkept; simpl; [done|].
  rewrite set_data_run. simpl.
  rewrite set_data_steps_same_columns; simpl; try done.
  - unfold loc_mask in *. simpl in *. by rewrite Hrows.
  - split; [done|]. split; [|done]. simpl.
    apply Forall_fmap. apply Forall_forall. intros [r b] Hin. simpl.
    apply list_elem_of_filter in Hin as [_ Hin].
    apply elem_of_zip_l in Hin. rewrite Forall_forall in Hwf. by apply Hwf.
Qed.

Lemma filter_idem {A} (P : A → Prop) `{!∀ x, Decision (P x)} (l : list A) :
  filter P (filter P l) = filter P l.
Proof.
  rewrite list_filter_filter. apply list_filter_iff. intros x. tauto.
Qed.

(** X12.  [clip] on an instance that holds features keeps it well formed,
    and clipping a second time by the same geometry changes nothing. *)
Theorem clip_idempotent self geometry :
  wf_self self →
  let m := clip intersects geometry in
  wf_self (after m self) ∧ after m (after m self) = after m self.
Proof.
  intros Hwf m. subst m.
  pose proof Hwf as ((Hnd & Hlen & Hne) & Hreq & Hgeo).
  rewrite (clip_after self geometry Hwf). simpl.
  set (kept := filter _ (rows (frame self))).
  destruct (isinstance geometry [CPolygon; CMultiPolygon]) eqn:Hinst; simpl.
  2:{ split; [done|]. rewrite (clip_after self geometry Hwf). simpl.
      by rewrite Hinst. }
  case_bool_decide as Hkept; simpl.
  { split; [done|]. rewrite (clip_after self geometry Hwf). simpl.
    rewrite Hinst. fold kept. by rewrite bool_decide_true. }
  set (self' := with_frame self _).
  assert (Hwf' : wf_self self').
  { subst self'. split; [|done]. split; [done|]. split; simpl.
    - subst kept. rewrite Forall_forall in Hlen. apply Forall_forall.
      intros r Hr. apply list_elem_of_filter in Hr as [_ Hr]. by apply Hlen.
    - intros _ Hnil. rewrite Hnil in Hgeo. by apply elem_of_nil in Hgeo. }
  split; [done|].
  rewrite (clip_after self' geometry Hwf'). simpl. rewrite Hinst. simpl.
  assert (Hsame : filter (λ r, intersects_value intersects
                                 (row_geometry (frame self') r) geometry = true)
                    (rows (frame self')) = kept).
  { subst kept self'. unfold row_geometry. simpl. apply filter_idem. }
  simpl in Hsame. rewrite Hsame. by rewrite bool_decide_false.
Qed.

End ClippingTwice.

(** ** What [read_shp] does before it stores the features *)

Lemma drop_null_geometry_all_null df i :
  index_of geometry_name (columns df) = Some i →
  Forall (λ r, isnull (cell i r) = true) (rows df) →
  drop_null_geometry df
  = Ok (mkFrame (columns df) [] (index_name df) (crs df)).
Proof.
  intros Hi Hnull. unfold drop_null_geometry. rewrite Hi.
  rewrite (filter_all (λ r, isnull (cell i r) = true) (rows df)) by done.
  rewrite filter_none; [done|].
  apply Forall_forall. intros r Hr Hnin. apply Hnin.
  apply list_elem_of_fmap. by exists r.
Qed.

Lemma drop_null_geometry_none_null df i :
  index_of geometry_name (columns df) = Some i →
  Forall (λ r, isnull (cell i r) = false) (rows df) →
  drop_null_geometry df = Ok df.
Proof.
  intros Hi Hnull. unfold drop_null_geometry. rewrite Hi.
  rewrite (filter_none (λ r, isnull (cell i r) = true) (rows df)).
  2:{ eapply Forall_impl; [exact Hnull|]. intros r Hr. simpl in *. congruence. }
  rewrite filter_all; [by destruct df|].
  apply Forall_forall. intros r _ Hin. by apply elem_of_nil in Hin.
Qed.

Lemma explode_single_parts df i :
  index_of geometry_name (columns df) = Some i →
  Forall (λ r, ∃ g, cell i r = VGeom g ∧ parts g = [g]) (rows df) →
  explode df = Ok df.
Proof.
  intros Hi Hsingle. unfold explode. rewrite Hi.
  assert (Hrows : concat (explode_row i <$> rows df) = rows df).
  { induction Hsingle as [|r rs (g & Hg & Hp) _ IH]; [done|].
    rewrite fmap_cons. simpl. rewrite IH. unfold explode_row at 1.
    rewrite Hg, Hp. simpl. f_equal. destruct r as [l cs]. simpl. f_equal.
    apply list_insert_id. unfold cell in Hg. simpl in Hg.
    by destruct (cs !! i) as [v|]; simpl in Hg; subst. }
  rewrite Hrows. by destruct df.
Qed.

Lemma count_distinct (ids : list value) (ftc : value) :
  NoDup ids →
  (length (filter (λ i, value_match i ftc = true) ids) ≤ 1)%nat.
Proof.
  induction 1 as [|x l Hx Hnd IH]; [simpl; lia|].
  rewrite filter_cons. case_decide as Hm; [|done].
  rewrite filter_none; [simpl; lia|].
  apply Forall_forall. intros y Hy Hmy.
  unfold value_match in Hm, Hmy.
  apply andb_true_iff in Hm as [_ Hm], Hmy as [_ Hmy].
  apply bool_decide_eq_true in Hm, Hmy. congruence.
Qed.

Lemma split_ids_distinct id_col ftcs gdf ids w :
  getitem gdf id_col = Ok ids → NoDup ids →
  split_ids id_col ftcs gdf w = (w, Ok gdf).
Proof.
  intros Hget Hnd. induction ftcs as [|ftc ftcs IH]; simpl; [done|].
  unfold then_ at 1. unfold lift at 1. rewrite Hget.
  rewrite bool_decide_false; [exact IH|].
  pose proof (count_distinct ids ftc Hnd). lia.
Qed.

Section Reading.

Variable intersects : Geometry → Geometry → bool.
Variable transform : CRS → CRS → Geometry → Geometry.

Lemma read_shp_no_geometry_run file index_col check_columns proj_crs clip_
    check_geotype id_col i w :
  index_of geometry_name (columns file) = Some i →
  id_col ∈ columns file →
  Forall (λ r, isnull (cell i r) = true) (rows file) →
  read_shp intersects transform (Ok file) index_col None check_columns
    proj_crs clip_ check_geotype id_col false None w
  = (w, Raise (IOError "Imported shapefile contains no rows.")).
Proof.
  intros Hi Hid Hnull. unfold read_shp.
  destruct (index_of_is_Some _ _ Hid) as [k Hk].
  unfold then_ at 1. unfold get_self at 1.
  unfold then_ at 1. unfold lift at 1.
  unfold then_ at 1. unfold lift at 1.
  unfold then_ at 1. unfold lift at 1.
  rewrite (drop_null_geometry_all_null file i Hi Hnull). simpl.
  unfold then_ at 1. unfold explode_and_split.
  unfold then_ at 1. unfold lift at 1. unfold explode. simpl. rewrite Hi.
  unfold then_ at 1. unfold lift at 1. simpl.
  unfold getitem. simpl. rewrite Hk. simpl. done.
Qed.

(** X17.  [read_shp] of a file in which no feature has a geometry, with the
    column of identifiers: [IOError] is raised, nothing is printed and the
    instance is as it was. *)
Theorem read_shp_IOError_without_geometries file index_col check_columns
    proj_crs clip_ check_geotype id_col i self :
  index_of geometry_name (columns file) = Some i →
  id_col ∈ columns file →
  Forall (λ r, isnull (cell i r) = true) (rows file) →
  let m := read_shp intersects transform (Ok file) index_col None check_columns
             proj_crs clip_ check_geotype id_col false None in
  outcome m self = Raise (IOError "Imported shapefile contains no rows.") ∧
  after m self = self ∧ output m self = [].
Proof.
  intros Hi Hid Hnull m. subst m. unfold outcome, after, output, run.
  by rewrite (read_shp_no_geometry_run _ _ _ _ _ _ _ i).
Qed.

(** X18.  [read_shp] with [filter_rows] on a key that is not a column of
    the file: [KeyError], and the instance is as it was. *)
Theorem read_shp_KeyError_for_unknown_filter_key file index_col column_mapping
    check_columns proj_crs clip_ check_geotype id_col filter_rows k v self :
  (k, v) ∈ filter_rows → k ∉ columns file →
  let m := read_shp intersects transform (Ok file) index_col column_mapping
             check_columns proj_crs clip_ check_geotype id_col false
             (Some filter_rows) in
  is_KeyError (outcome m self) ∧ after m self = self ∧ output m self = [].
Proof.
  intros Hin Hk m. subst m.
  assert (Hpos : ∃ k', filter_positions (columns file) filter_rows
                       = Raise (KeyError k')).
  { induction filter_rows as [|[k0 v0] rest IH]; [by apply elem_of_nil in Hin|].
    simpl. destruct (index_of k0 (columns file)) as [j|] eqn:Hj; [|by eexists].
    apply elem_of_cons in Hin as [[= -> ->]|Hin].
    - exfalso. apply Hk. by eapply list_elem_of_lookup_2, index_of_Some.
    - destruct (IH Hin) as [k' ->]. by eexists. }
  destruct Hpos as [k' Hpos].
  assert (Hrun : ∀ w,
            read_shp intersects transform (Ok file) index_col column_mapping
              check_columns proj_crs clip_ check_geotype id_col false
              (Some filter_rows) w
            = (w, Raise (KeyError k'))).
  { intros w. unfold read_shp.
    unfold then_ at 1. unfold get_self at 1.
    unfold then_ at 1. unfold lift at 1.
    unfold then_ at 1. unfold lift at 1.
    unfold filter_by. by rewrite Hpos. }
  unfold outcome, after, output, run. rewrite Hrun. simpl.
  split; [by eexists | done].
Qed.

(** X19.  [read_shp] with an index column, of a file whose features all
    have a single-part geometry and pairwise distinct identifiers: nothing
    is dropped, split or renamed, and the call is [set_data] with the frame
    of the file, followed by the clip and the check of the projection. *)
Theorem read_shp_stores_single_parts file index_col check_columns proj_crs
    clip_ check_geotype id_col i k w :
  index_of geometry_name (columns file) = Some i →
  index_of id_col (columns file) = Some k →
  Forall (λ r, ∃ g, cell i r = VGeom g ∧ parts g = [g]) (rows file) →
  NoDup (cell k <$> rows file) →
  rows file ≠ [] →
  read_shp intersects transform (Ok file) (Some index_col) None check_columns
    proj_crs clip_ check_geotype id_col false None w
  = (do_ set_data file (Some index_col) check_columns check_geotype;
     do_ match clip_ with
         | Some g => clip intersects g
         | None => ret ()
         end;
     match proj_crs with
     | Some c => check_projection transform (Some c)
     | None => ret ()
     end) w.
Proof.
  intros Hi Hk Hsingle Hnd Hne. unfold read_shp.
  unfold then_ at 1. unfold get_self at 1.
  unfold then_ at 1. unfold lift at 1.
  unfold then_ at 1. unfold lift at 1.
  unfold then_ at 1. unfold lift at 1.
  rewrite (drop_null_geometry_none_null file i Hi).
  2:{ eapply Forall_impl; [exact Hsingle|]. intros r (g & -> & _). done. }
  simpl.
  unfold then_ at 1. unfold explode_and_split.
  unfold then_ at 1. unfold lift at 1.
  rewrite (explode_single_parts file i Hi Hsingle).
  unfold then_ at 1. unfold lift at 1.
  rewrite (getitem_cell file id_col k Hk).
  rewrite (split_ids_distinct id_col _ file (cell k <$> rows file) w);
    [| by apply getitem_cell | done].
  assert (Hempty : empty file = false).
  { unfold empty. destruct (rows file); [done|].
    destruct (columns file); [done | done]. }
  by rewrite Hempty.
Qed.

End Reading.

(** ** Reading a layer without grouping *)

Lemma set_cell_same ncols i r :
  length (cells r) = ncols → (i < ncols)%nat → set_cell ncols i r (cell i r) = r.
Proof.
  intros Hlen Hi. unfold set_cell, cell. destruct r as [l cs]. simpl in *.
  f_equal. rewrite resize_all_alt by done.
  destruct (lookup_lt_is_Some_2 cs i) as [v Hv]; [lia|].
  rewrite Hv. simpl. by apply list_insert_id.
Qed.

Lemma with_geometry_same df i :
  index_of geometry_name (columns df) = Some i →
  Forall (λ r, length (cells r) = length (columns df)) (rows df) →
  with_geometry df (cell i <$> rows df) = Ok df.
Proof.
  intros Hi Hwf. unfold with_geometry.
  rewrite setitem_rows_present by (by rewrite length_fmap). simpl. rewrite Hi.
  assert (Hrows : ∀ rs,
            Forall (λ r, length (cells r) = length (columns df)) rs →
            zip_with (set_cell (length (columns df)) i) rs (cell i <$> rs) = rs).
  { induction 1 as [|r rs Hr _ IH]; [done|]. rewrite fmap_cons. simpl.
    f_equal; [|exact IH].
    apply set_cell_same; [done | by eapply index_of_lt]. }
  rewrite Hrows by done. by destruct df.
Qed.

Section Layer.

Variable intersects : Geometry → Geometry → bool.

(** X7.  [read_gpkg_layer] without a column to group by and without a
    mapping, for a layer without a MultiPolygon: the call is [set_data] with
    the layer, its column names in lower case, followed by the clip. *)
Theorem read_gpkg_layer_stores_lowered_layer layer index_col order_column
    id_col check_columns check_geotype clip_ i w :
  index_of geometry_name (str_lower <$> columns layer) = Some i →
  Forall (λ r, length (cells r) = length (columns layer)) (rows layer) →
  Forall (λ r, ∀ ps, cell i r ≠ VGeom (MultiPolygon ps)) (rows layer) →
  read_gpkg_layer intersects true (Ok layer) index_col None order_column
    id_col None check_columns check_geotype clip_ w
  = (do_ set_data (lowered layer) index_col check_columns check_geotype;
     match clip_ with
     | Some g => clip intersects g
     | None => ret ()
     end) w.
Proof.
  intros Hi Hwf Hnomulti. unfold read_gpkg_layer. simpl.
  unfold then_ at 1. unfold lift at 1.
  unfold then_ at 1.
  unfold then_ at 1. unfold lift at 1.
  unfold geometry. simpl. rewrite Hi.
  unfold lift at 1.
  change (rows layer) with (rows (lowered layer)) at 1.
  rewrite (with_geometry_same (lowered layer) i Hi)
    by (simpl; by rewrite length_fmap).
  unfold then_ at 1. unfold lift at 1.
  unfold multipolygon_in_types, geometry. simpl. rewrite Hi. simpl.
  assert (Hno : existsb (λ v, match v with
                    | VGeom g => bool_decide (geom_type g = "MultiPolygon")
                    | _ => false
                    end) (cell i <$> rows layer) = false).
  { clear Hwf. induction Hnomulti as [|r rs Hr _ IH]; [done|].
    rewrite fmap_cons. simpl.
    rewrite IH, orb_false_r. destruct (cell i r) as [| | |g]; try done.
    destruct g as [c|cs|p|ps|ls|ps]; try reflexivity. by exfalso; eapply Hr. }
  rewrite Hno. done.
Qed.

End Layer.

(** ** A branch of one point, a starting number, a stored frame *)

(** ** ExtendedDataFrame *)

Lemma data_delete_all_step w :
  ExtendedDataFrame.delete_all w
  = (set_frame w (cleared (frame (this w))), Ok ()).
Proof.
  unfold ExtendedDataFrame.delete_all, cleared, then_, get_self.
  destruct (empty (frame (this w))) eqn:He; simpl.
  - unfold ret. by rewrite set_frame_same.
  - done.
Qed.

Lemma data_clear_step w :
  (when (negb (empty (frame (this w)))) ExtendedDataFrame.delete_all) w
  = (set_frame w (cleared (frame (this w))), Ok ()).
Proof.
  destruct (empty (frame (this w))) eqn:He; simpl.
  - unfold ret, cleared. rewrite He. simpl. by rewrite set_frame_same.
  - apply data_delete_all_step.
Qed.

Lemma data_check_columns_step w :
  ExtendedDataFrame._check_columns w =
  (w, match missing_column (required_columns (this w))
              (columns (frame (this w))) with
      | Some c => Raise (KeyError c)
      | None => Ok ()
      end).
Proof.
  unfold ExtendedDataFrame._check_columns, then_, get_self.
  generalize (columns (frame (this w))) as present.
  generalize (required_columns (this w)) as required.
  induction required as [|c required IH]; intros present; simpl; [done|].
  unfold then_. case_bool_decide as Hc; [done|].
  unfold ret at 1. apply IH.
Qed.

Lemma data_set_data_run df index_col w :
  ExtendedDataFrame.set_data df index_col w =
  (set_frame w (data_steps (this w) df index_col).1,
   (data_steps (this w) df index_col).2).
Proof.
  unfold ExtendedDataFrame.set_data, data_steps.
  unfold then_ at 1. unfold get_self at 1.
  unfold then_ at 1. rewrite data_clear_step.
  unfold then_ at 1. rewrite copy_step. simpl.
  destruct (copy_loop _ _ _) as [df2 [[]|e]]; simpl; [|done].
  unfold then_ at 1. rewrite index_step_method. simpl.
  destruct (index_step _ _ _) as [df3|e]; simpl; [|done].
  by rewrite data_check_columns_step.
Qed.

Lemma setitem_columns df c vals df' :
  setitem df c vals = Ok df' →
  (c ∈ columns df ∧ columns df' = columns df) ∨
  columns df' = columns df ++ [c].
Proof.
  unfold setitem. case_decide; [|done].
  destruct (index_of c (columns df)) as [i|] eqn:Hi; intros [= <-]; simpl.
  - left. split; [|done]. by eapply list_elem_of_lookup_2, index_of_Some.
  - by right.
Qed.

Lemma copy_loop_columns crs_vals its df c :
  c ∈ columns (copy_loop crs_vals its df).1 → c ∈ columns df ∨ c ∈ its.*1.
Proof.
  revert df. induction its as [|[c0 v] its IH]; intros df; simpl; [by left|].
  destruct (assign_frame crs_vals df c0 v) as [df1|e] eqn:H1; simpl; [|by left].
  intros Hc. apply IH in Hc as [Hc|Hc]; [|right; by right].
  unfold assign_frame in H1.
  destruct (setitem df c0 v) as [df2|] eqn:H2; simpl in H1; [|done].
  assert (Hcols : columns df1 = columns df2).
  { injection H1 as <-. by case_decide. }
  rewrite Hcols in Hc.
  apply setitem_columns in H2 as [[_ Heq]|Heq]; rewrite Heq in Hc.
  - by left.
  - apply elem_of_app in Hc as [Hc|Hc]; [by left|].
    apply list_elem_of_singleton in Hc as ->. right. left.
Qed.


Lemma index_step_columns gdf index_col df df' :
  index_step gdf index_col df = Ok df' → columns df' = columns df.
Proof.
  unfold index_step, set_index. destruct index_col as [c|].
  - destruct (getitem gdf c); simpl; [|done]. case_decide; [|done].
    by intros [= <-].
  - case_decide; [|done]. by intros [= <-].
Qed.

Lemma data_steps_columns self df index_col c :
  c ∈ columns (data_steps self df index_col).1 →
  c ∈ columns (frame self) ∨ c ∈ columns df.
Proof.
  unfold data_steps.
  pose proof (copy_loop_columns None (items df) (cleared (frame self)) c) as Hc.
  rewrite cleared_columns, items_columns in Hc.
  destruct (copy_loop _ _ _) as [df2 [[]|e]]; simpl in *; [|done].
  destruct (index_step df index_col df2) as [df3|e] eqn:H3; simpl; [|done].
  apply index_step_columns in H3. by rewrite H3.
Qed.


(** X22.  [ExtendedDataFrame.add_data] with a frame that has a column which
    the instance does not have: [KeyError], and the instance is as it
    was. *)
Theorem add_data_KeyError_for_foreign_column self df c :
  c ∈ columns df → c ∉ columns (frame self) →
  let m := ExtendedDataFrame.add_data df in
  is_KeyError (outcome m self) ∧ after m self = self.
Proof.
  intros Hc Hnin m. subst m.
  unfold outcome, after, run, ExtendedDataFrame.add_data, then_, get_self.
  simpl.
  assert (Hall : forallb (λ c, bool_decide (c ∈ columns (frame self)))
                   (columns df) = false).
  { apply not_true_iff_false. intros Hall.
    rewrite forallb_forall in Hall. apply Hnin.
    eapply bool_decide_eq_true_1, Hall. by apply list_elem_of_In. }
  rewrite Hall. simpl. split; [by eexists | done].
Qed.

Lemma copy_loop_existing_naive its df df' :
  its.*1 ⊆ columns df → its ≠ [] →
  copy_loop None its df = (df', Ok ()) →
  columns df' = columns df ∧ index_name df' = index_name df ∧
  crs df' = crs df ∧
  Forall (λ r, length (cells r) = length (columns df)) (rows df').
Proof.
  revert df. induction its as [|[c v] its IH]; intros df Hsub Hne; [done|].
  simpl. destruct (assign_frame None df c v) as [df1|e] eqn:H1; [|done].
  unfold assign_frame in H1.
  destruct (setitem df c v) as [df2|] eqn:H2; simpl in H1; [|done].
  destruct (setitem_existing df c v df2) as (Hc2 & Hn2 & Hcrs2 & Hr2); [|done|].
  { apply Hsub. left. }
  assert (Hdf1 : columns df1 = columns df ∧ index_name df1 = index_name df ∧
                 crs df1 = crs df ∧ rows df1 = rows df2).
  { injection H1 as <-. by case_decide. }
  destruct Hdf1 as (Hc1 & Hn1 & Hcrs1 & Hr1).
  destruct its as [|cv its'].
  - simpl. intros [= <-]. rewrite Hr1. done.
  - intros Hloop. apply IH in Hloop; [| |done].
    + destruct Hloop as (? & ? & ? & ?).
      repeat split; try congruence. by rewrite <- Hc1.
    + rewrite Hc1. intros x Hx. apply Hsub. by right.
Qed.

(** [ExtendedDataFrame.set_data] with a frame that has the columns of the
    instance leaves the instance with that frame. *)
Lemma data_steps_same_columns self gdf :
  wf_frame gdf → columns gdf ≠ [] →
  columns (frame self) = columns gdf →
  required_columns self ⊆ columns gdf →
  data_steps self gdf None
  = (mkFrame (columns gdf) (rows gdf) (index_name gdf) (crs (frame self)),
     Ok ()).
Proof.
  intros (Hnd & Hwf & _) Hne Hcols Hreq.
  unfold data_steps.
  assert (Hrows1 : rows (cleared (frame self)) = []).
  { apply cleared_rows. by rewrite Hcols. }
  assert (Hits : items gdf ≠ []).
  { intros Hits. apply Hne. by rewrite <- items_columns, Hits. }
  destruct (copy_loop_fresh None (length (rows gdf)) (items gdf)
              (cleared (frame self))) as (df2 & Hloop & Hlen2 & Hstored);
    [done|done|by rewrite items_columns|apply items_length|].
  rewrite Hloop.
  apply copy_loop_existing_naive in Hloop as (Hc2 & Hn2 & Hcrs2 & Hr2); [|
    by rewrite items_columns, cleared_columns, Hcols | done].
  rewrite cleared_columns, Hcols in Hc2, Hr2.
  unfold index_step.
  destruct (set_index_Ok df2 (index gdf) (index_name gdf))
    as (df3 & -> & Hi & Hc3 & Hcrs3 & Hn3 & Hr3).
  { unfold index. rewrite length_fmap. lia. }
  simpl.
  assert (Hcrs' : crs df3 = crs (frame self)).
  { rewrite Hcrs3, Hcrs2. unfold cleared. by destruct (negb _). }
  assert (Hmiss : missing_column (required_columns self) (columns df3) = None).
  { apply missing_column_None. by rewrite Hc3, Hc2. }
  rewrite Hmiss. f_equal.
  destruct df3 as [cols3 rows3 name3 crs3], gdf as [cols rws name crs0].
  simpl in *. subst cols3 name3 crs3. rewrite Hc2. f_equal.
  apply (rows_ext (length cols)).
  - done.
  - apply (Forall_fmap cells (λ cs : list value, length cs = length cols)).
    rewrite Hr3.
    by apply (Forall_fmap cells (λ cs : list value, length cs = length cols)).
  - done.
  - intros j Hj. destruct (lookup_lt_is_Some_2 cols j Hj) as [c Hc].
    pose proof (index_of_NoDup _ _ _ Hnd Hc) as Hidx.
    transitivity (cell j <$> rows df2).
    { change (cell j) with ((λ cs : list value, default VNone (cs !! j)) ∘ cells).
      by rewrite !list_fmap_compose, Hr3. }
    assert (Hget : getitem df2 c = Ok (cell j <$> rows df2)).
    { apply getitem_cell. by rewrite Hc2. }
    assert (Hin : (c, cell j <$> rws) ∈
                  items (mkFrame cols rws name crs0)).
    { apply elem_of_lookup_imap. by exists j, c. }
    apply Hstored in Hin. rewrite Hget in Hin. by injection Hin.
  - exact Hcrs'.
Qed.

Lemma reindex_columns_same df r :
  NoDup (columns df) → length (cells r) = length (columns df) →
  ExtendedDataFrame.reindex_columns (columns df) df r = r.
Proof.
  intros Hnd Hlen. unfold ExtendedDataFrame.reindex_columns.
  destruct r as [l cs]. simpl in *. f_equal.
  apply (list_eq_cells (length (columns df))); [by rewrite length_fmap|done|].
  intros j Hj. destruct (lookup_lt_is_Some_2 (columns df) j Hj) as [c Hc].
  rewrite list_lookup_fmap, Hc. simpl.
  by rewrite (index_of_NoDup _ _ _ Hnd Hc).
Qed.

Lemma add_data_run df w :
  NoDup (columns df) →
  wf_frame (frame (this w)) → columns (frame (this w)) ≠ [] →
  index_name (frame (this w)) = None →
  required_columns (this w) ⊆ columns (frame (this w)) →
  columns df ⊆ columns (frame (this w)) →
  ExtendedDataFrame.add_data df w
  = (set_frame w
       (mkFrame (columns (frame (this w)))
          (rows (frame (this w))
           ++ (ExtendedDataFrame.reindex_columns (columns (frame (this w))) df
               <$> rows df))
          None (crs (frame (this w)))),
     Ok ()).
Proof.
  intros _ (Hnd & Hwf & Hne') Hne Hname Hreq Hsub.
  set (cols := columns (frame (this w))) in *.
  unfold ExtendedDataFrame.add_data.
  unfold then_ at 1. unfold get_self at 1.
  assert (Hall : forallb (λ c, bool_decide (c ∈ columns (frame (this w))))
                   (columns df) = true).
  { apply forallb_forall. intros c Hc. apply bool_decide_eq_true_2.
    apply Hsub. by apply list_elem_of_In. }
  rewrite Hall. simpl.
  set (current := mkFrame _ _ _ None).
  assert (Hnew : ExtendedDataFrame.pd_concat current df
                 = mkFrame cols
                     (rows (frame (this w))
                      ++ (ExtendedDataFrame.reindex_columns cols df <$> rows df))
                     None None).
  { unfold ExtendedDataFrame.pd_concat, ExtendedDataFrame.union_columns.
    subst current. simpl. fold cols.
    rewrite (filter_none (λ c, c ∉ cols) (columns df)).
    2:{ apply Forall_forall. intros c Hc Hnin. by apply Hnin, Hsub. }
    rewrite app_nil_r. rewrite Hname. f_equal.
    - f_equal. clear Hne'.
      induction Hwf as [|r rs Hr _ IH]; [done|]. rewrite fmap_cons. f_equal.
      + apply (reindex_columns_same (mkFrame cols (r :: rs) None None)); done.
      + etransitivity; [|exact IH]. done.
    - by destruct (decide _). }
  rewrite Hnew. clear Hnew current.
  unfold then_ at 1. rewrite data_delete_all_step.
  unfold then_ at 1. unfold get_self at 1. simpl.
  assert (Hname' : index_name (cleared (frame (this w))) = None).
  { unfold cleared. by destruct (negb _). }
  rewrite Hname'. rewrite data_set_data_run. simpl.
  rewrite data_steps_same_columns; simpl.
  - rewrite set_frame_twice. f_equal. f_equal. f_equal.
    unfold cleared. by destruct (negb _).
  - split; [done|]. split; [|done]. simpl.
    apply Forall_app. split; [done|].
    apply Forall_fmap, Forall_forall. intros r _. simpl.
    by rewrite length_fmap.
  - done.
  - by rewrite cleared_columns.
  - done.
Qed.

(** X23.  [ExtendedDataFrame.add_data] on an instance whose index has no
    name, with a frame whose columns, distinct, the instance has: the rows of the
    frame are appended to the rows of the instance, with a missing value
    in the columns that the frame does not have. *)
Theorem add_data_appends_rows self df :
  NoDup (columns df) →
  wf_frame (frame self) → columns (frame self) ≠ [] →
  index_name (frame self) = None →
  required_columns self ⊆ columns (frame self) →
  columns df ⊆ columns (frame self) →
  let m := ExtendedDataFrame.add_data df in
  outcome m self = Ok () ∧
  frame (after m self)
  = mkFrame (columns (frame self))
      (rows (frame self)
       ++ (ExtendedDataFrame.reindex_columns (columns (frame self)) df
           <$> rows df))
      None (crs (frame self)).
Proof.
  intros Hdf Hwf Hne Hname Hreq Hsub m. subst m.
  unfold outcome, after, run.
  by rewrite (add_data_run df (mkWorld self [])).
Qed.

(** X24.  [ExtendedDataFrame.read_gpkg_layer] drops the geometry of the
    layer before it stores it: an instance without a column "geometry" has
    none after the call, however the call ends, unless the mapping renames
    a column to "geometry". *)
Theorem data_read_gpkg_layer_stores_no_geometry self path_exists read_file
    column_mapping index_col :
  geometry_name ∉ columns (frame self) →
  (∀ m c, column_mapping = Some m → m !! c ≠ Some geometry_name) →
  geometry_name ∉ columns (frame (after
    (ExtendedDataFrame.read_gpkg_layer path_exists read_file column_mapping
       index_col) self)).
Proof.
  intros Hself Hmap. unfold after, run, ExtendedDataFrame.read_gpkg_layer.
  destruct path_exists; simpl; [|done].
  unfold then_ at 1. unfold lift at 1.
  destruct read_file as [layer|e]; simpl; [|done].
  unfold then_ at 1. unfold lift at 1.
  unfold ExtendedDataFrame.drop_column.
  case_bool_decide as Hgeo; simpl; [|done].
  rewrite data_set_data_run. simpl. intros Hin.
  apply data_steps_columns in Hin as [Hin|Hin]; [done|].
  assert (Hkept : geometry_name ∉ columns
            (keep_columns (λ c', negb (bool_decide (c' = geometry_name)))
               (lowered layer))).
  { unfold keep_columns. simpl.
    rewrite (filter_zip_fmap (λ c', negb (bool_decide (c' = geometry_name)))).
    intros Hk. apply list_elem_of_filter in Hk as [Hk _].
    by rewrite bool_decide_true in Hk. }
  destruct column_mapping as [m|]; [|done].
  unfold rename in Hin. simpl in Hin.
  apply list_elem_of_fmap in Hin as (c & Hc & Hin).
  destruct (m !! c) as [c'|] eqn:Hm; simpl in Hc.
  - subst c'. by eapply Hmap.
  - subst c. done.
Qed.

(** ** The column that [KeyError] names *)

Lemma missing_column_first pre c post present :
  pre ⊆ present → c ∉ present →
  missing_column (pre ++ c :: post) present = Some c.
Proof.
  intros Hpre Hc. induction pre as [|p pre IH]; simpl.
  - by rewrite bool_decide_true.
  - rewrite bool_decide_false.
    + apply IH. intros x Hx. apply Hpre. by right.
    + intros Hp. apply Hp, Hpre. left.
Qed.

(** X10.  [set_data] with [check_columns=True] goes through the required
    columns in their order: the [KeyError] names the first of them that the
    input does not have. *)
Theorem set_data_KeyError_names_first_missing_column self gdf index_col
    check_geotype pre c post :
  required_columns self = pre ++ c :: post →
  pre ⊆ columns gdf → c ∉ columns gdf →
  outcome (set_data gdf index_col true check_geotype) self = Raise (KeyError c).
Proof.
  intros Hreq Hpre Hc. rewrite set_data_outcome. unfold set_data_steps.
  by rewrite Hreq, (missing_column_first pre c post (columns gdf) Hpre Hc).
Qed.

(** ** The parts of a multi-part feature *)

Lemma remove_dups_replicate (n : nat) (v : value) :
  remove_dups (replicate (S n) v) = [v].
Proof.
  induction n as [|n IH]; [done|].
  change (replicate (S (S n)) v) with (v :: replicate (S n) v).
  cbn [remove_dups]. destruct (decide_rel _ _ _) as [_|Hnin]; [exact IH|].
  exfalso. apply Hnin. left.
Qed.

Lemma unique_replicate (n : nat) (v : value) :
  unique (replicate (S n) v) = [v].
Proof.
  unfold unique. rewrite reverse_replicate, remove_dups_replicate. done.
Qed.

Lemma number_parts_all k v l cs i (ps : list Geometry) (n0 : nat) :
  i ≠ k → cs !! k = Some v → isnull v = false →
  number_parts k v n0 ((λ p, mkRow l (<[i := VGeom p]> cs)) <$> ps)
  = imap (λ n p, mkRow l (<[k := VStr (str v ++ "_" ++ pretty (n0 + n)%nat)]>
                            (<[i := VGeom p]> cs))) ps.
Proof.
  intros Hik Hk Hv. revert n0. induction ps as [|p ps IH]; intros n0; [done|].
  rewrite fmap_cons. simpl.
  assert (Hcell : cell k (mkRow l (<[i := VGeom p]> cs)) = v).
  { unfold cell. simpl. by rewrite list_lookup_insert_ne, Hk. }
  rewrite Hcell.
  assert (Hm : value_match v v = true).
  { unfold value_match. rewrite Hv. simpl. by apply bool_decide_eq_true_2. }
  rewrite Hm. rewrite Nat.add_0_r. f_equal. rewrite IH.
  apply imap_ext. intros n p' _. simpl. by rewrite Nat.add_succ_r.
Qed.

Lemma explode_and_split_parts_run id_col cols l cs i k v g name c w :
  index_of geometry_name cols = Some i → index_of id_col cols = Some k →
  i ≠ k → cs !! i = Some (VGeom g) → cs !! k = Some v → isnull v = false →
  (2 ≤ length (parts g))%nat →
  explode_and_split id_col (mkFrame cols [mkRow l cs] name c) w
  = (mkWorld (this w) (printed w ++ [SplitIntoParts v]),
     Ok (mkFrame cols
           (imap (λ n p, mkRow l (<[k := VStr (str v ++ "_" ++ pretty n)]>
                                    (<[i := VGeom p]> cs))) (parts g))
           name c)).
Proof.
  intros Hi Hk Hik Hg Hv Hnull Hlen.
  set (rws := (λ p, mkRow l (<[i := VGeom p]> cs)) <$> parts g).
  assert (Hexplode : explode (mkFrame cols [mkRow l cs] name c)
                     = Ok (mkFrame cols rws name c)).
  { unfold explode. simpl. rewrite Hi. unfold explode_row, cell. simpl.
    rewrite Hg. simpl. by rewrite app_nil_r. }
  assert (Hids : getitem (mkFrame cols rws name c) id_col
                 = Ok (replicate (length (parts g)) v)).
  { rewrite (getitem_cell _ id_col k) by done. f_equal. subst rws.
    cbn [rows]. rewrite <- list_fmap_compose.
    generalize (parts g) as ps. induction ps as [|p ps IH]; [done|].
    rewrite fmap_cons. cbn [replicate length]. f_equal; [|exact IH].
    unfold cell. simpl. by rewrite list_lookup_insert_ne, Hv. }
  assert (Hm : value_match v v = true).
  { unfold value_match. rewrite Hnull. simpl. by apply bool_decide_eq_true_2. }
  unfold explode_and_split.
  unfold then_ at 1. unfold lift at 1. rewrite Hexplode.
  unfold then_ at 1. unfold lift at 1. rewrite Hids.
  destruct (length (parts g)) as [|[|n]] eqn:Hn; [lia|lia|].
  rewrite unique_replicate. cbn [split_ids].
  unfold then_ at 1. unfold lift at 1. rewrite Hids.
  rewrite bool_decide_true.
  2:{ rewrite filter_all.
      - rewrite length_replicate. lia.
      - apply Forall_forall. intros x Hx.
        by apply elem_of_replicate in Hx as [-> _]. }
  unfold then_ at 1. unfold print. cbn [columns rows index_name crs].
  rewrite Hk. cbn [default]. unfold ret. f_equal. f_equal. f_equal.
  change (id k) with k. subst rws.
  by rewrite (number_parts_all k v l cs i (parts g) 0 Hik Hv Hnull).
Qed.

(** X20.  A feature with a geometry of two parts or more and an
    identifier that is a string or an integer, alone in its frame: [explode]
    gives a row for every part, in the order of the parts, and the loop over
    the identifiers numbers them from 0, as ["{id}_{n}"], and prints one
    line. *)
Theorem explode_and_split_numbers_parts id_col cols l cs i k v g name c w :
  index_of geometry_name cols = Some i → index_of id_col cols = Some k →
  i ≠ k → cs !! i = Some (VGeom g) → cs !! k = Some v →
  is_Some (int_of v) ∨ is_Some (str_of v) →
  (2 ≤ length (parts g))%nat →
  ∃ gdf,
    explode_and_split id_col (mkFrame cols [mkRow l cs] name c) w
    = (mkWorld (this w) (printed w ++ [SplitIntoParts v]), Ok gdf) ∧
    getitem gdf id_col
    = Ok (imap (λ n _, VStr (str v ++ "_" ++ pretty n)) (parts g)) ∧
    geometry gdf = Ok (VGeom <$> parts g).
Proof.
  intros Hi Hk Hik Hg Hv Hid Hlen.
  assert (Hnull : isnull v = false).
  { destruct Hid as [[z Hz]|[x Hx]]; by destruct v. }
  eexists. split.
  { by apply (explode_and_split_parts_run id_col cols l cs i k v g). }
  assert (Hki : (k < length cs)%nat) by (by eapply lookup_lt_Some).
  assert (Hii : (i < length cs)%nat) by (by eapply lookup_lt_Some).
  unfold getitem, geometry. cbn [columns rows]. rewrite Hk, Hi.
  split; f_equal.
  - rewrite fmap_imap. apply imap_ext. intros n p _. unfold cell. simpl.
    by rewrite list_lookup_insert_eq by (by rewrite length_insert).
  - rewrite fmap_imap, <- (imap_const VGeom). apply imap_ext.
    intros n p _. unfold cell. simpl. rewrite list_lookup_insert_ne by done.
    by rewrite list_lookup_insert_eq.
Qed.

End Further.
(** * Instances of the properties *)

Section Instances.

#[local] Existing Instance example_library.

Lemma read_gpkg_layer_ValueError_for_uppercase_groupby_column_witness :
  let layer := mkFrame ["Branch"; "nr"; "geometry"] (rows dense_layer) None None in
  let m := read_gpkg_layer box_intersects true (Ok layer) None (Some "Branch")
             (Some "nr") "code" None true true None in
  Forall (λ c, str_lower (str_lower c) = str_lower c) (columns layer) ∧
  str_lower "Branch" ≠ "Branch" ∧
  outcome m branch_store
  = Raise (ValueError "Groupby column not found in feature list.") ∧
  after m branch_store = branch_store ∧ output m branch_store = [].
Proof.
  assert (Hidem : Forall (λ c, str_lower (str_lower c) = str_lower c)
                    ["Branch"; "nr"; "geometry"]).
  { apply Forall_forall. intros c _. apply lower_idem. }
  assert (Hlow : str_lower "Branch" ≠ "Branch") by discriminate.
  split; [exact Hidem|]. split; [exact Hlow|].
  exact (read_gpkg_layer_ValueError_for_uppercase_groupby_column box_intersects
           (mkFrame ["Branch"; "nr"; "geometry"] (rows dense_layer) None None)
           None "Branch" (Some "nr") "code" None true true None branch_store
           Hidem Hlow).
Defined.


Lemma check_projection_idempotent_witness :
  let m := check_projection shift_transform (Some 4326) in
  outcome m culvert_store = Ok () ∧
  crs (frame (after m culvert_store)) = Some 4326 ∧
  outcome m (after m culvert_store) = Ok ().
Proof.
  assert (H : outcome (check_projection shift_transform (Some 4326))
                culvert_store = Ok ()) by reflexivity.
  split; [exact H|].
  exact (proj2 (check_projection_idempotent shift_transform culvert_store
                  (Some 4326)) H).
Defined.

Lemma merge_columns_missing_column_witness :
  ("height" ∉ columns (frame profiles) ∨ "depth" ∉ columns (frame profiles)) ∧
  after (merge_columns "height" "depth" "size") profiles = profiles ∧
  is_ValueError (outcome (merge_columns "height" "depth" "size") profiles) ∧
  outcome (merge_columns "" "height" "size") profiles = Ok ().
Proof.
  assert (H1 : "height" ∉ columns (frame profiles) ∨
               "depth" ∉ columns (frame profiles)) by (left; by_computation).
  split; [exact H1|].
  destruct (merge_columns_missing_column profiles "height" "depth" "size" H1)
    as (Hafter & Hraise & _).
  split; [exact Hafter|]. split; [|reflexivity].
  apply Hraise. by left.
Defined.

Lemma merge_columns_keeps_other_columns_witness :
  "code" ≠ "size" ∧
  getitem (frame (after (merge_columns "width" "depth" "size") profiles)) "code"
  = Ok [VStr "P1"; VStr "P2"].
Proof.
  assert (Hne : "code" ≠ "size") by discriminate.
  split; [exact Hne|].
  exact (proj1 (merge_columns_keeps_other_columns profiles "width" "depth"
                  "size" "code" Hne)).
Defined.

Lemma set_data_KeyError_deletes_features_witness :
  let gdf := mkFrame ["name"; "geometry"] (rows culverts) None (Some 28992) in
  "code" ∈ required_columns culvert_store ∧ ("code" ∉ columns gdf) ∧
  is_KeyError (outcome (set_data gdf None true true) culvert_store) ∧
  columns (frame (after (set_data gdf None true true) culvert_store))
  = columns (frame culvert_store) ∧
  (columns (frame culvert_store) ≠ [] →
   rows (frame (after (set_data gdf None true true) culvert_store)) = []).
Proof.
  assert (H1 : "code" ∈ required_columns culvert_store) by by_computation.
  assert (H2 : "code" ∉ columns (mkFrame ["name"; "geometry"] (rows culverts)
                                   None (Some 28992))) by by_computation.
  split; [exact H1|]. split; [exact H2|].
  exact (set_data_KeyError_deletes_features culvert_store
           (mkFrame ["name"; "geometry"] (rows culverts) None (Some 28992))
           None true "code" H1 H2).
Defined.

Lemma clip_idempotent_witness :
  wf_self culvert_store ∧
  wf_self (after (clip box_intersects origin_square) culvert_store) ∧
  after (clip box_intersects origin_square)
    (after (clip box_intersects origin_square) culvert_store)
  = after (clip box_intersects origin_square) culvert_store.
Proof.
  assert (Hwf : wf_self culvert_store).
  { split; [|split; by_computation].
    split; [by_computation|]. split; [by_computation | discriminate]. }
  split; [exact Hwf|].
  exact (clip_idempotent box_intersects culvert_store origin_square Hwf).
Defined.

Lemma read_shp_KeyError_without_id_col_witness :
  let file := mkFrame ["name"; "geometry"] (rows culverts) None (Some 28992) in
  geometry_name ∈ columns file ∧ ("code" ∉ columns file) ∧
  outcome (read_shp_default box_intersects shift_transform file) point_store
  = Raise (KeyError "code") ∧
  after (read_shp_default box_intersects shift_transform file) point_store
  = point_store.
Proof.
  assert (H1 : geometry_name ∈ columns
                 (mkFrame ["name"; "geometry"] (rows culverts) None (Some 28992)))
    by by_computation.
  assert (H2 : "code" ∉ columns
                 (mkFrame ["name"; "geometry"] (rows culverts) None (Some 28992)))
    by by_computation.
  split; [exact H1|]. split; [exact H2|].
  exact (read_shp_KeyError_without_id_col box_intersects shift_transform
           (mkFrame ["name"; "geometry"] (rows culverts) None (Some 28992))
           None true None None true "code" point_store H1 H2).
Defined.

Lemma read_shp_IOError_without_geometries_witness :
  index_of geometry_name (columns no_geometry_file) = Some 1%nat ∧
  "code" ∈ columns no_geometry_file ∧
  Forall (λ r, isnull (cell 1 r) = true) (rows no_geometry_file) ∧
  outcome (read_shp_default box_intersects shift_transform no_geometry_file)
    point_store
  = Raise (IOError "Imported shapefile contains no rows.") ∧
  after (read_shp_default box_intersects shift_transform no_geometry_file)
    point_store = point_store ∧
  output (read_shp_default box_intersects shift_transform no_geometry_file)
    point_store = [].
Proof.
  assert (H1 : index_of geometry_name (columns no_geometry_file) = Some 1%nat)
    by reflexivity.
  assert (H2 : "code" ∈ columns no_geometry_file) by by_computation.
  assert (H3 : Forall (λ r, isnull (cell 1 r) = true) (rows no_geometry_file))
    by (repeat constructor).
  split; [exact H1|]. split; [exact H2|]. split; [exact H3|].
  exact (read_shp_IOError_without_geometries box_intersects shift_transform
           no_geometry_file None true None None true "code" 1%nat point_store
           H1 H2 H3).
Defined.

Lemma read_shp_KeyError_for_unknown_filter_key_witness :
  let m := read_shp box_intersects shift_transform (Ok culverts) None None true
             None None true "code" false (Some [("status", VStr "open")]) in
  ("status", VStr "open") ∈ [("status", VStr "open")] ∧
  ("status" ∉ columns culverts) ∧
  is_KeyError (outcome m point_store) ∧ after m point_store = point_store ∧
  output m point_store = [].
Proof.
  assert (H1 : ("status", VStr "open") ∈ [("status", VStr "open")]) by left.
  assert (H2 : "status" ∉ columns culverts) by by_computation.
  split; [exact H1|]. split; [exact H2|].
  exact (read_shp_KeyError_for_unknown_filter_key box_intersects shift_transform
           culverts None None true None None true "code"
           [("status", VStr "open")] "status" (VStr "open") point_store H1 H2).
Defined.

Lemma read_shp_stores_single_parts_witness :
  read_shp box_intersects shift_transform (Ok culverts) (Some "code") None true
    None None true "code" false None (mkWorld point_store [])
  = (do_ set_data culverts (Some "code") true true; do_ ret (); ret ())
      (mkWorld point_store []).
Proof.
  apply (read_shp_stores_single_parts box_intersects shift_transform culverts
           "code" true None None true "code" 1%nat 0%nat).
  - reflexivity.
  - reflexivity.
  - repeat constructor; by eexists.
  - by_computation.
  - discriminate.
Defined.

Lemma read_gpkg_layer_stores_lowered_layer_witness :
  let layer := mkFrame ["CODE"; "geometry"] (rows culverts) None (Some 28992) in
  lowered layer = culverts ∧
  read_gpkg_layer box_intersects true (Ok layer) None None None "code" None
    true true None (mkWorld point_store [])
  = (do_ set_data (lowered layer) None true true; ret ()) (mkWorld point_store []).
Proof.
  split; [reflexivity|].
  apply (read_gpkg_layer_stores_lowered_layer box_intersects
           (mkFrame ["CODE"; "geometry"] (rows culverts) None (Some 28992))
           None None "code" true true None 1%nat).
  - reflexivity.
  - repeat constructor.
  - repeat constructor; discriminate.
Defined.

Lemma read_gpkg_layer_single_point_raises_witness :
  (∃ e, outcome (read_grouped box_intersects single_layer) branch_store
        = Raise e) ∧
  after (read_grouped box_intersects single_layer) branch_store = branch_store.
Proof.
  assert (Hs : match assign_groups (lowered single_layer) "branch" (Some "nr")
               with
               | Ok g => singlepoint_branches g ≠ []
               | Raise _ => False
               end).
  { vm_compute. discriminate. }
  destruct (assign_groups (lowered single_layer) "branch" (Some "nr"))
    as [g|e] eqn:Hg; [|done].
  exact (read_gpkg_layer_single_point_raises box_intersects single_layer None
           "branch" (Some "nr") "code" None true true None g branch_store Hg Hs).
Defined.

Lemma assign_groups_startnr_at_most_witness :
  ∃ g s, assign_groups sparse_layer "branch" (Some "nr") = Ok g ∧
         Forall (λ v, is_int v = true) (order g) ∧
         startnr g !! VStr "A" = Some s ∧
         ∃ z, s = VInt z ∧ (z ≤ Z.of_nat (length (rows sparse_layer)) + 1)%Z.
Proof.
  assert (H : match assign_groups sparse_layer "branch" (Some "nr") with
              | Ok g => Forall (λ v, is_int v = true) (order g) ∧
                        is_Some (startnr g !! VStr "A")
              | Raise _ => False
              end).
  { vm_compute. split; [by repeat constructor | by eexists]. }
  destruct (assign_groups sparse_layer "branch" (Some "nr")) as [g|e] eqn:Hg;
    [|done].
  destruct H as [Hints [s Hs]]. exists g, s.
  split; [reflexivity|]. split; [exact Hints|]. split; [exact Hs|].
  exact (assign_groups_startnr_at_most sparse_layer "branch" (Some "nr") g
           (VStr "A") s Hg Hints Hs).
Defined.

Lemma set_data_establishes_wf_self_witness :
  wf_self (after (set_data culverts (Some "code") true true) point_store).
Proof.
  apply set_data_establishes_wf_self.
  - split; [by_computation|]. split; [constructor | done].
  - by_computation.
  - by_computation.
  - intros c [= <-]. by_computation.
  - intros _. by_computation.
Defined.


Lemma add_data_KeyError_for_foreign_column_witness :
  "code" ∈ columns culverts ∧ "geometry" ∈ columns culverts ∧
  ("geometry" ∉ columns (frame section_store)) ∧
  is_KeyError (outcome (ExtendedDataFrame.add_data culverts) section_store) ∧
  after (ExtendedDataFrame.add_data culverts) section_store = section_store.
Proof.
  assert (H1 : "geometry" ∈ columns culverts) by by_computation.
  assert (H2 : "geometry" ∉ columns (frame section_store)) by by_computation.
  split; [by_computation|]. split; [exact H1|]. split; [exact H2|].
  exact (add_data_KeyError_for_foreign_column section_store culverts
           "geometry" H1 H2).
Defined.

Lemma add_data_appends_rows_witness :
  outcome (ExtendedDataFrame.add_data more_sections) section_store = Ok () ∧
  frame (after (ExtendedDataFrame.add_data more_sections) section_store)
  = mkFrame ["code"; "width"]
      [ mkRow (VInt 0) [VStr "P1"; VInt 4];
        mkRow (VInt 1) [VStr "P2"; VInt 6];
        mkRow (VInt 0) [VStr "P3"; VInt 8] ]
      None None.
Proof.
  apply (add_data_appends_rows section_store more_sections).
  - by_computation.
  - split; [by_computation|]. split; [by_computation | discriminate].
  - discriminate.
  - reflexivity.
  - by_computation.
  - by_computation.
Defined.

Lemma data_read_gpkg_layer_stores_no_geometry_witness :
  let store := mkExtended (mkFrame [] [] None None) ["code"] [] in
  let m := ExtendedDataFrame.read_gpkg_layer true (Ok culverts) None
             (Some "code") in
  outcome m store = Ok () ∧
  columns (frame (after m store)) = ["code"] ∧
  (geometry_name ∉ columns (frame (after m store))).
Proof.
  split; [reflexivity|]. split; [reflexivity|].
  apply (data_read_gpkg_layer_stores_no_geometry
           (mkExtended (mkFrame [] [] None None) ["code"] [])
           true (Ok culverts) None (Some "code")).
  - by_computation.
  - intros m c [=].
Defined.

Lemma set_data_KeyError_names_first_missing_column_witness :
  let store := init [CPoint] ["code"; "width"; "depth"] [] in
  outcome (set_data culverts None true true) store = Raise (KeyError "width").
Proof.
  apply (set_data_KeyError_names_first_missing_column
           (init [CPoint] ["code"; "width"; "depth"] []) culverts None true
           ["code"] "width" ["depth"]).
  - reflexivity.
  - by_computation.
  - by_computation.
Defined.

Lemma explode_and_split_numbers_parts_witness :
  ∃ gdf,
    explode_and_split "code"
      (mkFrame ["code"; "geometry"]
         [mkRow (VInt 7) [VStr "W1"; VGeom (MultiPoint [(0, 0); (1, 1)])]]
         None None)
      (mkWorld point_store [])
    = (mkWorld point_store [SplitIntoParts (VStr "W1")], Ok gdf) ∧
    getitem gdf "code" = Ok [VStr "W1_0"; VStr "W1_1"] ∧
    geometry gdf = Ok [pt 0 0; pt 1 1].
Proof.
  apply (explode_and_split_numbers_parts "code" ["code"; "geometry"] (VInt 7)
           [VStr "W1"; VGeom (MultiPoint [(0, 0); (1, 1)])] 1%nat 0%nat
           (VStr "W1") (MultiPoint [(0, 0); (1, 1)]) None None
           (mkWorld point_store [])).
  - reflexivity.
  - reflexivity.
  - discriminate.
  - reflexivity.
  - reflexivity.
  - right. by eexists.
  - simpl. lia.
Defined.

End Instances.
